(** * TinyCommon: the circular queue and the LRU cache of [src/base]

    A shallow embedding of [circular_queue.h] and [lru_cache.h] and the
    properties of the two containers.

    Conventions of the embedding.
    - [size_t] is a 64-bit unsigned integer: a [Z] in [0, 2^64), every
      addition, subtraction and multiplication followed by [wrap].
    - [std::shared_ptr] is an address into a store of reference-counted
      blocks; [std::list] nodes are addresses into a store of nodes, and a
      list iterator is the address of its node.
    - A call returns an [outcome]: a value, a failed [assert] (the process
      aborts), or undefined behaviour (an out-of-range array access, an
      iterator used on a list it does not belong to).
    - The mutex of each object is not modelled: every theorem is about
      calls that run one after the other. *)

From Stdlib Require Import ZArith Lia Bool.
From Stdlib Require Import Floats.SpecFloat.
From stdpp Require Import gmap list.

Open Scope Z_scope.

(** ** Machine integers and outcomes *)

Definition size_t_modulus : Z := 2 ^ 64.

(** Wrap-around of [size_t] arithmetic. *)
Definition wrap (z : Z) : Z := z mod size_t_modulus.

Inductive outcome (A : Type) : Type :=
| Done (a : A)          (* the call returns *)
| AssertFail            (* an assert fails: abort() *)
| Undefined.            (* undefined behaviour *)

Arguments Done {A} a.
Arguments AssertFail {A}.
Arguments Undefined {A}.

(** Calls thread a store [S] and may fail. *)
Definition M (S A : Type) : Type := S -> outcome (A * S).

Definition ret {S A} (a : A) : M S A := fun s => Done (a, s).

Definition bind {S A B} (c : M S A) (k : A -> M S B) : M S B :=
  fun s =>
    match c s with
    | Done (a, s') => k a s'
    | AssertFail => AssertFail
    | Undefined => Undefined
    end.

Definition assert {S} (b : bool) : M S unit :=
  fun s => if b then Done (tt, s) else AssertFail.

Notation "'do' x <- c1 ;; c2" := (bind c1 (fun x => c2))
  (at level 10, x pattern, c1 at level 99, c2 at level 200).
Notation "'run' c1 ;; c2" := (bind c1 (fun _ => c2))
  (at level 10, c1 at level 99, c2 at level 200).

(** ** circular_queue.h *)

Module CQ.

(** Addresses of buffers. *)
Abbreviation loc := nat (only parsing).

(** What a [shared_ptr<buffer_type>] points to: the array and the use
    count of its control block. *)
Record block (T : Type) : Type := Block {
  elems : list T;
  use_count : nat
}.
Arguments Block {T} elems use_count.
Arguments elems {T} b.
Arguments use_count {T} b.

(** The store of buffers. *)
Abbreviation heap T := (gmap loc (block T)) (only parsing).

Section shared_ptr.
Context {T : Type}.

(** [shared_ptr(const shared_ptr&)]: one more owner. *)
Definition sp_copy (l : loc) : M (heap T) loc :=
  fun h =>
    match h !! l with
    | Some b => Done (l, <[l := Block (elems b) (S (use_count b))]> h)
    | None => Undefined
    end.

(** [~shared_ptr()]: one owner less; the last owner frees the block. *)
Definition sp_release (l : loc) : M (heap T) unit :=
  fun h =>
    match h !! l with
    | Some b =>
        if (use_count b <=? 1)%nat then Done (tt, delete l h)
        else Done (tt, <[l := Block (elems b) (Nat.pred (use_count b))]> h)
    | None => Undefined
    end.

(** [shared_ptr(new buffer_type(...))]: a new block with one owner. *)
Definition sp_new (a : list T) : M (heap T) loc :=
  fun h => let l := fresh (dom h) in Done (l, <[l := Block a 1]> h).

(** [*p], read as a whole array. *)
Definition sp_deref (l : loc) : M (heap T) (list T) :=
  fun h =>
    match h !! l with
    | Some b => Done (elems b, h)
    | None => Undefined
    end.

(** [p.unique()]. *)
Definition sp_unique (l : loc) : M (heap T) bool :=
  fun h =>
    match h !! l with
    | Some b => Done ((use_count b =? 1)%nat, h)
    | None => Undefined
    end.

(** The assignment to slot [n] of the array behind [l]:
    [std::array::operator[]] does not check [n]. *)
Definition sp_store (l : loc) (n : Z) (v : T) : M (heap T) unit :=
  fun h =>
    match h !! l with
    | Some b =>
        if (0 <=? n) && (n <? Z.of_nat (length (elems b)))
        then Done (tt, <[l := Block (<[Z.to_nat n := v]> (elems b)) (use_count b)]> h)
        else Undefined
    | None => Undefined
    end.
End shared_ptr.

Record circular_queue : Type := Queue {
  m_buffer : loc;
  m_capacity : Z;
  m_head : Z;          (* oldest *)
  m_tail : Z;          (* newest *)
  m_isEmpty : bool
}.

Section methods.
Context {T : Type}.

Definition empty (q : circular_queue) : bool := m_isEmpty q.

Definition capacity (q : circular_queue) : Z := m_capacity q.

(** [(index + n) % m_capacity]; the sum is a [size_t]. *)
Definition _index_add (q : circular_queue) (index n : Z) : Z :=
  wrap (index + n) mod m_capacity q.

(** The [n]-th slot of the array behind [buffer], unchecked. *)
Definition _at (n : Z) (buffer : loc) : M (heap T) T :=
  fun h =>
    match h !! buffer with
    | Some b =>
        if 0 <=? n then
          match elems b !! Z.to_nat n with
          | Some v => Done (v, h)
          | None => Undefined
          end
        else Undefined
    | None => Undefined
    end.

(** Copies the indices and the smart pointer out of the object. *)
Definition _get_buffer (q : circular_queue) : M (heap T) (Z * Z * bool * loc) :=
  do buffer <- sp_copy (m_buffer q) ;;
  ret (m_head q, m_tail q, m_isEmpty q, buffer).

Definition _get_size (q : circular_queue) (head tail : Z) (isEmpty : bool) : Z :=
  if isEmpty then 0
  else if tail >=? head then wrap (wrap (tail - head) + 1)
  else wrap (m_capacity q - wrap (wrap (head - tail) - 1)).

Definition front (q : circular_queue) : M (heap T) T :=
  do (head, tail, isEmpty, buffer) <- _get_buffer q ;;
  run assert (negb isEmpty) ;;
  do v <- _at head buffer ;;
  run sp_release buffer ;;
  ret v.

(** [back] reads [m_tail] of the object, not the copy it took. *)
Definition back (q : circular_queue) : M (heap T) T :=
  do (head, tail, isEmpty, buffer) <- _get_buffer q ;;
  run assert (negb isEmpty) ;;
  do v <- _at (m_tail q) buffer ;;
  run sp_release buffer ;;
  ret v.

Definition size (q : circular_queue) : M (heap T) Z :=
  do (head, tail, isEmpty, buffer) <- _get_buffer q ;;
  run sp_release buffer ;;
  ret (_get_size q head tail isEmpty).

(** [operator[]]. *)
Definition index (q : circular_queue) (n : Z) : M (heap T) T :=
  do (head, tail, isEmpty, buffer) <- _get_buffer q ;;
  run assert (n <? _get_size q head tail isEmpty) ;;
  do v <- _at (_index_add q head n) buffer ;;
  run sp_release buffer ;;
  ret v.

(** The default constructor. [new buffer_type] leaves the [BufSize]
    slots default-initialised: [T_default] stands for that value. *)
Definition construct (T_default : T) (BufSize : Z) : M (heap T) circular_queue :=
  do buffer <- sp_new (replicate (Z.to_nat BufSize) T_default) ;;
  ret (Queue buffer BufSize 0 0 true).

(** The copy constructor: [m_buffer] starts null and is reset to a new
    array copied from the one of [from]. *)
Definition copy_construct (from : circular_queue) : M (heap T) circular_queue :=
  do (head, tail, isEmpty, buffer) <- _get_buffer from ;;
  do a <- sp_deref buffer ;;
  do fresh_buffer <- sp_new a ;;
  run sp_release buffer ;;
  ret (Queue fresh_buffer (m_capacity from) head tail isEmpty).

(** [operator=]: as the copy constructor, and [reset] drops the buffer
    the object had. *)
Definition assign (this from : circular_queue) : M (heap T) circular_queue :=
  do (head, tail, isEmpty, buffer) <- _get_buffer from ;;
  do a <- sp_deref buffer ;;
  do fresh_buffer <- sp_new a ;;
  run sp_release (m_buffer this) ;;
  run sp_release buffer ;;
  ret (Queue fresh_buffer (m_capacity from) head tail isEmpty).

(** The copy-on-write prologue of [push_back] and [pop]:
    [if (!m_buffer.unique()) m_buffer.reset(new buffer_type( *m_buffer))]. *)
Definition detach (q : circular_queue) : M (heap T) loc :=
  do u <- sp_unique (m_buffer q) ;;
  if u then ret (m_buffer q)
  else
    do a <- sp_deref (m_buffer q) ;;
    do fresh_buffer <- sp_new a ;;
    run sp_release (m_buffer q) ;;
    ret fresh_buffer.

Definition push_back (from : T) (q : circular_queue) : M (heap T) circular_queue :=
  do buffer <- detach q ;;
  let head :=
    if _index_add q (m_tail q) 1 =? m_head q
    then _index_add q (m_head q) 1 else m_head q in
  let tail :=
    if negb (m_isEmpty q) then _index_add q (m_tail q) 1 else m_tail q in
  run sp_store buffer tail from ;;
  ret (Queue buffer (m_capacity q) head tail false).

Definition pop (q : circular_queue) : M (heap T) (T * circular_queue) :=
  do buffer <- detach q ;;
  run assert (negb (m_isEmpty q)) ;;
  let preHead := m_head q in
  let head := _index_add q (m_head q) 1 in
  let q' :=
    if head =? _index_add q (m_tail q) 1
    then Queue buffer (m_capacity q) head head true
    else Queue buffer (m_capacity q) head (m_tail q) false in
  do v <- _at preHead buffer ;;
  ret (v, q').
End methods.

(** *** The invariant and the logical contents *)

Section specification.
Context {T : Type}.

(** The invariant on the indices. An array object is at most
    [PTRDIFF_MAX] bytes, so [BufSize < 2^63]. *)
Record shape (q : circular_queue) : Prop := {
  shape_capacity : 0 < m_capacity q < 2 ^ 63;
  shape_head : 0 <= m_head q < m_capacity q;
  shape_tail : 0 <= m_tail q < m_capacity q;
  shape_empty : m_isEmpty q = true -> m_head q = m_tail q
}.

(** The class invariant of an object whose buffer lives in [h]. *)
Record wf (q : circular_queue) (h : heap T) : Prop := {
  wf_shape : shape q;
  wf_buffer : exists b, h !! m_buffer q = Some b /\
                Z.of_nat (length (elems b)) = m_capacity q /\
                (0 < use_count b)%nat
}.

(** The number of elements the indices of [q] describe. *)
Definition stored (q : circular_queue) : Z :=
  _get_size q (m_head q) (m_tail q) (m_isEmpty q).

(** The elements of [q] over the array [a], oldest first. *)
Definition contents (q : circular_queue) (a : list T) : list T :=
  take (Z.to_nat (stored q)) (rotate (Z.to_nat (m_head q)) a).

(** What a caller can observe of [q]: its capacity and its elements. *)
Definition observe (q : circular_queue) (h : heap T) : option (Z * list T) :=
  match h !! m_buffer q with
  | Some b => Some (m_capacity q, contents q (elems b))
  | None => None
  end.

(** A call on [q] that leaves [q'] in [h'] spares every other buffer
    of [h]: it keeps its address, its array and its owners. *)
Definition spares (q q' : circular_queue) (h h' : heap T) : Prop :=
  forall l, l <> m_buffer q -> is_Some (h !! l) ->
            l <> m_buffer q' /\ h' !! l = h !! l.

(** The last [C] elements of [c]: what a queue of capacity [C] keeps
    of the values pushed into it. *)
Definition keep_last (C : Z) (c : list T) : list T :=
  drop (length c - Z.to_nat C) c.

(** [push_back] of each value of [vs], first to last. *)
Fixpoint push_all (vs : list T) (q : circular_queue) : M (heap T) circular_queue :=
  match vs with
  | [] => ret q
  | v :: vs' => do q' <- push_back v q ;; push_all vs' q'
  end.

(** [n] calls of [pop]; the values returned, first to last. *)
Fixpoint pop_n (n : nat) (q : circular_queue) : M (heap T) (list T * circular_queue) :=
  match n with
  | O => ret ([], q)
  | S n' =>
      do (v, q') <- pop q ;;
      do (vs, q'') <- pop_n n' q' ;;
      ret (v :: vs, q'')
  end.

Inductive mutation : Type :=
| PushBack (v : T)
| Pop.

Definition mutate (m : mutation) (q : circular_queue) : M (heap T) circular_queue :=
  match m with
  | PushBack v => push_back v q
  | Pop => do (_, q') <- pop q ;; ret q'
  end.

(** What a mutation does to the contents of a queue of capacity [C];
    [None] when it is a [pop] of an empty queue. *)
Definition model_step (C : Z) (m : mutation) (c : list T) : option (list T) :=
  match m with
  | PushBack v => Some (keep_last C (c ++ [v]))
  | Pop => match c with [] => None | _ :: c' => Some c' end
  end.

Fixpoint model_run (C : Z) (ms : list mutation) (c : list T) : option (list T) :=
  match ms with
  | [] => Some c
  | m :: ms' =>
      match model_step C m c with
      | Some c' => model_run C ms' c'
      | None => None
      end
  end.

(** The mutations of [ms] that are for the object named [side]. *)
Fixpoint for_side (side : bool) (ms : list (bool * mutation)) : list mutation :=
  match ms with
  | [] => []
  | (s, m) :: ms' =>
      if Bool.eqb s side then m :: for_side side ms' else for_side side ms'
  end.

(** Two objects, each mutated in turn: [true] names the first. *)
Fixpoint mutate_both (ms : list (bool * mutation)) (p : circular_queue * circular_queue)
  : M (heap T) (circular_queue * circular_queue) :=
  match ms with
  | [] => ret p
  | (true, m) :: ms' => do q <- mutate m (fst p) ;; mutate_both ms' (q, snd p)
  | (false, m) :: ms' => do q <- mutate m (snd p) ;; mutate_both ms' (fst p, q)
  end.

(** [cpy] is a snapshot of a queue of capacity [C] that held [c0]:
    both hold [c0] in [h0], and from then on what each one holds is
    decided by its own mutations alone. *)
Definition snapshot (C : Z) (c0 : list T) (src cpy : circular_queue) (h0 : heap T) : Prop :=
  observe src h0 = Some (C, c0) /\
  observe cpy h0 = Some (C, c0) /\
  (forall ms s' c' h',
      mutate_both ms (src, cpy) h0 = Done ((s', c'), h') ->
      observe s' h' = pair C <$> model_run C (for_side true ms) c0 /\
      observe c' h' = pair C <$> model_run C (for_side false ms) c0) /\
  (forall ms,
      is_Some (model_run C (for_side true ms) c0) ->
      is_Some (model_run C (for_side false ms) c0) ->
      exists p' h', mutate_both ms (src, cpy) h0 = Done (p', h')).

(** A sequence of mutations of one object, first to last. *)
Fixpoint mutate_all (ms : list mutation) (q : circular_queue) : M (heap T) circular_queue :=
  match ms with
  | [] => ret q
  | m :: ms' => do q' <- mutate m q ;; mutate_all ms' q'
  end.
End specification.

End CQ.

(** ** lru_cache.h *)

Module LRU.

(** A [std::list] iterator: the address of a node. *)
Abbreviation iterator := nat (only parsing).

(** [static_cast<double>] of a [size_t] and the division of two
    doubles, in IEEE 754 binary64 with rounding to nearest even. *)
Definition to_double (z : Z) : spec_float := binary_normalize 53 1024 z 0 false.

Definition double_div (x y : spec_float) : spec_float := SFdiv 53 1024 x y.

Record Stats : Type := MkStats {
  m_get_cnt : Z;
  m_hit_cnt : Z
}.

Section cache.
Context {Key : Type} `{Countable Key} {value_ptr_type : Type}.

(** [sizeof(value_type)]. *)
Variable sizeof_value : Z.

(** [std::pair<Key, value_ptr_type>]. *)
Abbreviation list_value := (Key * value_ptr_type)%type (only parsing).

(** The nodes of all lists, by address. *)
Abbreviation nodes := (gmap iterator list_value) (only parsing).

Record LRU_cache : Type := Cache {
  m_list : list iterator;                 (* front first *)
  m_hash_table : gmap Key iterator;
  m_max_size : Z;
  m_max_memory_size : Z;
  m_stats : Stats
}.

Definition with_list (l : list iterator) (c : LRU_cache) : LRU_cache :=
  Cache l (m_hash_table c) (m_max_size c) (m_max_memory_size c) (m_stats c).

Definition with_hash_table (t : gmap Key iterator) (c : LRU_cache) : LRU_cache :=
  Cache (m_list c) t (m_max_size c) (m_max_memory_size c) (m_stats c).

Definition with_stats (st : Stats) (c : LRU_cache) : LRU_cache :=
  Cache (m_list c) (m_hash_table c) (m_max_size c) (m_max_memory_size c) st.

(** *** std::list *)

(** [*it]. *)
Definition node_read (it : iterator) : M nodes list_value :=
  fun s =>
    match s !! it with
    | Some x => Done (x, s)
    | None => Undefined
    end.

(** [it->second = value]. *)
Definition node_set_second (it : iterator) (value : value_ptr_type) : M nodes unit :=
  fun s =>
    match s !! it with
    | Some x => Done (tt, <[it := (fst x, value)]> s)
    | None => Undefined
    end.

(** A new node that holds [x]. *)
Definition node_new (x : list_value) : M nodes iterator :=
  fun s => let it := fresh (dom s) in Done (it, <[it := x]> s).

(** [l.push_front(x)]: a new node in front. *)
Definition list_push_front (x : list_value) (l : list iterator) : M nodes (list iterator) :=
  do it <- node_new x ;;
  ret (it :: l).

(** [l.begin()], where the list is not empty. *)
Definition list_begin (l : list iterator) : M nodes iterator :=
  fun s =>
    match l with
    | it :: _ => Done (it, s)
    | [] => Undefined
    end.

(** [l.splice(l.begin(), l, it)]: the node of [it] moves to the front.
    [it] has to be an iterator into [l]. *)
Definition list_splice_front (l : list iterator) (it : iterator) : M nodes (list iterator) :=
  fun s =>
    if decide (it ∈ l) then Done (it :: filter (fun x => x <> it) l, s)
    else Undefined.

(** [--l.end()], where the list is not empty. *)
Definition list_last (l : list iterator) : M nodes iterator :=
  fun s =>
    match last l with
    | Some it => Done (it, s)
    | None => Undefined
    end.

(** [l.erase(it)]: the node leaves the list and is freed. *)
Definition list_erase (l : list iterator) (it : iterator) : M nodes (list iterator) :=
  fun s =>
    if decide (it ∈ l) then Done (filter (fun x => x <> it) l, delete it s)
    else Undefined.

(** *** The methods *)

Definition construct (Size : Z) : LRU_cache :=
  Cache [] ∅ Size 0 (MkStats 0 0).

Definition construct_with_memory (Size MemorySize : Z) : LRU_cache :=
  Cache [] ∅ Size MemorySize (MkStats 0 0).

(** The copy constructor and [operator=] of the class are not among
    the methods. Both assign to [this->m_get_cnt] and [this->m_hit_cnt],
    which the class does not declare, so neither has an instantiation
    that compiles: no object is made or changed by them. *)

Definition exists_ (key : Key) (c : LRU_cache) : bool :=
  match m_hash_table c !! key with
  | None => false
  | Some _ => true
  end.

Definition get_hit_rate (c : LRU_cache) : spec_float :=
  double_div (to_double (m_hit_cnt (m_stats c))) (to_double (m_get_cnt (m_stats c))).

Definition reset_stats (c : LRU_cache) : LRU_cache :=
  with_stats (MkStats 0 0) c.

(** The number of elements of the hash table; a container never holds
    more than [size_type] can count. *)
Definition _get_cache_size (c : LRU_cache) : Z :=
  Z.of_nat (size (m_hash_table c)).

Definition _get_memory_size (c : LRU_cache) : Z :=
  wrap (_get_cache_size c * sizeof_value).

Definition _discard_one_elem (c : LRU_cache) : M nodes LRU_cache :=
  do ite_list_last <- list_last (m_list c) ;;
  do x <- node_read ite_list_last ;;
  let t := delete (fst x) (m_hash_table c) in
  do l <- list_erase (m_list c) ite_list_last ;;
  ret (with_hash_table t (with_list l c)).

(** The first half of [push]: a new key gets a node in front and an
    entry in the hash table; a known key gets the new value, and its
    node moves to the front. *)
Definition insert_or_update (key : Key) (value : value_ptr_type) (c : LRU_cache)
  : M nodes LRU_cache :=
  match m_hash_table c !! key with
  | None =>
      do l <- list_push_front (key, value) (m_list c) ;;
      do b <- list_begin l ;;
      ret (with_hash_table (<[key := b]> (m_hash_table c)) (with_list l c))
  | Some it =>
      run node_set_second it value ;;
      do l <- list_splice_front (m_list c) it ;;
      ret (with_list l c)
  end.

(** The condition of the second half of [push]. *)
Definition over_budget (c : LRU_cache) : bool :=
  (_get_cache_size c >? m_max_size c) ||
  (negb (m_max_memory_size c =? 0) &&
   (_get_memory_size c >? m_max_memory_size c)).

(** The second half of [push]: at most one element is discarded. *)
Definition evict (c : LRU_cache) : M nodes LRU_cache :=
  if over_budget c then _discard_one_elem c else ret c.

Definition push (key : Key) (value : value_ptr_type) (c : LRU_cache) : M nodes LRU_cache :=
  do c1 <- insert_or_update key value c ;;
  evict c1.

(** [get]: [value] is the out-parameter; the call returns the flag, the
    out-parameter as it leaves it, and the object. *)
Definition get (key : Key) (value : value_ptr_type) (c : LRU_cache)
  : M nodes (bool * value_ptr_type * LRU_cache) :=
  let st := m_stats c in
  let c1 := with_stats (MkStats (wrap (m_get_cnt st + 1)) (m_hit_cnt st)) c in
  match m_hash_table c1 !! key with
  | None => ret (false, value, c1)
  | Some it =>
      let st1 := m_stats c1 in
      let c2 := with_stats (MkStats (m_get_cnt st1) (wrap (m_hit_cnt st1 + 1))) c1 in
      do l <- list_splice_front (m_list c2) it ;;
      do x <- node_read it ;;
      ret (true, snd x, with_list l c2)
  end.

(** *** The invariant and the observations *)

(** The list and the hash table agree: the list has no node twice,
    every entry of the table points to a node of the list that holds
    its key, and every node of the list is the one the table has for
    the key it holds. *)
Record consistent (c : LRU_cache) (s : nodes) : Prop := {
  consistent_nodup : NoDup (m_list c);
  consistent_index : forall k it,
    m_hash_table c !! k = Some it ->
    it ∈ m_list c /\ exists v, s !! it = Some (k, v);
  consistent_list : forall it,
    it ∈ m_list c ->
    exists k v, s !! it = Some (k, v) /\ m_hash_table c !! k = Some it
}.

(** The counters and the bounds are [size_t] values. *)
Record in_range (c : LRU_cache) : Prop := {
  range_get_cnt : 0 <= m_get_cnt (m_stats c) < 2 ^ 64;
  range_hit_cnt : 0 <= m_hit_cnt (m_stats c) < 2 ^ 64;
  range_max_size : 0 <= m_max_size c < 2 ^ 64;
  range_max_memory_size : 0 <= m_max_memory_size c < 2 ^ 64
}.

(** The elements in the order of the list, most recently used first. *)
Definition entries (c : LRU_cache) (s : nodes) : list (option list_value) :=
  (fun it => s !! it) <$> m_list c.

Inductive op : Type :=
| Push (key : Key) (value : value_ptr_type)
| Get (key : Key) (value : value_ptr_type)
| Exists (key : Key)
| ResetStats.

(** One call; with it the flag a [get] returns. [exists] is [const]:
    whatever its flag, the sequence goes on from the same object. *)
Definition step (o : op) (c : LRU_cache) : M nodes (list bool * LRU_cache) :=
  match o with
  | Push key value => do c' <- push key value c ;; ret ([], c')
  | Get key value => do (found, _, c') <- get key value c ;; ret ([found], c')
  | Exists key => ret ([], c)
  | ResetStats => ret ([], reset_stats c)
  end.

(** A sequence of calls; with it the flags of its [get]s, in order. *)
Fixpoint run_ops (os : list op) (c : LRU_cache) : M nodes (list bool * LRU_cache) :=
  match os with
  | [] => ret ([], c)
  | o :: os' =>
      do (r, c') <- step o c ;;
      do (rs, c'') <- run_ops os' c' ;;
      ret (r ++ rs, c'')
  end.

Definition is_reset (o : op) : bool :=
  match o with ResetStats => true | _ => false end.

(** *** The cache as a recency list

    What a cache of at most [N] elements and [M] bytes holds, as the
    list of its elements, most recently used first. *)

(** The element of [key] goes to the front, with [value]. *)
Definition lru_touch (key : Key) (value : value_ptr_type) (kvs : list list_value)
  : list list_value :=
  (key, value) :: filter (fun p => fst p <> key) kvs.

(** [n] elements are more than the bounds allow. *)
Definition lru_over (N M n : Z) : bool :=
  (n >? N) || (negb (M =? 0) && (wrap (n * sizeof_value) >? M)).

Definition lru_push (N M : Z) (key : Key) (value : value_ptr_type) (kvs : list list_value)
  : list list_value :=
  let kvs1 := lru_touch key value kvs in
  if lru_over N M (Z.of_nat (length kvs1)) then removelast kvs1 else kvs1.

Definition lru_get (key : Key) (value : value_ptr_type) (kvs : list list_value)
  : bool * value_ptr_type * list list_value :=
  match (list_to_map kvs : gmap Key value_ptr_type) !! key with
  | Some v => (true, v, lru_touch key v kvs)
  | None => (false, value, kvs)
  end.

Definition lru_step (N M : Z) (o : op) (kvs : list list_value) : list bool * list list_value :=
  match o with
  | Push key value => ([], lru_push N M key value kvs)
  | Get key value => ([fst (fst (lru_get key value kvs))], snd (lru_get key value kvs))
  | Exists _ => ([], kvs)
  | ResetStats => ([], kvs)
  end.

Fixpoint lru_run (N M : Z) (os : list op) (kvs : list list_value)
  : list bool * list list_value :=
  match os with
  | [] => ([], kvs)
  | o :: os' =>
      let r := lru_step N M o kvs in
      let rs := lru_run N M os' (snd r) in
      (fst r ++ fst rs, snd rs)
  end.
End cache.

End LRU.

(** * Machine arithmetic and the monad *)

Lemma wrap_small z : 0 <= z < 2 ^ 64 -> wrap z = z.
Proof. intros Hz. unfold wrap, size_t_modulus. by apply Z.mod_small. Qed.

Lemma mod_add_wrap c a b :
  0 < c -> 0 <= a < c -> 0 <= b <= c ->
  (a + b) mod c = if a + b <? c then a + b else a + b - c.
Proof.
  intros Hc Ha Hb. destruct (Z.ltb_spec (a + b) c) as [Hlt | Hge].
  - apply Z.mod_small. lia.
  - replace (a + b) with ((a + b - c) + 1 * c) by lia.
    rewrite Z.mod_add by lia. replace (a + b - c + 1 * c - c) with (a + b - c) by lia.
    apply Z.mod_small. lia.
Qed.

Lemma bind_done {S A B} (c : M S A) (k : A -> M S B) s (r : A) s' :
  c s = Done (r, s') -> bind c k s = k r s'.
Proof. intros Hc. unfold bind. by rewrite Hc. Qed.

Ltac cases_cmp :=
  repeat match goal with
  | |- context [?a <? ?b] => destruct (Z.ltb_spec a b)
  | |- context [?a =? ?b] => destruct (Z.eqb_spec a b)
  | |- context [?a >=? ?b] => destruct (Z.geb_spec a b)
  | H : context [?a <? ?b] |- _ => destruct (Z.ltb_spec a b)
  | H : context [?a =? ?b] |- _ => destruct (Z.eqb_spec a b)
  | H : context [?a >=? ?b] |- _ => destruct (Z.geb_spec a b)
  end.

(** * Properties of the circular queue *)

Module CQ_theory.
Import CQ.

Section queue.
Context {T : Type}.
Implicit Types (q : circular_queue) (h : heap T) (a : list T) (v : T).

Lemma index_add_spec q i n :
  0 < m_capacity q < 2 ^ 63 -> 0 <= i < m_capacity q -> 0 <= n <= m_capacity q ->
  _index_add q i n =
    if i + n <? m_capacity q then i + n else i + n - m_capacity q.
Proof.
  intros Hc Hi Hn. unfold _index_add.
  rewrite wrap_small by lia. by apply mod_add_wrap; lia.
Qed.

Lemma index_add_range q i n :
  0 < m_capacity q < 2 ^ 63 -> 0 <= i < m_capacity q -> 0 <= n <= m_capacity q ->
  0 <= _index_add q i n < m_capacity q.
Proof.
  intros Hc Hi Hn. rewrite index_add_spec by done.
  destruct (Z.ltb_spec (i + n) (m_capacity q)); lia.
Qed.

Lemma stored_spec q :
  shape q ->
  stored q =
    if m_isEmpty q then 0
    else if m_tail q >=? m_head q then m_tail q - m_head q + 1
    else m_capacity q - (m_head q - m_tail q - 1).
Proof.
  intros [Hc Hh Ht _]. unfold stored, _get_size.
  destruct (m_isEmpty q); [done|].
  destruct (Z.geb_spec (m_tail q) (m_head q)).
  - rewrite (wrap_small (_ - _)) by lia. apply wrap_small. lia.
  - rewrite (wrap_small (m_head q - _)) by lia.
    rewrite (wrap_small (_ - 1)) by lia. apply wrap_small. lia.
Qed.

Lemma stored_range q : shape q -> 0 <= stored q <= m_capacity q.
Proof.
  intros Hs. rewrite (stored_spec q Hs). destruct Hs as [Hc Hh Ht _].
  destruct (m_isEmpty q); [lia|].
  destruct (Z.geb_spec (m_tail q) (m_head q)); lia.
Qed.

Lemma stored_nonempty q : shape q -> m_isEmpty q = false -> 1 <= stored q.
Proof.
  intros Hs He. rewrite (stored_spec q Hs), He. destruct Hs as [Hc Hh Ht _].
  destruct (Z.geb_spec (m_tail q) (m_head q)); lia.
Qed.

Lemma stored_empty q : m_isEmpty q = true -> stored q = 0.
Proof. intros He. unfold stored, _get_size. by rewrite He. Qed.

(** The newest element sits [stored q - 1] slots after the oldest. *)
Lemma tail_spec q :
  shape q -> m_isEmpty q = false ->
  m_tail q = _index_add q (m_head q) (stored q - 1).
Proof.
  intros Hs He. pose proof (stored_range q Hs) as Hr.
  pose proof (stored_nonempty q Hs He) as Hn.
  rewrite index_add_spec by (destruct Hs; lia).
  revert Hr Hn. rewrite (stored_spec q Hs), He. destruct Hs as [Hc Hh Ht _].
  destruct (Z.geb_spec (m_tail q) (m_head q)); intros;
    destruct (Z.ltb_spec (m_head q + (m_tail q - m_head q + 1 - 1)) (m_capacity q));
    destruct (Z.ltb_spec (m_head q + (m_capacity q - (m_head q - m_tail q - 1) - 1)) (m_capacity q));
    lia.
Qed.

Lemma contents_length q a :
  shape q -> Z.of_nat (length a) = m_capacity q ->
  Z.of_nat (length (contents q a)) = stored q.
Proof.
  intros Hs Ha. pose proof (stored_range q Hs). unfold contents.
  rewrite length_take, length_rotate. lia.
Qed.

Lemma contents_lookup q a (i : nat) :
  shape q -> Z.of_nat (length a) = m_capacity q ->
  Z.of_nat i < stored q ->
  contents q a !! i = a !! Z.to_nat (_index_add q (m_head q) (Z.of_nat i)).
Proof.
  intros Hs Ha Hi. pose proof (stored_range q Hs) as Hr. unfold contents.
  rewrite lookup_take_lt by lia.
  rewrite lookup_rotate_r by lia. f_equal.
  unfold rotate_nat_add, _index_add. rewrite wrap_small by (destruct Hs; lia).
  rewrite Ha. f_equal. f_equal. destruct Hs. lia.
Qed.

(** The indices [push_back] leaves, whatever the buffer. *)
Lemma push_back_indices l q q' :
  shape q ->
  q' = Queue l (m_capacity q)
         (if _index_add q (m_tail q) 1 =? m_head q
          then _index_add q (m_head q) 1 else m_head q)
         (if negb (m_isEmpty q) then _index_add q (m_tail q) 1 else m_tail q)
         false ->
  shape q' /\
  stored q' = Z.min (stored q + 1) (m_capacity q) /\
  m_head q' = _index_add q (m_head q) (stored q + 1 - stored q') /\
  m_tail q' = _index_add q (m_head q) (stored q).
Proof.
  intros Hs ->. pose proof (stored_spec q Hs) as Hn.
  match goal with |- shape ?q' /\ _ => assert (Hs' : shape q') end.
  { destruct Hs as [Hc Hh Ht He]. split; simpl; try done.
    - destruct (_ =? _); [apply index_add_range; lia | lia].
    - destruct (negb _); [apply index_add_range; lia | lia]. }
  split; [done|].
  pose proof (stored_spec _ Hs') as Hn'.
  pose proof (stored_range _ Hs) as Hr.
  destruct Hs as [Hc Hh Ht He]. clear Hs'.
  match type of Hn' with stored ?q' = _ =>
    assert (Hst : stored q' = Z.min (stored q + 1) (m_capacity q)) end.
  { rewrite Hn'. revert Hr. rewrite Hn. simpl.
    rewrite !index_add_spec by lia.
    destruct (m_isEmpty q); simpl; intros Hr.
    - specialize (He eq_refl). cases_cmp; lia.
    - cases_cmp; lia. }
  split; [done|]. rewrite Hst. clear Hn' Hst.
  rewrite (index_add_spec q (m_head q) (stored q)) by lia.
  rewrite (index_add_spec q (m_head q) (_ - _)) by lia.
  revert Hr. rewrite Hn. simpl. rewrite !index_add_spec by lia.
  destruct (m_isEmpty q); simpl; intros Hr.
  - specialize (He eq_refl). cases_cmp; lia.
  - cases_cmp; lia.
Qed.

Lemma index_add_same_capacity q q' i n :
  m_capacity q' = m_capacity q -> _index_add q' i n = _index_add q i n.
Proof. intros Hc. unfold _index_add. by rewrite Hc. Qed.

(** Writing the new value at the new tail appends it to the contents
    and, in a full queue, drops the oldest. *)
Lemma push_back_contents q q' a v :
  shape q -> shape q' -> Z.of_nat (length a) = m_capacity q ->
  m_capacity q' = m_capacity q ->
  stored q' = Z.min (stored q + 1) (m_capacity q) ->
  m_head q' = _index_add q (m_head q) (stored q + 1 - stored q') ->
  m_tail q' = _index_add q (m_head q) (stored q) ->
  contents q' (<[Z.to_nat (m_tail q') := v]> a) =
    drop (Z.to_nat (stored q + 1 - m_capacity q)) (contents q a ++ [v]).
Proof.
  intros Hs Hs' Ha Hc Hst Hhd Htl.
  pose proof (stored_range q Hs) as Hr.
  pose proof (contents_length q a Hs Ha) as Hlen.
  assert (Ha' : Z.of_nat (length (<[Z.to_nat (m_tail q') := v]> a)) = m_capacity q')
    by (rewrite length_insert; lia).
  pose proof (contents_length q' _ Hs' Ha') as Hlen'.
  pose proof Hs' as Hs''.
  destruct Hs' as [_ Hh' Ht' _]. rewrite Hc in Hh', Ht'.
  rewrite index_add_spec in Hhd, Htl by (destruct Hs; lia).
  apply list_eq. intros i.
  destruct (Z.lt_ge_cases (Z.of_nat i) (stored q')) as [Hi | Hi].
  - rewrite (contents_lookup q' _ i Hs'' Ha' Hi).
    rewrite lookup_drop.
    rewrite (index_add_same_capacity q q') by done.
    destruct (Z.lt_ge_cases (Z.of_nat (Z.to_nat (stored q + 1 - m_capacity q) + i)) (stored q))
      as [Hold | Hnew].
    + rewrite lookup_app_l by lia.
      rewrite (contents_lookup q a _ Hs Ha) by lia.
      destruct Hs as [Hcap Hh Ht _].
      rewrite !index_add_spec by lia.
      rewrite list_lookup_insert_ne; [f_equal|]; cases_cmp; lia.
    + rewrite lookup_app_r by lia.
      replace (_ - _)%nat with 0%nat by lia. simpl.
      replace (_index_add q (m_head q') (Z.of_nat i)) with (m_tail q').
      * apply list_lookup_insert_eq. lia.
      * destruct Hs as [Hcap Hh Ht _].
        rewrite !index_add_spec by lia. cases_cmp; lia.
  - rewrite !(proj2 (lookup_ge_None _ _)); [done | |].
    + rewrite length_drop, length_app. simpl. lia.
    + lia.
Qed.
(** The indices [pop] leaves. *)
Lemma pop_indices l q q' :
  shape q -> m_isEmpty q = false ->
  q' = (if _index_add q (m_head q) 1 =? _index_add q (m_tail q) 1
        then Queue l (m_capacity q) (_index_add q (m_head q) 1)
               (_index_add q (m_head q) 1) true
        else Queue l (m_capacity q) (_index_add q (m_head q) 1) (m_tail q) false) ->
  shape q' /\
  m_capacity q' = m_capacity q /\
  m_buffer q' = l /\
  stored q' = stored q - 1 /\
  m_head q' = _index_add q (m_head q) 1 /\
  (stored q = 1 -> m_isEmpty q' = true /\ m_head q' = m_tail q').
Proof.
  intros Hs He ->. pose proof (stored_spec q Hs) as Hn. rewrite He in Hn.
  destruct Hs as [Hc Hh Ht _].
  pose proof (index_add_range q (m_head q) 1 Hc Hh ltac:(lia)) as Hh'.
  match goal with |- shape ?q' /\ _ => assert (Hs' : shape q') end.
  { destruct (_ =? _); split; simpl; done || lia. }
  split; [done|].
  pose proof (stored_spec _ Hs') as Hn'. clear Hs'. rewrite Hn, Hn'. clear Hn Hn' Hh'.
  rewrite !index_add_spec by lia.
  destruct (Z.eqb_spec (if m_head q + 1 <? m_capacity q then m_head q + 1
                        else m_head q + 1 - m_capacity q)
                       (if m_tail q + 1 <? m_capacity q then m_tail q + 1
                        else m_tail q + 1 - m_capacity q)) as [Heq | Hne]; simpl.
  - repeat split; try done; cases_cmp; lia.
  - repeat split; try done; revert Hne; cases_cmp; lia.
Qed.

(** The oldest element is the one at [m_head]; the rest follows it. *)
Lemma pop_contents q q' a :
  shape q -> shape q' -> Z.of_nat (length a) = m_capacity q ->
  m_capacity q' = m_capacity q ->
  1 <= stored q ->
  stored q' = stored q - 1 ->
  m_head q' = _index_add q (m_head q) 1 ->
  exists v, a !! Z.to_nat (m_head q) = Some v /\
            contents q a = v :: contents q' a.
Proof.
  intros Hs Hs' Ha Hc Hne Hst Hhd.
  pose proof (stored_range q Hs) as Hr.
  pose proof (contents_length q a Hs Ha) as Hlen.
  assert (Ha' : Z.of_nat (length a) = m_capacity q') by lia.
  pose proof (contents_length q' a Hs' Ha') as Hlen'.
  destruct (lookup_lt_is_Some_2 a (Z.to_nat (m_head q))) as [v Hv].
  { destruct Hs. lia. }
  exists v. split; [done|].
  apply list_eq. intros [|i].
  - rewrite (contents_lookup q a 0 Hs Ha) by lia. simpl. rewrite <- Hv.
    f_equal. f_equal. destruct Hs as [Hcap Hh Ht _].
    rewrite index_add_spec by lia. cases_cmp; lia.
  - simpl. destruct (Z.lt_ge_cases (Z.of_nat (S i)) (stored q)) as [Hi | Hi].
    + rewrite (contents_lookup q a (S i) Hs Ha Hi).
      rewrite (contents_lookup q' a i Hs' Ha') by lia.
      rewrite (index_add_same_capacity q q') by done.
      f_equal. f_equal. rewrite Hhd. destruct Hs as [Hcap Hh Ht _].
      pose proof (index_add_range q (m_head q) 1 Hcap Hh ltac:(lia)).
      rewrite (index_add_spec q (_index_add _ _ _)) by lia.
      rewrite !index_add_spec by lia. cases_cmp; lia.
    + rewrite !(proj2 (lookup_ge_None _ _)); [done | lia | lia].
Qed.

(** ** Running the calls *)

Lemma get_buffer_run q h b :
  h !! m_buffer q = Some b ->
  _get_buffer q h =
    Done ((m_head q, m_tail q, m_isEmpty q, m_buffer q),
          <[m_buffer q := Block (elems b) (S (use_count b))]> h).
Proof. intros Hb. unfold _get_buffer, bind, sp_copy. by rewrite Hb. Qed.

Lemma at_run (n : Z) l h b v :
  h !! l = Some b -> 0 <= n -> elems b !! Z.to_nat n = Some v ->
  _at n l h = Done (v, h).
Proof.
  intros Hb Hn Hv. unfold _at. rewrite Hb.
  destruct (Z.leb_spec 0 n); [|lia]. by rewrite Hv.
Qed.

Lemma at_beyond (n : Z) l h b :
  h !! l = Some b -> Z.of_nat (length (elems b)) <= n ->
  _at (T:=T) n l h = Undefined.
Proof.
  intros Hb Hn. unfold _at. rewrite Hb.
  destruct (Z.leb_spec 0 n); [|done].
  rewrite (proj2 (lookup_ge_None _ _)); [done | lia].
Qed.

(** The owner a reader added is dropped again: the store is as before. *)
Lemma release_after_copy l h b :
  h !! l = Some b -> (0 < use_count b)%nat ->
  sp_release l (<[l := Block (elems b) (S (use_count b))]> h) = Done (tt, h).
Proof.
  intros Hb Hu. unfold sp_release. rewrite lookup_insert_eq.
  destruct b as [a [|n]]; simpl in *; [lia|].
  rewrite insert_insert_eq. by rewrite insert_id.
Qed.

Lemma size_run q h :
  wf q h -> size q h = Done (stored q, h).
Proof.
  intros [_ (b & Hb & _ & Hu)]. unfold size.
  rewrite (bind_done _ _ _ _ _ (get_buffer_run q h b Hb)).
  by rewrite (bind_done _ _ _ _ _ (release_after_copy _ h b Hb Hu)).
Qed.

(** [operator[]] inside the range: the slot [(m_head + n) mod m_capacity]
    of the array, which is the [n]-th of the contents. *)
Lemma index_run q h b (n : Z) :
  wf q h -> h !! m_buffer q = Some b -> 0 <= n < stored q ->
  exists v, index q n h = Done (v, h) /\
            elems b !! Z.to_nat ((m_head q + n) mod m_capacity q) = Some v /\
            contents q (elems b) !! Z.to_nat n = Some v.
Proof.
  intros [Hs (b' & Hb' & Ha & Hu)] Hb Hn. assert (b' = b) as -> by congruence.
  pose proof (stored_range q Hs) as Hr.
  assert (Hidx : _index_add q (m_head q) n = (m_head q + n) mod m_capacity q).
  { unfold _index_add. rewrite wrap_small; [done | destruct Hs; lia]. }
  pose proof (index_add_range q (m_head q) n) as Hrange.
  destruct Hs as [Hc Hh Ht He]. specialize (Hrange Hc Hh ltac:(lia)).
  destruct (lookup_lt_is_Some_2 (elems b) (Z.to_nat (_index_add q (m_head q) n)))
    as [v Hv]; [lia|].
  exists v. split; [|split].
  - unfold index.
    rewrite (bind_done _ _ _ _ _ (get_buffer_run q h b Hb)).
    unfold assert at 1. fold (stored q).
    destruct (Z.ltb_spec n (stored q)); [|lia].
    unfold bind at 1.
    erewrite bind_done; [| eapply at_run; [apply lookup_insert_eq | lia | exact Hv]].
    by rewrite (bind_done _ _ _ _ _ (release_after_copy _ h b Hb Hu)).
  - by rewrite <- Hidx.
  - rewrite (contents_lookup q (elems b) (Z.to_nat n)) by (done || lia).
    by rewrite Z2Nat.id by lia.
Qed.

Lemma index_beyond q h (n : Z) :
  wf q h -> stored q <= n -> index q n h = AssertFail.
Proof.
  intros [Hs (b & Hb & Ha & Hu)] Hn. unfold index.
  rewrite (bind_done _ _ _ _ _ (get_buffer_run q h b Hb)).
  unfold assert at 1. fold (stored q).
  destruct (Z.ltb_spec n (stored q)); [lia|]. done.
Qed.
Lemma front_is_index q h :
  wf q h -> m_isEmpty q = false -> front q h = index q 0 h.
Proof.
  intros [Hs (b & Hb & Ha & Hu)] He. unfold front, index.
  rewrite !(bind_done _ _ _ _ _ (get_buffer_run q h b Hb)).
  pose proof (stored_nonempty q Hs He). fold (stored q).
  rewrite He. simpl. destruct (Z.ltb_spec 0 (stored q)); [|lia].
  destruct Hs as [Hc Hh Ht _].
  rewrite index_add_spec by lia. replace (m_head q + 0) with (m_head q) by lia.
  by destruct (Z.ltb_spec (m_head q) (m_capacity q)); [|lia].
Qed.

Lemma back_is_index q h :
  wf q h -> m_isEmpty q = false -> back q h = index q (stored q - 1) h.
Proof.
  intros [Hs (b & Hb & Ha & Hu)] He. unfold back, index.
  rewrite !(bind_done _ _ _ _ _ (get_buffer_run q h b Hb)).
  pose proof (stored_nonempty q Hs He). fold (stored q).
  rewrite He. simpl. destruct (Z.ltb_spec (stored q - 1) (stored q)); [|lia].
  by rewrite <- tail_spec.
Qed.

Lemma front_empty q h : wf q h -> m_isEmpty q = true -> front q h = AssertFail.
Proof.
  intros [Hs (b & Hb & Ha & Hu)] He. unfold front.
  rewrite !(bind_done _ _ _ _ _ (get_buffer_run q h b Hb)). by rewrite He.
Qed.

Lemma back_empty q h : wf q h -> m_isEmpty q = true -> back q h = AssertFail.
Proof.
  intros [Hs (b & Hb & Ha & Hu)] He. unfold back.
  rewrite !(bind_done _ _ _ _ _ (get_buffer_run q h b Hb)). by rewrite He.
Qed.

(** Copy on write: afterwards the object is the only owner of a buffer
    with the same array, and no other buffer has changed. *)
Lemma detach_run q h b :
  h !! m_buffer q = Some b -> (0 < use_count b)%nat ->
  exists l h1,
    detach q h = Done (l, h1) /\
    h1 !! l = Some (Block (elems b) 1) /\
    forall l', l' <> m_buffer q -> is_Some (h !! l') ->
               l' <> l /\ h1 !! l' = h !! l'.
Proof.
  intros Hb Hu. unfold detach, bind, sp_unique. rewrite Hb.
  destruct (Nat.eqb_spec (use_count b) 1) as [Hone | Hmany].
  - exists (m_buffer q), h. repeat split; try done.
    rewrite Hb. destruct b; simpl in *. by subst.
  - unfold sp_deref. rewrite Hb. unfold sp_new, sp_release. simpl.
    assert (Hfresh : h !! fresh (dom h) = None).
    { apply not_elem_of_dom. apply is_fresh. }
    assert (Hne : fresh (dom h) <> m_buffer q) by congruence.
    rewrite lookup_insert_ne by done. rewrite Hb.
    destruct (Nat.leb_spec (use_count b) 1); [lia|].
    eexists _, _. split; [done|]. split.
    + rewrite lookup_insert_ne by done. apply lookup_insert_eq.
    + intros l' Hl' [b' Hb']. split; [congruence|].
      rewrite lookup_insert_ne by done. rewrite lookup_insert_ne; [done|congruence].
Qed.

Lemma store_run l (n : Z) v h b :
  h !! l = Some b -> 0 <= n < Z.of_nat (length (elems b)) ->
  sp_store l n v h =
    Done (tt, <[l := Block (<[Z.to_nat n := v]> (elems b)) (use_count b)]> h).
Proof.
  intros Hb Hn. unfold sp_store. rewrite Hb.
  destruct (Z.leb_spec 0 n); [|lia].
  by destruct (Z.ltb_spec n (Z.of_nat (length (elems b)))); [|lia].
Qed.

(** [push_back] never fails. The new value becomes the newest element;
    a full queue loses its oldest one. *)
Lemma push_back_run v q h b :
  wf q h -> h !! m_buffer q = Some b ->
  exists q' h' b',
    push_back v q h = Done (q', h') /\
    wf q' h' /\ h' !! m_buffer q' = Some b' /\
    m_capacity q' = m_capacity q /\
    stored q' = Z.min (stored q + 1) (m_capacity q) /\
    m_head q' = _index_add q (m_head q) (stored q + 1 - stored q') /\
    contents q' (elems b') =
      drop (Z.to_nat (stored q + 1 - m_capacity q)) (contents q (elems b) ++ [v]) /\
    spares q q' h h'.
Proof.
  intros [Hs (b0 & Hb0 & Ha & Hu)] Hb. assert (b0 = b) as -> by congruence.
  destruct (detach_run q h b Hb Hu) as (l & h1 & Hd & Hl & Hframe).
  unfold push_back. rewrite (bind_done _ _ _ _ _ Hd).
  match goal with |- context [ret ?x] => remember x as q' eqn:Eq' end.
  destruct (push_back_indices l q q' Hs Eq') as (Hs' & Hst & Hhd & Htl).
  assert (Hcap : m_capacity q' = m_capacity q) by (subst q'; done).
  assert (Hbuf : m_buffer q' = l) by (subst q'; done).
  assert (Htl' : (if negb (m_isEmpty q) then _index_add q (m_tail q) 1 else m_tail q)
                 = m_tail q') by (subst q'; done).
  rewrite Htl'.
  erewrite bind_done; [| apply store_run with (b := Block (elems b) 1); [done|]].
  2: { simpl. destruct Hs' as [_ _ Ht' _]. lia. }
  simpl. eexists q', _, _. split; [done|].
  rewrite Hbuf, lookup_insert_eq. split_and!; try done.
  - split; [done|]. eexists. rewrite Hbuf, lookup_insert_eq. split; [done|]. simpl.
    rewrite length_insert. split; lia.
  - simpl. by apply push_back_contents.
  - intros l' Hl' Hsome. rewrite Hbuf. destruct (Hframe l' Hl' Hsome) as [Hne Heq].
    split; [done|]. by rewrite lookup_insert_ne.
Qed.

Lemma pop_empty q h : wf q h -> m_isEmpty q = true -> pop q h = AssertFail.
Proof.
  intros [Hs (b & Hb & Ha & Hu)] He.
  destruct (detach_run q h b Hb Hu) as (l & h1 & Hd & _).
  unfold pop. rewrite (bind_done _ _ _ _ _ Hd). by rewrite He.
Qed.

(** [pop] on a queue that is not empty returns the oldest element and
    leaves the others; after the last one the queue is empty again. *)
Lemma pop_run q h b :
  wf q h -> h !! m_buffer q = Some b -> m_isEmpty q = false ->
  exists v q' h' b',
    pop q h = Done ((v, q'), h') /\
    wf q' h' /\ h' !! m_buffer q' = Some b' /\
    m_capacity q' = m_capacity q /\
    stored q' = stored q - 1 /\
    contents q (elems b) = v :: contents q' (elems b') /\
    (stored q = 1 -> m_isEmpty q' = true /\ m_head q' = m_tail q') /\
    spares q q' h h'.
Proof.
  intros [Hs (b0 & Hb0 & Ha & Hu)] Hb He. assert (b0 = b) as -> by congruence.
  destruct (detach_run q h b Hb Hu) as (l & h1 & Hd & Hl & Hframe).
  unfold pop. rewrite (bind_done _ _ _ _ _ Hd). rewrite He. simpl.
  unfold bind at 1. simpl.
  match goal with |- context [ret (_, ?x)] => remember x as q' eqn:Eq' end.
  destruct (pop_indices l q q' Hs He Eq') as (Hs' & Hcap & Hbuf & Hst & Hhd & Hlast).
  destruct (pop_contents q q' (elems b) Hs Hs' Ha Hcap
              (stored_nonempty q Hs He) Hst Hhd) as (v & Hv & Hc).
  erewrite bind_done; [| eapply at_run; [exact Hl | destruct Hs; lia | exact Hv]].
  exists v, q', h1, (Block (elems b) 1). unfold ret.
  rewrite Hbuf. split_and!; try done.
  - split; [done|]. exists (Block (elems b) 1). rewrite Hbuf. simpl.
    split_and!; try done; lia.
  - intros l' Hl' Hsome. rewrite Hbuf. by apply Hframe.
Qed.

Lemma spares_refl q h : spares q q h h.
Proof. by intros l Hl Hsome. Qed.

Lemma spares_trans q q' q'' h h' h'' :
  spares q q' h h' -> spares q' q'' h' h'' -> spares q q'' h h''.
Proof.
  intros H1 H2 l Hl Hsome. destruct (H1 l Hl Hsome) as [Hl' Heq].
  destruct (H2 l Hl') as [Hl'' Heq']; [by rewrite Heq|].
  split; [done|]. by rewrite Heq', Heq.
Qed.

Lemma keep_last_short (C : Z) (c : list T) :
  Z.of_nat (length c) <= C -> keep_last C c = c.
Proof. intros Hc. unfold keep_last. by replace (_ - _)%nat with 0%nat by lia. Qed.

Lemma keep_last_length (C : Z) (c : list T) :
  0 <= C -> Z.of_nat (length (keep_last C c)) = Z.min (Z.of_nat (length c)) C.
Proof. intros HC. unfold keep_last. rewrite length_drop. lia. Qed.

Lemma keep_last_app (C : Z) (c vs : list T) :
  keep_last C (keep_last C c ++ vs) = keep_last C (c ++ vs).
Proof.
  unfold keep_last. rewrite length_app, length_drop.
  destruct (Nat.le_gt_cases (length c) (Z.to_nat C)) as [Hle | Hgt].
  - replace (length c - Z.to_nat C)%nat with 0%nat by lia. simpl.
    by rewrite length_app, Nat.sub_0_r.
  - rewrite <- (drop_app_le c vs (length c - Z.to_nat C)) by lia.
    rewrite drop_drop, length_app. f_equal. lia.
Qed.

(** The constructor: an empty queue over a buffer of its own. *)
Lemma construct_run (d : T) (BufSize : Z) h :
  0 < BufSize < 2 ^ 63 ->
  exists q h',
    construct d BufSize h = Done (q, h') /\
    wf q h' /\ m_isEmpty q = true /\ m_capacity q = BufSize /\
    forall l, is_Some (h !! l) -> l <> m_buffer q /\ h' !! l = h !! l.
Proof.
  intros HB. unfold construct, bind, sp_new, ret. eexists _, _. split; [done|].
  assert (Hfresh : h !! fresh (dom h) = None).
  { apply not_elem_of_dom. apply is_fresh. }
  split_and!; try done.
  - split.
    + split; simpl; lia || done.
    + eexists. simpl. rewrite lookup_insert_eq. split; [done|]. simpl.
      rewrite length_replicate. lia.
  - intros l [b Hb]. simpl.
    assert (l <> fresh (dom h)) by congruence.
    split; [done|]. by rewrite lookup_insert_ne.
Qed.

(** The contents after [push_back], as what is kept of the values. *)
Lemma push_back_keeps v q h b :
  wf q h -> h !! m_buffer q = Some b ->
  exists q' h' b',
    push_back v q h = Done (q', h') /\
    wf q' h' /\ h' !! m_buffer q' = Some b' /\
    m_capacity q' = m_capacity q /\
    contents q' (elems b') = keep_last (m_capacity q) (contents q (elems b) ++ [v]) /\
    spares q q' h h'.
Proof.
  intros Hwf Hb.
  destruct (push_back_run v q h b Hwf Hb)
    as (q' & h' & b' & Hrun & Hwf' & Hb' & Hcap & _ & _ & Hc & Hsp).
  exists q', h', b'. split_and!; try done.
  rewrite Hc. unfold keep_last. f_equal.
  destruct Hwf as [Hs (b0 & Hb0 & Ha & _)]. assert (b0 = b) as -> by congruence.
  pose proof (contents_length q (elems b) Hs Ha).
  rewrite length_app. simpl. lia.
Qed.

Lemma push_all_run vs q h b :
  wf q h -> h !! m_buffer q = Some b ->
  exists q' h' b',
    push_all vs q h = Done (q', h') /\
    wf q' h' /\ h' !! m_buffer q' = Some b' /\
    m_capacity q' = m_capacity q /\
    contents q' (elems b') = keep_last (m_capacity q) (contents q (elems b) ++ vs) /\
    spares q q' h h'.
Proof.
  revert q h b. induction vs as [|v vs IH]; intros q h b Hwf Hb.
  - exists q, h, b. simpl. split_and!; try done.
    rewrite app_nil_r. symmetry. apply keep_last_short.
    destruct Hwf as [Hs (b0 & Hb0 & Ha & _)]. assert (b0 = b) as -> by congruence.
    rewrite (contents_length q (elems b) Hs Ha). by apply stored_range.
  - destruct (push_back_keeps v q h b Hwf Hb)
      as (q1 & h1 & b1 & Hrun & Hwf1 & Hb1 & Hcap1 & Hc1 & Hsp1).
    destruct (IH q1 h1 b1 Hwf1 Hb1)
      as (q2 & h2 & b2 & Hrun2 & Hwf2 & Hb2 & Hcap2 & Hc2 & Hsp2).
    exists q2, h2, b2. simpl. rewrite (bind_done _ _ _ _ _ Hrun).
    split_and!; try done.
    + congruence.
    + rewrite Hc2, Hc1, Hcap1, keep_last_app. by rewrite <- app_assoc.
    + by eapply spares_trans.
Qed.

Lemma pop_n_run (n : nat) q h b :
  wf q h -> h !! m_buffer q = Some b -> Z.of_nat n <= stored q ->
  exists q' h' b',
    pop_n n q h = Done ((take n (contents q (elems b)), q'), h') /\
    wf q' h' /\ h' !! m_buffer q' = Some b' /\
    m_capacity q' = m_capacity q /\
    contents q' (elems b') = drop n (contents q (elems b)) /\
    spares q q' h h'.
Proof.
  revert q h b. induction n as [|n IH]; intros q h b Hwf Hb Hn.
  - exists q, h, b. simpl. by split_and!.
  - assert (He : m_isEmpty q = false).
    { destruct (m_isEmpty q) eqn:He; [|done].
      rewrite (stored_empty q He) in Hn. lia. }
    destruct (pop_run q h b Hwf Hb He)
      as (v & q1 & h1 & b1 & Hrun & Hwf1 & Hb1 & Hcap1 & Hst1 & Hc1 & _ & Hsp1).
    destruct (IH q1 h1 b1 Hwf1 Hb1 ltac:(lia))
      as (q2 & h2 & b2 & Hrun2 & Hwf2 & Hb2 & Hcap2 & Hc2 & Hsp2).
    exists q2, h2, b2. simpl. rewrite (bind_done _ _ _ _ _ Hrun).
    rewrite (bind_done _ _ _ _ _ Hrun2). rewrite Hc1. simpl.
    split_and!; try done.
    + congruence.
    + by eapply spares_trans.
Qed.

(** A queue whose indices describe no element is in the empty state. *)
Lemma stored_zero_empty q :
  shape q -> stored q = 0 -> m_isEmpty q = true /\ m_head q = m_tail q.
Proof.
  intros Hs Hz. destruct (m_isEmpty q) eqn:He.
  - split; [done|]. by apply Hs.
  - pose proof (stored_nonempty q Hs He). lia.
Qed.

Lemma observe_lookup q h b :
  h !! m_buffer q = Some b -> observe q h = Some (m_capacity q, contents q (elems b)).
Proof. intros Hb. unfold observe. by rewrite Hb. Qed.

(** ** The claims about the queue *)

(** C1. Filling an empty queue of capacity [C] with [C] values gives
    size [C]. One more [push_back] keeps the size at [C], moves the head
    one slot forward and makes [front] the second value pushed: the
    oldest value is dropped, no error is raised. *)
Theorem push_back_at_capacity_drops_oldest q h (vs : list T) v :
  wf q h -> m_isEmpty q = true ->
  Z.of_nat (length vs) = m_capacity q ->
  exists q1 h1 q2 h2 second,
    push_all vs q h = Done (q1, h1) /\
    size q1 h1 = Done (m_capacity q, h1) /\
    push_back v q1 h1 = Done (q2, h2) /\
    size q2 h2 = Done (m_capacity q, h2) /\
    (vs ++ [v]) !! 1%nat = Some second /\
    front q2 h2 = Done (second, h2) /\
    m_head q2 = _index_add q1 (m_head q1) 1 /\
    observe q1 h1 = Some (m_capacity q, vs) /\
    observe q2 h2 = Some (m_capacity q, drop 1 (vs ++ [v])).
Proof.
  intros Hwf He Hlen.
  pose proof Hwf as [Hs (b & Hb & Ha & Hu)].
  pose proof (shape_capacity q Hs) as Hcap.
  destruct (push_all_run vs q h b Hwf Hb)
    as (q1 & h1 & b1 & Hrun1 & Hwf1 & Hb1 & Hcap1 & Hc1 & _).
  assert (Hempty : contents q (elems b) = []).
  { apply nil_length_inv.
    pose proof (contents_length q (elems b) Hs Ha) as Hl.
    rewrite (stored_empty q He) in Hl. lia. }
  rewrite Hempty in Hc1. simpl in Hc1.
  rewrite keep_last_short in Hc1 by lia.
  pose proof Hwf1 as [Hs1 (b1' & Hb1' & Ha1 & _)].
  assert (b1' = b1) as -> by congruence.
  assert (Hst1 : stored q1 = m_capacity q).
  { rewrite <- (contents_length q1 (elems b1) Hs1 Ha1), Hc1. done. }
  destruct (push_back_run v q1 h1 b1 Hwf1 Hb1)
    as (q2 & h2 & b2 & Hrun2 & Hwf2 & Hb2 & Hcap2 & Hst2 & Hhd2 & Hc2 & _).
  rewrite Hst1, Hcap1 in Hst2. rewrite Z.min_r in Hst2 by lia.
  rewrite Hst1, Hst2 in Hhd2. replace (_ + 1 - _) with 1 in Hhd2 by lia.
  rewrite Hst1, Hcap1, Hc1 in Hc2.
  replace (Z.to_nat (_ + 1 - _)) with 1%nat in Hc2 by lia.
  assert (Hne2 : m_isEmpty q2 = false).
  { destruct (m_isEmpty q2) eqn:E; [|done].
    rewrite (stored_empty q2 E) in Hst2. lia. }
  destruct (index_run q2 h2 b2 0 Hwf2 Hb2 ltac:(lia)) as (w & Hidx & _ & Hw).
  exists q1, h1, q2, h2, w. split_and!; try done.
  - rewrite (size_run q1 h1 Hwf1). by rewrite Hst1.
  - rewrite (size_run q2 h2 Hwf2). by rewrite Hst2.
  - rewrite Hc2 in Hw. simpl in Hw. by rewrite lookup_drop in Hw.
  - by rewrite (front_is_index q2 h2 Hwf2 Hne2).
  - rewrite (observe_lookup _ _ _ Hb1). by rewrite Hcap1, Hc1.
  - rewrite (observe_lookup _ _ _ Hb2). by rewrite Hcap2, Hcap1, Hc2.
Qed.

(** C3. As many calls of [pop] as the queue has elements return them
    oldest first: what the queue kept of its contents and of the values
    pushed since, in the order of insertion (with no value pushed since,
    its contents). The queue is then empty with [m_head = m_tail], one
    more [pop] aborts, and a [push_back] gives a queue holding that one
    value. *)
Theorem pop_returns_in_insertion_order q h b (vs : list T) :
  wf q h -> h !! m_buffer q = Some b ->
  keep_last (m_capacity q) (contents q (elems b)) = contents q (elems b) /\
  exists q1 h1 n q2 h2,
    push_all vs q h = Done (q1, h1) /\
    size q1 h1 = Done (n, h1) /\
    pop_n (Z.to_nat n) q1 h1 =
      Done ((keep_last (m_capacity q) (contents q (elems b) ++ vs), q2), h2) /\
    m_isEmpty q2 = true /\ m_head q2 = m_tail q2 /\
    size q2 h2 = Done (0, h2) /\
    pop q2 h2 = AssertFail /\
    forall v, exists q3 h3,
      push_back v q2 h2 = Done (q3, h3) /\
      size q3 h3 = Done (1, h3) /\
      front q3 h3 = Done (v, h3) /\
      observe q3 h3 = Some (m_capacity q, [v]).
Proof.
  intros Hwf Hb. split.
  { apply keep_last_short.
    destruct Hwf as [Hs (b0 & Hb0 & Ha & _)]. assert (b0 = b) as -> by congruence.
    rewrite (contents_length q (elems b) Hs Ha). by apply stored_range. }
  destruct (push_all_run vs q h b Hwf Hb)
    as (q1 & h1 & b1 & Hrun1 & Hwf1 & Hb1 & Hcap1 & Hc1 & _).
  pose proof Hwf1 as [Hs1 (b1' & Hb1' & Ha1 & _)].
  assert (b1' = b1) as -> by congruence.
  pose proof (contents_length q1 (elems b1) Hs1 Ha1) as Hlen1.
  pose proof (stored_range q1 Hs1) as Hr1.
  destruct (pop_n_run (Z.to_nat (stored q1)) q1 h1 b1 Hwf1 Hb1 ltac:(lia))
    as (q2 & h2 & b2 & Hrun2 & Hwf2 & Hb2 & Hcap2 & Hc2 & _).
  rewrite take_ge in Hrun2 by lia. rewrite drop_ge in Hc2 by lia.
  pose proof Hwf2 as [Hs2 (b2' & Hb2' & Ha2 & _)].
  assert (b2' = b2) as -> by congruence.
  assert (Hst2 : stored q2 = 0).
  { rewrite <- (contents_length q2 (elems b2) Hs2 Ha2), Hc2. done. }
  destruct (stored_zero_empty q2 Hs2 Hst2) as [He2 Hht2].
  exists q1, h1, (stored q1), q2, h2. split_and!; try done.
  - by apply size_run.
  - by rewrite <- Hc1.
  - rewrite (size_run q2 h2 Hwf2). by rewrite Hst2.
  - by apply pop_empty.
  - intros v.
    destruct (push_back_keeps v q2 h2 b2 Hwf2 Hb2)
      as (q3 & h3 & b3 & Hrun3 & Hwf3 & Hb3 & Hcap3 & Hc3 & _).
    rewrite Hc2 in Hc3. simpl in Hc3.
    rewrite keep_last_short in Hc3 by (simpl; destruct Hs2; lia).
    pose proof Hwf3 as [Hs3 (b3' & Hb3' & Ha3 & _)].
    assert (b3' = b3) as -> by congruence.
    assert (Hst3 : stored q3 = 1).
    { rewrite <- (contents_length q3 (elems b3) Hs3 Ha3), Hc3. done. }
    assert (He3 : m_isEmpty q3 = false).
    { destruct (m_isEmpty q3) eqn:E; [|done].
      rewrite (stored_empty q3 E) in Hst3. lia. }
    destruct (index_run q3 h3 b3 0 Hwf3 Hb3 ltac:(lia)) as (w & Hidx & _ & Hw).
    rewrite Hc3 in Hw. simpl in Hw. injection Hw as <-.
    exists q3, h3. split_and!; try done.
    + rewrite (size_run q3 h3 Hwf3). by rewrite Hst3.
    + by rewrite (front_is_index q3 h3 Hwf3 He3).
    + unfold observe. rewrite Hb3, Hc3. do 2 f_equal. congruence.
Qed.

(** C4. For [n] below the size, [operator[]] returns the element in slot
    [(m_head + n) mod m_capacity] of the array, which is the [n]-th
    oldest of the elements the queue holds; [n = 0] is [front] and
    [n = size - 1] is [back]. *)
Theorem index_returns_nth_oldest q h b (n : Z) :
  wf q h -> h !! m_buffer q = Some b -> 0 <= n < stored q ->
  exists v,
    size q h = Done (stored q, h) /\
    index q n h = Done (v, h) /\
    elems b !! Z.to_nat ((m_head q + n) mod m_capacity q) = Some v /\
    contents q (elems b) !! Z.to_nat n = Some v /\
    (n = 0 -> front q h = Done (v, h)) /\
    (n = stored q - 1 -> back q h = Done (v, h)).
Proof.
  intros Hwf Hb Hn.
  destruct (index_run q h b n Hwf Hb Hn) as (v & Hidx & Hslot & Hc).
  assert (He : m_isEmpty q = false).
  { destruct (m_isEmpty q) eqn:E; [|done].
    rewrite (stored_empty q E) in Hn. lia. }
  exists v. split_and!; try done.
  - by apply size_run.
  - intros ->. by rewrite (front_is_index q h Hwf He).
  - intros ->. by rewrite (back_is_index q h Hwf He).
Qed.

(** C7. On an empty queue [front], [back] and [pop] fail their assert,
    and so does [operator[]] at an index that is not below the size. When
    the queue is not empty, and when the index is below the size, the
    calls return a value: no assert fails and no array access is out of
    range. *)
Theorem violated_preconditions_abort q h :
  wf q h ->
  size q h = Done (stored q, h) /\
  (m_isEmpty q = true ->
     front q h = AssertFail /\ back q h = AssertFail /\ pop q h = AssertFail) /\
  (forall n, stored q <= n -> index q n h = AssertFail) /\
  (m_isEmpty q = false ->
     exists v1 v2 v3 q' h',
       front q h = Done (v1, h) /\ back q h = Done (v2, h) /\
       pop q h = Done ((v3, q'), h')) /\
  (forall n, 0 <= n < stored q -> exists v, index q n h = Done (v, h)).
Proof.
  intros Hwf. pose proof Hwf as [Hs (b & Hb & Ha & Hu)].
  split_and!.
  - by apply size_run.
  - intros He. split_and!; [by apply front_empty | by apply back_empty | by apply pop_empty].
  - intros n Hn. by apply index_beyond.
  - intros He. pose proof (stored_nonempty q Hs He) as Hne.
    destruct (index_run q h b 0 Hwf Hb ltac:(lia)) as (v1 & H1 & _).
    destruct (index_run q h b (stored q - 1) Hwf Hb ltac:(lia)) as (v2 & H2 & _).
    destruct (pop_run q h b Hwf Hb He) as (v3 & q' & h' & _ & H3 & _).
    exists v1, v2, v3, q', h'.
    rewrite (front_is_index q h Hwf He), (back_is_index q h Hwf He). done.
  - intros n Hn. destruct (index_run q h b n Hwf Hb Hn) as (v & Hv & _). by exists v.
Qed.

(** ** Copies *)

(** One mutation, against its model. *)
Lemma mutate_run m q h b :
  wf q h -> h !! m_buffer q = Some b ->
  match model_step (m_capacity q) m (contents q (elems b)) with
  | Some c' =>
      exists q' h' b',
        mutate m q h = Done (q', h') /\
        wf q' h' /\ h' !! m_buffer q' = Some b' /\
        m_capacity q' = m_capacity q /\
        contents q' (elems b') = c' /\
        spares q q' h h'
  | None => mutate m q h = AssertFail
  end.
Proof.
  intros Hwf Hb. destruct m as [v|]; simpl.
  - destruct (push_back_keeps v q h b Hwf Hb)
      as (q' & h' & b' & Hrun & Hwf' & Hb' & Hcap & Hc & Hsp).
    by exists q', h', b'.
  - pose proof Hwf as [Hs (b0 & Hb0 & Ha & _)]. assert (b0 = b) as -> by congruence.
    pose proof (contents_length q (elems b) Hs Ha) as Hlen.
    destruct (m_isEmpty q) eqn:He.
    + rewrite (stored_empty q He) in Hlen.
      destruct (contents q (elems b)); [|simpl in Hlen; lia].
      unfold bind. by rewrite (pop_empty q h Hwf He).
    + destruct (pop_run q h b Hwf Hb He)
        as (v & q' & h' & b' & Hrun & Hwf' & Hb' & Hcap & Hst & Hc & _ & Hsp).
      rewrite Hc. exists q', h', b'. rewrite (bind_done _ _ _ _ _ Hrun).
      by split_and!.
Qed.

(** An object with a buffer of its own is not affected by a call that
    spares the other buffers. *)
Lemma spared_object q q' h h' o :
  spares q q' h h' -> wf o h -> m_buffer o <> m_buffer q ->
  wf o h' /\ m_buffer o <> m_buffer q' /\ h' !! m_buffer o = h !! m_buffer o.
Proof.
  intros Hsp [Hs (b & Hb & Ha & Hu)] Hne.
  destruct (Hsp (m_buffer o) Hne) as [Hne' Heq]; [by rewrite Hb|].
  split_and!; try done. split; [done|]. exists b. by rewrite Heq.
Qed.

(** Two objects with a buffer each: the outcome for each is the one of
    its own mutations. *)
Lemma mutate_both_sound ms :
  forall s c h bs bc s' c' h',
    wf s h -> wf c h -> m_buffer s <> m_buffer c ->
    h !! m_buffer s = Some bs -> h !! m_buffer c = Some bc ->
    mutate_both ms (s, c) h = Done ((s', c'), h') ->
    observe s' h' =
      pair (m_capacity s) <$> model_run (m_capacity s) (for_side true ms) (contents s (elems bs)) /\
    observe c' h' =
      pair (m_capacity c) <$> model_run (m_capacity c) (for_side false ms) (contents c (elems bc)).
Proof.
  induction ms as [|[[|] m] ms IH]; intros s c h bs bc s' c' h' Hs Hc Hne Hbs Hbc Hrun.
  - simpl in Hrun. injection Hrun as <- <- <-. simpl.
    by rewrite (observe_lookup _ _ _ Hbs), (observe_lookup _ _ _ Hbc).
  - simpl in *. pose proof (mutate_run m s h bs Hs Hbs) as Hm.
    destruct (model_step _ m _) as [cs1|].
    + destruct Hm as (s1 & h1 & bs1 & Hrun1 & Hs1 & Hbs1 & Hcap1 & Hc1 & Hsp).
      rewrite (bind_done _ _ _ _ _ Hrun1) in Hrun.
      destruct (spared_object s s1 h h1 c Hsp Hc) as (Hc' & Hne' & Heq); [done|].
      rewrite Hbc in Heq.
      destruct (IH s1 c h1 bs1 bc s' c' h' Hs1 Hc' ltac:(done) Hbs1 Heq Hrun) as [H1 H2].
      rewrite Hcap1, Hc1 in H1. done.
    + unfold bind in Hrun. by rewrite Hm in Hrun.
  - simpl in *. pose proof (mutate_run m c h bc Hc Hbc) as Hm.
    destruct (model_step _ m _) as [cc1|].
    + destruct Hm as (c1 & h1 & bc1 & Hrun1 & Hc1 & Hbc1 & Hcap1 & Hcc1 & Hsp).
      rewrite (bind_done _ _ _ _ _ Hrun1) in Hrun.
      destruct (spared_object c c1 h h1 s Hsp Hs) as (Hs' & Hne' & Heq); [done|].
      rewrite Hbs in Heq.
      destruct (IH s c1 h1 bs bc1 s' c' h' Hs' Hc1 ltac:(done) Heq Hbc1 Hrun) as [H1 H2].
      rewrite Hcap1, Hcc1 in H2. done.
    + unfold bind in Hrun. by rewrite Hm in Hrun.
Qed.

Lemma mutate_both_total ms :
  forall s c h bs bc,
    wf s h -> wf c h -> m_buffer s <> m_buffer c ->
    h !! m_buffer s = Some bs -> h !! m_buffer c = Some bc ->
    is_Some (model_run (m_capacity s) (for_side true ms) (contents s (elems bs))) ->
    is_Some (model_run (m_capacity c) (for_side false ms) (contents c (elems bc))) ->
    exists p' h', mutate_both ms (s, c) h = Done (p', h').
Proof.
  induction ms as [|[[|] m] ms IH]; intros s c h bs bc Hs Hc Hne Hbs Hbc Hms Hmc.
  - by eexists _, _.
  - simpl in *. pose proof (mutate_run m s h bs Hs Hbs) as Hm.
    destruct (model_step _ m _) as [cs1|]; [|by destruct Hms].
    destruct Hm as (s1 & h1 & bs1 & Hrun1 & Hs1 & Hbs1 & Hcap1 & Hc1 & Hsp).
    rewrite (bind_done _ _ _ _ _ Hrun1).
    destruct (spared_object s s1 h h1 c Hsp Hc) as (Hc' & Hne' & Heq); [done|].
    rewrite Hbc in Heq.
    apply (IH s1 c h1 bs1 bc); try done. by rewrite Hcap1, Hc1.
  - simpl in *. pose proof (mutate_run m c h bc Hc Hbc) as Hm.
    destruct (model_step _ m _) as [cc1|]; [|by destruct Hmc].
    destruct Hm as (c1 & h1 & bc1 & Hrun1 & Hc1 & Hbc1 & Hcap1 & Hcc1 & Hsp).
    rewrite (bind_done _ _ _ _ _ Hrun1).
    destruct (spared_object c c1 h h1 s Hsp Hs) as (Hs' & Hne' & Heq); [done|].
    rewrite Hbs in Heq.
    apply (IH s c1 h1 bs bc1); try done. by rewrite Hcap1, Hcc1.
Qed.

(** Two objects with a buffer each and the same contents are snapshots
    of one another. *)
Lemma separate_snapshot src cpy h0 bs bc :
  wf src h0 -> wf cpy h0 -> m_buffer src <> m_buffer cpy ->
  h0 !! m_buffer src = Some bs -> h0 !! m_buffer cpy = Some bc ->
  m_capacity cpy = m_capacity src ->
  contents cpy (elems bc) = contents src (elems bs) ->
  snapshot (m_capacity src) (contents src (elems bs)) src cpy h0.
Proof.
  intros Hs Hc Hne Hbs Hbc Hcap Hcont. split_and!.
  - by apply observe_lookup.
  - rewrite (observe_lookup _ _ _ Hbc). by rewrite Hcap, Hcont.
  - intros ms s' c' h' Hrun.
    destruct (mutate_both_sound ms src cpy h0 bs bc s' c' h' Hs Hc Hne Hbs Hbc Hrun)
      as [H1 H2].
    by rewrite Hcap, Hcont in H2.
  - intros ms H1 H2.
    apply (mutate_both_total ms src cpy h0 bs bc); try done.
    by rewrite Hcap, Hcont.
Qed.

(** An object is well formed by its indices and its own buffer. *)
Lemma wf_same_indices q q' h h' b :
  wf q h -> h !! m_buffer q = Some b ->
  m_capacity q' = m_capacity q -> m_head q' = m_head q ->
  m_tail q' = m_tail q -> m_isEmpty q' = m_isEmpty q ->
  h' !! m_buffer q' = Some (Block (elems b) 1) ->
  wf q' h' /\ contents q' (elems b) = contents q (elems b).
Proof.
  intros [[Hc Hh Ht He] (b0 & Hb0 & Ha & _)] Hb Ec Eh Et Ee Hb'.
  assert (b0 = b) as -> by congruence. split.
  - split.
    + split; rewrite ?Ec, ?Eh, ?Et, ?Ee; done.
    + eexists. split; [done|]. simpl. split; lia.
  - unfold contents, stored, _get_size. by rewrite Ec, Eh, Et, Ee.
Qed.

(** The copy constructor gives the new object a buffer of its own with
    a copy of the array, and leaves the store as it was otherwise. *)
Lemma copy_construct_run from h b :
  wf from h -> h !! m_buffer from = Some b ->
  exists cpy h0,
    copy_construct from h = Done (cpy, h0) /\
    wf cpy h0 /\ wf from h0 /\ m_buffer from <> m_buffer cpy /\
    h0 !! m_buffer from = Some b /\
    h0 !! m_buffer cpy = Some (Block (elems b) 1) /\
    m_capacity cpy = m_capacity from /\
    contents cpy (elems b) = contents from (elems b).
Proof.
  intros Hwf Hb. pose proof Hwf as [Hs (b0 & Hb0 & Ha & Hu)].
  assert (b0 = b) as -> by congruence.
  unfold copy_construct.
  rewrite (bind_done _ _ _ _ _ (get_buffer_run from h b Hb)).
  unfold bind at 1, sp_deref. rewrite lookup_insert_eq. simpl.
  unfold bind at 1, sp_new. simpl.
  set (h1 := <[m_buffer from := Block (elems b) (S (use_count b))]> h).
  set (l := fresh (dom h1)).
  assert (Hl : h1 !! l = None) by (apply not_elem_of_dom, is_fresh).
  assert (Hne : m_buffer from <> l).
  { intros E. rewrite <- E in Hl. unfold h1 in Hl. by rewrite lookup_insert_eq in Hl. }
  assert (Hrel : sp_release (m_buffer from) (<[l := Block (elems b) 1]> h1)
                 = Done (tt, <[l := Block (elems b) 1]> h)).
  { unfold sp_release. rewrite lookup_insert_ne by done.
    unfold h1. rewrite lookup_insert_eq. simpl.
    destruct (use_count b) as [|n] eqn:En; [lia|]. simpl.
    rewrite (insert_insert_ne _ l) by done. rewrite insert_insert_eq.
    rewrite (insert_insert_ne _ (m_buffer from) l) by done.
    rewrite (insert_id h (m_buffer from)); [done|].
    rewrite Hb. destruct b; simpl in *. by subst. }
  rewrite (bind_done _ _ _ _ _ Hrel). unfold ret.
  eexists _, _. split; [done|]. simpl.
  assert (Hb' : <[l := Block (elems b) 1]> h !! l = Some (Block (elems b) 1))
    by apply lookup_insert_eq.
  assert (Hb'' : <[l := Block (elems b) 1]> h !! m_buffer from = Some b)
    by (by rewrite lookup_insert_ne).
  destruct (wf_same_indices from
              (Queue l (m_capacity from) (m_head from) (m_tail from) (m_isEmpty from))
              h (<[l := Block (elems b) 1]> h) b) as [Hwf' Hc']; try done.
  split_and!; try done.
  split; [done|]. exists b. by split_and!.
Qed.

(** [operator=] does the same for an object that exists already; the
    buffer it had loses an owner. *)
Lemma assign_run this from h b :
  wf this h -> wf from h -> m_buffer this <> m_buffer from ->
  h !! m_buffer from = Some b ->
  exists cpy h0,
    assign this from h = Done (cpy, h0) /\
    wf cpy h0 /\ wf from h0 /\ m_buffer from <> m_buffer cpy /\
    h0 !! m_buffer from = Some b /\
    h0 !! m_buffer cpy = Some (Block (elems b) 1) /\
    m_capacity cpy = m_capacity from /\
    contents cpy (elems b) = contents from (elems b).
Proof.
  intros [_ (bt & Hbt & _ & Hut)] Hwf Hdiff Hb.
  pose proof Hwf as [Hs (b0 & Hb0 & Ha & Hu)].
  assert (b0 = b) as -> by congruence.
  unfold assign.
  rewrite (bind_done _ _ _ _ _ (get_buffer_run from h b Hb)).
  unfold bind at 1, sp_deref. rewrite lookup_insert_eq. simpl.
  unfold bind at 1, sp_new. simpl.
  set (h1 := <[m_buffer from := Block (elems b) (S (use_count b))]> h).
  set (l := fresh (dom h1)).
  assert (Hl : h1 !! l = None) by (apply not_elem_of_dom, is_fresh).
  assert (Hne : m_buffer from <> l).
  { intros E. rewrite <- E in Hl. unfold h1 in Hl. by rewrite lookup_insert_eq in Hl. }
  assert (Hne' : m_buffer this <> l).
  { intros E. rewrite <- E in Hl. unfold h1 in Hl.
    rewrite lookup_insert_ne in Hl by done. congruence. }
  assert (Hrel : exists h2,
             sp_release (m_buffer this) (<[l := Block (elems b) 1]> h1) = Done (tt, h2) /\
             h2 !! l = Some (Block (elems b) 1) /\
             h2 !! m_buffer from = Some (Block (elems b) (S (use_count b)))).
  { unfold sp_release. rewrite lookup_insert_ne by done.
    unfold h1. rewrite lookup_insert_ne by done. rewrite Hbt.
    destruct (use_count bt <=? 1)%nat; eexists; (split; [done|]).
    - rewrite !lookup_delete_ne by done. rewrite lookup_insert_eq.
      rewrite lookup_insert_ne by done. by rewrite lookup_insert_eq.
    - rewrite !(lookup_insert_ne _ (m_buffer this)) by done.
      rewrite lookup_insert_eq.
      rewrite lookup_insert_ne by done. by rewrite lookup_insert_eq. }
  destruct Hrel as (h2 & Hrel & Hl2 & Hf2).
  rewrite (bind_done _ _ _ _ _ Hrel).
  assert (Hrel' : sp_release (m_buffer from) h2 = Done (tt, <[m_buffer from := b]> h2)).
  { unfold sp_release. rewrite Hf2. simpl.
    destruct (use_count b) as [|n] eqn:En; [lia|]. simpl.
    destruct b; simpl in *. by subst. }
  rewrite (bind_done _ _ _ _ _ Hrel'). unfold ret.
  eexists _, _. split; [done|]. simpl.
  assert (Hb' : <[m_buffer from := b]> h2 !! l = Some (Block (elems b) 1))
    by (by rewrite lookup_insert_ne).
  assert (Hb'' : <[m_buffer from := b]> h2 !! m_buffer from = Some b)
    by apply lookup_insert_eq.
  destruct (wf_same_indices from
              (Queue l (m_capacity from) (m_head from) (m_tail from) (m_isEmpty from))
              h (<[m_buffer from := b]> h2) b) as [Hwf' Hc']; try done.
  split_and!; try done.
  split; [done|]. exists b. by split_and!.
Qed.

(** C8. The copy constructor and the assignment operator give an object
    with the capacity and the elements of the source, in the same order.
    From then on the two are independent: after any mutations of the two,
    in any order, each holds what its own mutations make of the contents
    at the time of the copy. *)
Theorem copies_are_snapshots from h (C : Z) (c0 : list T) :
  wf from h -> observe from h = Some (C, c0) ->
  (exists cpy h0,
      copy_construct from h = Done (cpy, h0) /\ snapshot C c0 from cpy h0) /\
  (forall this,
      wf this h -> m_buffer this <> m_buffer from ->
      exists cpy h0,
        assign this from h = Done (cpy, h0) /\ snapshot C c0 from cpy h0).
Proof.
  intros Hwf Hobs. pose proof Hwf as [Hs (b & Hb & Ha & Hu)].
  rewrite (observe_lookup _ _ _ Hb) in Hobs. injection Hobs as <- <-.
  split.
  - destruct (copy_construct_run from h b Hwf Hb)
      as (cpy & h0 & Hrun & Hwfc & Hwff & Hne & Hbf & Hbc & Hcap & Hcont).
    exists cpy, h0. split; [done|].
    by apply (separate_snapshot from cpy h0 b (Block (elems b) 1)).
  - intros this Hthis Hdiff.
    destruct (assign_run this from h b Hthis Hwf Hdiff Hb)
      as (cpy & h0 & Hrun & Hwfc & Hwff & Hne & Hbf & Hbc & Hcap & Hcont).
    exists cpy, h0. split; [done|].
    by apply (separate_snapshot from cpy h0 b (Block (elems b) 1)).
Qed.

End queue.

(** ** The claims at a queue of capacity three

    The queue of the unit test after [push_back] of 1, 2, 3 and 4: the
    array holds 4, 2, 3, the head is slot 1 and the tail slot 0. *)

(** The scenario of the unit test from the constructor on: capacity 3,
    [push_back] of 1, 2, 3, then of 4. *)
Example queue_of_three :
  (do q0 <- construct 0 3 ;;
   do q3 <- push_all [1; 2; 3] q0 ;;
   do f <- front q3 ;; do b <- back q3 ;; do n <- size q3 ;;
   do q4 <- push_back 4 q3 ;;
   do f' <- front q4 ;; do b' <- back q4 ;; do n' <- size q4 ;;
   do a0 <- index q4 0 ;; do a1 <- index q4 1 ;; do a2 <- index q4 2 ;;
   ret (f, b, n, (f', b', n'), (a0, a1, a2), q4)) ∅
  = Done ((1, 3, 3, (2, 4, 3), (2, 3, 4), Queue 0 3 1 0 false),
          {[0%nat := Block [4; 2; 3] 1]}).
Proof. vm_compute. reflexivity. Qed.

Example queue_of_three_beyond :
  index (T:=Z) (Queue 0 3 1 0 false) 3 {[0%nat := Block [4; 2; 3] 1]} = AssertFail.
Proof. vm_compute. reflexivity. Qed.

Lemma push_back_at_capacity_fills_three :
  let q := Queue 0 3 0 0 true in
  let h : gmap nat (block Z) := {[0%nat := Block [0; 0; 0] 1]} in
  wf q h /\
  exists q1 h1 q2 h2 second,
    push_all [10; 20; 30] q h = Done (q1, h1) /\
    size q1 h1 = Done (3, h1) /\
    push_back 40 q1 h1 = Done (q2, h2) /\
    size q2 h2 = Done (3, h2) /\
    ([10; 20; 30] ++ [40]) !! 1%nat = Some second /\
    front q2 h2 = Done (second, h2) /\
    m_head q2 = _index_add q1 (m_head q1) 1 /\
    observe q1 h1 = Some (m_capacity q, [10; 20; 30]) /\
    observe q2 h2 = Some (m_capacity q, drop 1 ([10; 20; 30] ++ [40])).
Proof.
  intros q h.
  assert (Hwf : wf q h).
  { split.
    - split; simpl; [lia | lia | lia | reflexivity].
    - exists (Block [0; 0; 0] 1). split; [reflexivity|]. simpl. split; lia. }
  split; [exact Hwf|].
  apply (push_back_at_capacity_drops_oldest q h [10; 20; 30] 40 Hwf); reflexivity.
Defined.

Lemma pop_returns_in_insertion_order_of_four :
  let q := Queue 0 3 0 0 true in
  let b : block Z := Block [0; 0; 0] 1 in
  let h : gmap nat (block Z) := {[0%nat := b]} in
  wf q h /\ h !! m_buffer q = Some b /\
  keep_last (m_capacity q) (contents q (elems b)) = contents q (elems b) /\
  exists q1 h1 n q2 h2,
    push_all [1; 2; 3; 4] q h = Done (q1, h1) /\
    size q1 h1 = Done (n, h1) /\
    pop_n (Z.to_nat n) q1 h1 =
      Done ((keep_last (m_capacity q) (contents q (elems b) ++ [1; 2; 3; 4]), q2), h2) /\
    m_isEmpty q2 = true /\ m_head q2 = m_tail q2 /\
    size q2 h2 = Done (0, h2) /\
    pop q2 h2 = AssertFail /\
    forall v, exists q3 h3,
      push_back v q2 h2 = Done (q3, h3) /\
      size q3 h3 = Done (1, h3) /\
      front q3 h3 = Done (v, h3) /\
      observe q3 h3 = Some (m_capacity q, [v]).
Proof.
  intros q b h.
  assert (Hwf : wf q h).
  { split.
    - split; simpl; [lia | lia | lia | reflexivity].
    - exists b. split; [reflexivity|]. simpl. split; lia. }
  split; [exact Hwf|]. split; [reflexivity|].
  apply (pop_returns_in_insertion_order q h b [1; 2; 3; 4] Hwf). reflexivity.
Defined.

Lemma index_returns_newest_of_three :
  let q := Queue 0 3 1 0 false in
  let b : block Z := Block [4; 2; 3] 1 in
  let h : gmap nat (block Z) := {[0%nat := b]} in
  wf q h /\ h !! m_buffer q = Some b /\ 0 <= 2 < stored q /\
  exists v,
    size q h = Done (stored q, h) /\
    index q 2 h = Done (v, h) /\
    elems b !! Z.to_nat ((m_head q + 2) mod m_capacity q) = Some v /\
    contents q (elems b) !! Z.to_nat 2 = Some v /\
    (2 = 0 -> front q h = Done (v, h)) /\
    (2 = stored q - 1 -> back q h = Done (v, h)).
Proof.
  intros q b h.
  assert (Hwf : wf q h).
  { split.
    - split; simpl; [lia | lia | lia | discriminate].
    - exists b. split; [reflexivity|]. simpl. split; lia. }
  assert (Hn : 0 <= 2 < stored q) by (split; [lia | reflexivity]).
  split; [exact Hwf|]. split; [reflexivity|]. split; [exact Hn|].
  apply (index_returns_nth_oldest q h b 2 Hwf); [reflexivity | exact Hn].
Defined.

Lemma violated_preconditions_abort_at_three :
  let q := Queue 0 3 1 0 false in
  let h : gmap nat (block Z) := {[0%nat := Block [4; 2; 3] 1]} in
  wf q h /\
  (size q h = Done (stored q, h) /\
   (m_isEmpty q = true ->
      front q h = AssertFail /\ back q h = AssertFail /\ pop q h = AssertFail) /\
   (forall n, stored q <= n -> index q n h = AssertFail) /\
   (m_isEmpty q = false ->
      exists v1 v2 v3 q' h',
        front q h = Done (v1, h) /\ back q h = Done (v2, h) /\
        pop q h = Done ((v3, q'), h')) /\
   (forall n, 0 <= n < stored q -> exists v, index q n h = Done (v, h))).
Proof.
  intros q h.
  assert (Hwf : wf q h).
  { split.
    - split; simpl; [lia | lia | lia | discriminate].
    - exists (Block [4; 2; 3] 1). split; [reflexivity|]. simpl. split; lia. }
  split; [exact Hwf|].
  apply (violated_preconditions_abort q h Hwf).
Defined.

Lemma copies_are_snapshots_of_three :
  let from := Queue 0 3 1 0 false in
  let h : gmap nat (block Z) := {[0%nat := Block [4; 2; 3] 1]} in
  wf from h /\ observe from h = Some (3, [2; 3; 4]) /\
  (exists cpy h0,
      copy_construct from h = Done (cpy, h0) /\ snapshot 3 [2; 3; 4] from cpy h0) /\
  (forall this,
      wf this h -> m_buffer this <> m_buffer from ->
      exists cpy h0,
        assign this from h = Done (cpy, h0) /\ snapshot 3 [2; 3; 4] from cpy h0).
Proof.
  intros from h.
  assert (Hwf : wf from h).
  { split.
    - split; simpl; [lia | lia | lia | discriminate].
    - exists (Block [4; 2; 3] 1). split; [reflexivity|]. simpl. split; lia. }
  split; [exact Hwf|]. split; [reflexivity|].
  apply (copies_are_snapshots from h 3 [2; 3; 4] Hwf). reflexivity.
Defined.


End CQ_theory.

(** * Properties of the LRU cache *)

Module LRU_theory.
Import LRU.

(** ** Binary64 conversions and quotients *)

(** [digits2_pos p] is the number of bits of [p]. *)
Lemma digits2_pos_spec (p : positive) :
  2 ^ (Z.pos (digits2_pos p) - 1) <= Z.pos p < 2 ^ Z.pos (digits2_pos p).
Proof.
  induction p as [p IH | p IH |]; simpl digits2_pos.
  - rewrite Pos2Z.inj_succ. replace (Z.succ (Z.pos (digits2_pos p)) - 1)
      with (Z.succ (Z.pos (digits2_pos p) - 1)) by lia.
    rewrite !Z.pow_succ_r by lia. lia.
  - rewrite Pos2Z.inj_succ. replace (Z.succ (Z.pos (digits2_pos p)) - 1)
      with (Z.succ (Z.pos (digits2_pos p) - 1)) by lia.
    rewrite !Z.pow_succ_r by lia. lia.
  - simpl. lia.
Qed.

(** The number of bits is determined by the two powers around [p]. *)
Lemma digits2_pos_unique (p : positive) (d : Z) :
  2 ^ (d - 1) <= Z.pos p < 2 ^ d -> Z.pos (digits2_pos p) = d.
Proof.
  intros [Hlo Hhi]. pose proof (digits2_pos_spec p) as [Hlo' Hhi'].
  assert (0 < d).
  { destruct (Z.lt_ge_cases 0 d); [done|].
    assert (2 ^ d <= 2 ^ 0) by (apply Z.pow_le_mono_r; lia). simpl in *. lia. }
  assert (d - 1 < Z.pos (digits2_pos p)).
  { apply (Z.pow_lt_mono_r_iff 2); [lia | lia | lia]. }
  assert (Z.pos (digits2_pos p) - 1 < d).
  { apply (Z.pow_lt_mono_r_iff 2); [lia | lia | lia]. }
  lia.
Qed.

Lemma iter_xO_spec (p n : positive) :
  Z.pos (Pos.iter xO p n) = Z.pos p * 2 ^ Z.pos n.
Proof.
  revert p. induction n as [| n IH] using Pos.peano_ind; intros p.
  - simpl. lia.
  - rewrite Pos.iter_succ, Pos2Z.inj_succ, Z.pow_succ_r by lia.
    rewrite Pos2Z.inj_xO, IH. lia.
Qed.

(** A mantissa of 53 bits with an exponent in range needs no rounding. *)
Lemma binary_round_aux_normal (sx : bool) (m : positive) (e : Z) :
  Z.pos (digits2_pos m) = 53 -> -1074 <= e <= 971 ->
  binary_round_aux 53 1024 sx (Z.pos m) e loc_Exact = S754_finite sx m e.
Proof.
  intros Hd He. unfold binary_round_aux, shr_fexp, fexp, emin. simpl Zdigits2.
  rewrite Hd. replace (Z.max (53 + e - 53) (3 - 1024 - 53) - e) with 0 by lia.
  simpl. rewrite Hd.
  replace (Z.max (53 + e - 53) (3 - 1024 - 53) - e) with 0 by lia. simpl.
  destruct (Z.leb_spec e (1024 - 53)); [done | lia].
Qed.

(** Twice such a mantissa is shifted back by one bit, without loss. *)
Lemma binary_round_aux_double (sx : bool) (m : positive) (e : Z) :
  Z.pos (digits2_pos m) = 53 -> -1074 <= e + 1 <= 971 ->
  binary_round_aux 53 1024 sx (Z.pos m~0) e loc_Exact = S754_finite sx m (e + 1).
Proof.
  intros Hd He. unfold binary_round_aux, shr_fexp, fexp, emin. simpl Zdigits2.
  rewrite Pos2Z.inj_succ, Hd.
  replace (Z.max (Z.succ 53 + e - 53) (3 - 1024 - 53) - e) with 1 by lia.
  simpl. rewrite Hd.
  replace (Z.max (53 + (e + 1) - 53) (3 - 1024 - 53) - (e + 1)) with 0 by lia. simpl.
  destruct (Z.leb_spec (e + 1) (1024 - 53)); [done | lia].
Qed.

(** A counter below [2^53] converts without rounding: the mantissa is
    the counter shifted to 53 bits. *)
Lemma to_double_exact (p : positive) :
  Z.pos p < 2 ^ 53 ->
  exists mz,
    to_double (Z.pos p) = S754_finite false mz (Z.pos (digits2_pos p) - 53) /\
    Z.pos mz = Z.pos p * 2 ^ (53 - Z.pos (digits2_pos p)) /\
    Z.pos (digits2_pos mz) = 53.
Proof.
  intros Hp. pose proof (digits2_pos_spec p) as [Hlo Hhi].
  set (d := Z.pos (digits2_pos p)) in *.
  assert (Hd : 0 < d <= 53).
  { split; [unfold d; lia|].
    assert (d - 1 < 53); [|lia]. apply (Z.pow_lt_mono_r_iff 2); lia. }
  unfold to_double, binary_normalize, binary_round, shl_align, fexp, emin.
  fold d. replace (Z.max (d + 0 - 53) (3 - 1024 - 53) - 0) with (d - 53) by lia.
  replace (Z.max (d + 0 - 53) (3 - 1024 - 53)) with (d - 53) by lia.
  destruct (d - 53) as [|k|k] eqn:Hk; [| lia |].
  - exists p. split_and!.
    + rewrite binary_round_aux_normal; [done | unfold d in *; lia | lia].
    + replace (53 - d) with 0 by lia. lia.
    + unfold d in *. lia.
  - assert (Hmz : Z.pos (Pos.iter xO p k) = Z.pos p * 2 ^ (53 - d)).
    { rewrite iter_xO_spec. do 2 f_equal. lia. }
    assert (Hdz : Z.pos (digits2_pos (Pos.iter xO p k)) = 53).
    { apply digits2_pos_unique. rewrite Hmz.
      replace (2 ^ (53 - 1)) with (2 ^ (d - 1) * 2 ^ (53 - d))
        by (rewrite <- Z.pow_add_r by lia; f_equal; lia).
      replace (2 ^ 53) with (2 ^ d * 2 ^ (53 - d))
        by (rewrite <- Z.pow_add_r by lia; f_equal; lia).
      assert (0 < 2 ^ (53 - d)) by (apply Z.pow_pos_nonneg; lia).
      split; [apply Z.mul_le_mono_nonneg_r | apply Z.mul_lt_mono_pos_r]; lia. }
    exists (Pos.iter xO p k). split_and!; try done.
    rewrite binary_round_aux_normal; [done | done | lia].
Qed.

(** The quotient of two doubles with normal mantissas is exact when the
    exact quotient has a normal mantissa. *)
Lemma double_div_exact (mx my m : positive) (ex ey k : Z) :
  Z.pos (digits2_pos mx) = 53 -> Z.pos (digits2_pos my) = 53 ->
  Z.pos (digits2_pos m) = 53 ->
  k = 52 \/ k = 53 ->
  Z.pos mx * 2 ^ k = Z.pos m * Z.pos my ->
  -1000 <= ex - ey <= 1000 ->
  double_div (S754_finite false mx ex) (S754_finite false my ey) =
    S754_finite false m (ex - ey - k).
Proof.
  intros Hdx Hdy Hdm Hk Heq Hrange.
  unfold double_div, SFdiv, SFdiv_core_binary, fexp, emin. simpl Zdigits2.
  rewrite Hdx, Hdy.
  replace (Z.min (Z.max (53 + ex - (53 + ey) - 53) (3 - 1024 - 53)) (ex - ey))
    with (ex - ey - 53) by lia.
  replace (ex - ey - (ex - ey - 53)) with 53 by lia.
  rewrite Z.shiftl_mul_pow2 by lia.
  assert (Hq : Z.pos mx * 2 ^ 53 = Z.pos m * 2 ^ (53 - k) * Z.pos my).
  { replace (2 ^ 53) with (2 ^ k * 2 ^ (53 - k))
      by (rewrite <- Z.pow_add_r by lia; f_equal; lia).
    rewrite Z.mul_assoc, Heq. ring. }
  destruct (Z.div_eucl (Z.pos mx * 2 ^ 53) (Z.pos my)) as [q r] eqn:Hdiv.
  assert (Hqv : q = Z.pos m * 2 ^ (53 - k)).
  { change q with (fst (q, r)). rewrite <- Hdiv.
    fold (Z.div (Z.pos mx * 2 ^ 53) (Z.pos my)).
    rewrite Hq. apply Z.div_mul. lia. }
  assert (Hrv : r = 0).
  { change r with (snd (q, r)). rewrite <- Hdiv.
    fold (Z.modulo (Z.pos mx * 2 ^ 53) (Z.pos my)).
    rewrite Hq. apply Z.mod_mul. lia. }
  subst q r.
  assert (Hloc : new_location (Z.pos my) 0 = loc_Exact).
  { unfold new_location, new_location_even, new_location_odd.
    by destruct (Z.even (Z.pos my)). }
  rewrite Hloc. destruct Hk as [-> | ->].
  - change (2 ^ (53 - 52)) with 2. replace (Z.pos m * 2) with (Z.pos m~0) by lia.
    rewrite binary_round_aux_double by (done || lia). f_equal. lia.
  - change (2 ^ (53 - 53)) with 1. rewrite Z.mul_1_r.
    by rewrite binary_round_aux_normal by (done || lia).
Qed.

(** The quotient of two counters below [2^53] is exact whenever the
    exact quotient is a double: a mantissa [m] of 53 bits and an exponent
    [e] with [hit / get = m * 2^e]. *)
Lemma counter_quotient_exact (hit get m : positive) (e : Z) :
  Z.pos hit < 2 ^ 53 -> Z.pos get < 2 ^ 53 ->
  Z.pos (digits2_pos m) = 53 -> e <= 0 ->
  Z.pos hit * 2 ^ (- e) = Z.pos m * Z.pos get ->
  double_div (to_double (Z.pos hit)) (to_double (Z.pos get)) = S754_finite false m e.
Proof.
  intros Hhit Hget Hdm He Heq.
  destruct (to_double_exact hit Hhit) as (mx & -> & Hmx & Hdx).
  destruct (to_double_exact get Hget) as (my & -> & Hmy & Hdy).
  pose proof (digits2_pos_spec hit) as [Hlh Hhh].
  pose proof (digits2_pos_spec get) as [Hlg Hhg].
  set (dh := Z.pos (digits2_pos hit)) in *. set (dg := Z.pos (digits2_pos get)) in *.
  assert (Hdh : 0 < dh <= 53).
  { split; [unfold dh; lia|].
    assert (dh - 1 < 53); [|lia]. apply (Z.pow_lt_mono_r_iff 2); lia. }
  assert (Hdg : 0 < dg <= 53).
  { split; [unfold dg; lia|].
    assert (dg - 1 < 53); [|lia]. apply (Z.pow_lt_mono_r_iff 2); lia. }
  pose proof (digits2_pos_spec mx) as Bx. rewrite Hdx in Bx.
  pose proof (digits2_pos_spec my) as By. rewrite Hdy in By.
  pose proof (digits2_pos_spec m) as Bm. rewrite Hdm in Bm.
  change (2 ^ (53 - 1)) with (2 ^ 52) in *.
  set (A := 53 - dh) in *. set (B := 53 - dg) in *. set (E := - e) in *.
  assert (HA : 0 <= A) by (unfold A; lia).
  assert (HB : 0 <= B) by (unfold B; lia).
  assert (HE : 0 <= E) by (unfold E; lia).
  assert (Hkey : Z.pos mx * 2 ^ (E + B) = Z.pos m * Z.pos my * 2 ^ A).
  { rewrite Hmx, Hmy, Z.pow_add_r by lia.
    transitivity (Z.pos hit * 2 ^ E * (2 ^ A * 2 ^ B)); [ring|].
    rewrite Heq. ring. }
  assert (P1 : 0 < 2 ^ (E + B)) by (apply Z.pow_pos_nonneg; lia).
  assert (P2 : 0 < 2 ^ A) by (apply Z.pow_pos_nonneg; lia).
  assert (L1 : 2 ^ (52 + (E + B)) <= Z.pos mx * 2 ^ (E + B)).
  { rewrite (Z.pow_add_r 2 52 (E + B)) by lia. apply Z.mul_le_mono_nonneg_r; lia. }
  assert (U1 : Z.pos mx * 2 ^ (E + B) < 2 ^ (53 + (E + B))).
  { rewrite (Z.pow_add_r 2 53 (E + B)) by lia. apply Z.mul_lt_mono_pos_r; lia. }
  assert (L2 : 2 ^ (104 + A) <= Z.pos m * Z.pos my * 2 ^ A).
  { rewrite (Z.pow_add_r 2 104 A) by lia. apply Z.mul_le_mono_nonneg_r; [lia|].
    change (2 ^ 104) with (2 ^ 52 * 2 ^ 52). apply Z.mul_le_mono_nonneg; lia. }
  assert (U2 : Z.pos m * Z.pos my * 2 ^ A < 2 ^ (106 + A)).
  { rewrite (Z.pow_add_r 2 106 A) by lia. apply Z.mul_lt_mono_pos_r; [lia|].
    change (2 ^ 106) with (2 ^ 53 * 2 ^ 53). apply Z.mul_lt_mono_nonneg; lia. }
  assert (K1 : 52 + (E + B) < 106 + A).
  { apply (Z.pow_lt_mono_r_iff 2); lia. }
  assert (K2 : 104 + A < 53 + (E + B)).
  { apply (Z.pow_lt_mono_r_iff 2); lia. }
  set (k := E + B - A).
  assert (Hk : k = 52 \/ k = 53) by (unfold k; lia).
  assert (Hcancel : Z.pos mx * 2 ^ k = Z.pos m * Z.pos my).
  { apply (Z.mul_reg_r _ _ (2 ^ A)); [lia|].
    rewrite <- Hkey, <- Z.mul_assoc, <- Z.pow_add_r by (unfold k; lia).
    do 2 f_equal. unfold k. lia. }
  rewrite (double_div_exact mx my m (dh - 53) (dg - 53) k); try done.
  - f_equal. unfold k, A, B, E. lia.
  - lia.
Qed.

(** Three hits out of six calls: one half. *)
Lemma three_of_six : double_div (to_double 3) (to_double 6) = S754_finite false (2 ^ 52) (-53).
Proof. reflexivity. Qed.

(** No call, no rate: the quotient of zero by zero is not a number. *)
Lemma zero_of_zero : double_div (to_double 0) (to_double 0) = S754_nan.
Proof. reflexivity. Qed.

(** 20000 hits in 50000 calls, as in the unit test: the double that the
    literal [0.4] denotes. *)
Lemma two_fifths :
  double_div (to_double 20000) (to_double 50000) = S754_finite false 7205759403792794 (-54).
Proof. reflexivity. Qed.

(** No hit: the rate is zero. *)
Lemma zero_hits (get : positive) :
  Z.pos get < 2 ^ 53 ->
  double_div (to_double 0) (to_double (Z.pos get)) = S754_zero false.
Proof.
  intros Hget. destruct (to_double_exact get Hget) as (my & -> & _). reflexivity.
Qed.

(** ** Moving and removing list nodes *)

Lemma elem_of_splice (l : list nat) (it x : nat) :
  it ∈ l -> x ∈ it :: filter (fun y => y <> it) l <-> x ∈ l.
Proof.
  intros Hit. rewrite elem_of_cons, list_elem_of_filter. split.
  - intros [-> | [_ Hx]]; done.
  - intros Hx. destruct (decide (x = it)) as [-> | Hne]; [by left | by right].
Qed.

Lemma NoDup_splice (l : list nat) (it : nat) :
  NoDup l -> NoDup (it :: filter (fun y => y <> it) l).
Proof.
  intros Hnd. apply NoDup_cons. split.
  - rewrite list_elem_of_filter. by intros [Hne _].
  - by apply NoDup_filter.
Qed.

Lemma filter_others (l : list nat) (it : nat) :
  it ∉ l -> filter (fun y => y <> it) l = l.
Proof.
  induction l as [|x l IH]; intros Hit; [done|].
  rewrite not_elem_of_cons in Hit. destruct Hit as [Hne Hit].
  rewrite filter_cons_True by done. by rewrite IH.
Qed.

Lemma filter_last (l : list nat) (it : nat) :
  NoDup (l ++ [it]) -> filter (fun y => y <> it) (l ++ [it]) = l.
Proof.
  intros Hnd. apply NoDup_app in Hnd as (_ & Hdis & _).
  rewrite filter_app, filter_others.
  - rewrite filter_cons_False by (by intros Hne). simpl. apply app_nil_r.
  - intros Hin. apply (Hdis it Hin). apply list_elem_of_singleton. done.
Qed.

Lemma last_snoc_inv {A} (l : list A) (x : A) :
  last l = Some x -> exists rest, l = rest ++ [x].
Proof.
  intros Hl. destruct l as [|y l] using rev_ind; [done|].
  rewrite last_snoc in Hl. injection Hl as ->. by eexists.
Qed.

Section cache.
Context {Key : Type} `{Countable Key} {value_ptr_type : Type}.
Variable sizeof_value : Z.
Implicit Types (c : @LRU_cache Key _ _) (s : gmap nat (Key * value_ptr_type)).
Implicit Types (key k : Key) (value v : value_ptr_type) (it : nat).

Lemma fresh_not_in_list c s :
  consistent c s -> fresh (dom s) ∉ m_list c.
Proof.
  intros Hc Hin. destruct (consistent_list c s Hc _ Hin) as (k & v & Hs & _).
  assert (Hdom : fresh (dom s) ∈ dom s) by (apply elem_of_dom; by rewrite Hs).
  by apply is_fresh in Hdom.
Qed.

(** A new key: a new node in front, a new entry in the table. *)
Lemma insert_or_update_new key value c s :
  consistent c s -> m_hash_table c !! key = None ->
  exists it,
    it = fresh (dom s) /\
    insert_or_update key value c s =
      Done (Cache (it :: m_list c) (<[key := it]> (m_hash_table c))
              (m_max_size c) (m_max_memory_size c) (m_stats c),
            <[it := (key, value)]> s) /\
    consistent (Cache (it :: m_list c) (<[key := it]> (m_hash_table c))
                  (m_max_size c) (m_max_memory_size c) (m_stats c))
               (<[it := (key, value)]> s).
Proof.
  intros Hc Hnone. exists (fresh (dom s)). split; [done|].
  pose proof (fresh_not_in_list c s Hc) as Hfresh.
  assert (Hs : s !! fresh (dom s) = None) by (apply not_elem_of_dom, is_fresh).
  split.
  - unfold insert_or_update. by rewrite Hnone.
  - destruct Hc as [Hnd Hidx Hlst]. split; simpl.
    + by apply NoDup_cons.
    + intros k it Hk. destruct (decide (key = k)) as [<- | Hne].
      * rewrite lookup_insert_eq in Hk. injection Hk as <-.
        split; [by left|]. exists value. by rewrite lookup_insert_eq.
      * rewrite lookup_insert_ne in Hk by done.
        destruct (Hidx k it Hk) as [Hin (v & Hv)].
        split; [by right|]. exists v. rewrite lookup_insert_ne; [done|congruence].
    + intros it Hin. apply elem_of_cons in Hin as [-> | Hin].
      * exists key, value. by rewrite !lookup_insert_eq.
      * destruct (Hlst it Hin) as (k & v & Hv & Hk).
        exists k, v. rewrite lookup_insert_ne by congruence.
        rewrite lookup_insert_ne by congruence. done.
Qed.

(** A known key: its node takes the new value and moves to the front. *)
Lemma insert_or_update_known key value c s it :
  consistent c s -> m_hash_table c !! key = Some it ->
  insert_or_update key value c s =
    Done (with_list (it :: filter (fun y => y <> it) (m_list c)) c,
          <[it := (key, value)]> s) /\
  consistent (with_list (it :: filter (fun y => y <> it) (m_list c)) c)
             (<[it := (key, value)]> s).
Proof.
  intros Hc Hsome. pose proof Hc as [Hnd Hidx Hlst].
  destruct (Hidx key it Hsome) as [Hin (v0 & Hv0)].
  split.
  - unfold insert_or_update. rewrite Hsome.
    unfold bind, node_set_second, list_splice_front. rewrite Hv0. simpl.
    by rewrite decide_True.
  - split; simpl.
    + by apply NoDup_splice.
    + intros k it' Hk. destruct (Hidx k it' Hk) as [Hin' (v & Hv)].
      split; [by apply elem_of_splice|].
      destruct (decide (it' = it)) as [-> | Hne].
      * exists value. rewrite lookup_insert_eq. congruence.
      * exists v. by rewrite lookup_insert_ne.
    + intros it' Hin'. apply elem_of_splice in Hin'; [|done].
      destruct (Hlst it' Hin') as (k & v & Hv & Hk).
      destruct (decide (it' = it)) as [-> | Hne].
      * exists key, value. by rewrite lookup_insert_eq.
      * exists k, v. by rewrite lookup_insert_ne.
Qed.

(** Discarding: the last node of the list goes, with the entry of the
    table for its key. *)
Lemma discard_run c s :
  consistent c s -> m_list c <> [] ->
  exists rest it k v,
    m_list c = rest ++ [it] /\ s !! it = Some (k, v) /\
    m_hash_table c !! k = Some it /\
    _discard_one_elem c s =
      Done (Cache rest (delete k (m_hash_table c))
              (m_max_size c) (m_max_memory_size c) (m_stats c),
            delete it s) /\
    consistent (Cache rest (delete k (m_hash_table c))
                  (m_max_size c) (m_max_memory_size c) (m_stats c))
               (delete it s).
Proof.
  intros Hc Hne. pose proof Hc as [Hnd Hidx Hlst].
  destruct (last (m_list c)) as [it|] eqn:Hlast.
  2: { apply last_None in Hlast. done. }
  destruct (last_snoc_inv _ _ Hlast) as [rest Hrest].
  assert (Hin : it ∈ m_list c).
  { rewrite Hrest, elem_of_app. right. by apply list_elem_of_singleton. }
  destruct (Hlst it Hin) as (k & v & Hv & Hk).
  exists rest, it, k, v. split_and!; try done.
  - unfold _discard_one_elem, bind, list_last, node_read, list_erase.
    rewrite Hlast, Hv. simpl. rewrite decide_True by done.
    unfold ret. rewrite Hrest, filter_last; [done|by rewrite <- Hrest].
  - rewrite Hrest in Hnd. pose proof Hnd as Hnd'.
    apply NoDup_app in Hnd' as (Hnd1 & Hdis & _).
    assert (Hnotin : it ∉ rest).
    { intros Hr. apply (Hdis it Hr). by apply list_elem_of_singleton. }
    split; simpl.
    + done.
    + intros k' it' Hk'. apply lookup_delete_Some in Hk' as [Hkne Hk'].
      destruct (Hidx k' it' Hk') as [Hin' (v' & Hv')].
      assert (Hne' : it' <> it) by (intros ->; congruence).
      split.
      * rewrite Hrest, elem_of_app in Hin'. destruct Hin' as [|Hin']; [done|].
        apply list_elem_of_singleton in Hin'. done.
      * exists v'. by rewrite lookup_delete_ne.
    + intros it' Hin'.
      assert (Hne' : it' <> it) by (intros ->; done).
      destruct (Hlst it') as (k' & v' & Hv' & Hk').
      { rewrite Hrest, elem_of_app. by left. }
      exists k', v'. rewrite lookup_delete_ne by done. split; [done|].
      rewrite lookup_delete_ne; [done|]. intros <-. congruence.
Qed.
(** The first half of [push] never fails; it keeps the invariant and
    the bounds and leaves the key in the table, so the list is not
    empty. *)
Lemma insert_or_update_run key value c s :
  consistent c s ->
  exists c1 s1,
    insert_or_update key value c s = Done (c1, s1) /\
    consistent c1 s1 /\
    m_list c1 <> [] /\
    m_max_size c1 = m_max_size c /\
    m_max_memory_size c1 = m_max_memory_size c /\
    m_stats c1 = m_stats c /\
    is_Some (m_hash_table c1 !! key) /\
    (size (m_hash_table c1) <= S (size (m_hash_table c)))%nat.
Proof.
  intros Hc. destruct (m_hash_table c !! key) as [it|] eqn:Hk.
  - destruct (insert_or_update_known key value c s it Hc Hk) as [Hrun Hc1].
    eexists _, _. split; [exact Hrun|]. split_and!; try done.
    simpl. lia.
  - destruct (insert_or_update_new key value c s Hc Hk) as (it & _ & Hrun & Hc1).
    eexists _, _. split; [exact Hrun|]. split_and!; try done.
    + simpl. rewrite lookup_insert_eq. by eexists.
    + simpl. by rewrite map_size_insert_None.
Qed.

(** C2. [push] inserts or updates and then runs the eviction step once.
    With [n] the number of entries after the insertion: when
    [n > max_count], or [max_memory] is not zero and [n * sizeof(value)]
    (a [size_t] product) is above it, the last node of the list is
    removed from the list and its key from the hash table, and nothing
    else; otherwise nothing is removed. One entry at most goes. *)
Theorem push_evicts_once key value c s :
  consistent c s ->
  exists c1 s1 c' s',
    insert_or_update key value c s = Done (c1, s1) /\
    push sizeof_value key value c s = Done (c', s') /\
    evict sizeof_value c1 s1 = Done (c', s') /\
    let n := Z.of_nat (size (m_hash_table c1)) in
    if (n >? m_max_size c) ||
       (negb (m_max_memory_size c =? 0) &&
        (wrap (n * sizeof_value) >? m_max_memory_size c))
    then
      exists rest it k v,
        m_list c1 = rest ++ [it] /\ s1 !! it = Some (k, v) /\
        m_hash_table c1 !! k = Some it /\
        m_list c' = rest /\
        m_hash_table c' = delete k (m_hash_table c1) /\
        s' = delete it s1 /\
        S (length (m_list c')) = length (m_list c1) /\
        S (size (m_hash_table c')) = size (m_hash_table c1)
    else c' = c1 /\ s' = s1.
Proof.
  intros Hc.
  destruct (insert_or_update_run key value c s Hc)
    as (c1 & s1 & Hrun & Hc1 & Hne & Hmax & Hmem & _ & _ & _).
  exists c1, s1.
  unfold push. rewrite (bind_done _ _ _ _ _ Hrun).
  unfold evict, over_budget, _get_memory_size, _get_cache_size.
  rewrite Hmax, Hmem. simpl.
  destruct (_ || _).
  - destruct (discard_run c1 s1 Hc1 Hne) as (rest & it & k & v & Hl & Hv & Hk & Hd & _).
    eexists _, _. split_and!; try done.
    exists rest, it, k, v. simpl. split_and!; try done.
    + rewrite Hl, length_app. simpl. lia.
    + rewrite map_size_delete, Hk.
      assert (size (m_hash_table c1) <> 0%nat); [|lia].
      intros Hz. apply map_size_empty_inv in Hz. rewrite Hz in Hk. done.
  - by exists c1, s1.
Qed.

(** [push] never fails and keeps the invariant; the table grows by one
    entry at most, and not beyond [max_count]. *)
Lemma push_run key value c s :
  consistent c s -> 0 <= m_max_size c ->
  Z.of_nat (size (m_hash_table c)) <= m_max_size c ->
  exists c' s',
    push sizeof_value key value c s = Done (c', s') /\
    consistent c' s' /\
    m_max_size c' = m_max_size c /\
    m_max_memory_size c' = m_max_memory_size c /\
    m_stats c' = m_stats c /\
    Z.of_nat (size (m_hash_table c')) <= m_max_size c.
Proof.
  intros Hc Hnonneg Hsize.
  destruct (insert_or_update_run key value c s Hc)
    as (c1 & s1 & Hrun & Hc1 & Hne & Hmax & Hmem & Hst & _ & Hgrow).
  unfold push. rewrite (bind_done _ _ _ _ _ Hrun).
  unfold evict, over_budget, _get_cache_size.
  destruct (Z.gtb_spec (Z.of_nat (size (m_hash_table c1))) (m_max_size c1)) as [Hover | Hfit];
    simpl.
  - destruct (discard_run c1 s1 Hc1 Hne) as (rest & it & k & v & Hl & Hv & Hk & Hd & Hc').
    eexists _, _. split; [exact Hd|]. split_and!; try done. simpl.
    rewrite map_size_delete, Hk. lia.
  - destruct (_ && _).
    + destruct (discard_run c1 s1 Hc1 Hne) as (rest & it & k & v & Hl & Hv & Hk & Hd & Hc').
      eexists _, _. split; [exact Hd|]. split_and!; try done. simpl.
      rewrite map_size_delete, Hk. lia.
    + exists c1, s1. split_and!; try done. lia.
Qed.

(** C5. Every [get] adds one to [m_get_cnt]. For a key of the table it
    also adds one to [m_hit_cnt], moves the node of the key to the front
    of the list and returns [true] with the value the node holds. For any
    other key it returns [false] and leaves the out-parameter, the hit
    counter, the list, the table and the nodes as they were. Neither
    case fails. *)
Theorem get_counts_and_promotes key value c s :
  consistent c s -> in_range c ->
  exists found value' c',
    get key value c s = Done ((found, value', c'), s) /\
    consistent c' s /\
    m_get_cnt (m_stats c') = wrap (m_get_cnt (m_stats c) + 1) /\
    (m_get_cnt (m_stats c) + 1 < 2 ^ 64 ->
     m_get_cnt (m_stats c') = m_get_cnt (m_stats c) + 1) /\
    m_hash_table c' = m_hash_table c /\
    m_max_size c' = m_max_size c /\
    m_max_memory_size c' = m_max_memory_size c /\
    match m_hash_table c !! key with
    | Some it =>
        found = true /\
        s !! it = Some (key, value') /\
        m_hit_cnt (m_stats c') = wrap (m_hit_cnt (m_stats c) + 1) /\
        (m_hit_cnt (m_stats c) + 1 < 2 ^ 64 ->
         m_hit_cnt (m_stats c') = m_hit_cnt (m_stats c) + 1) /\
        m_list c' = it :: filter (fun y => y <> it) (m_list c)
    | None =>
        found = false /\ value' = value /\
        m_hit_cnt (m_stats c') = m_hit_cnt (m_stats c) /\
        m_list c' = m_list c
    end.
Proof.
  intros Hc Hr. pose proof Hc as [Hnd Hidx Hlst].
  destruct Hr as [Hget Hhit _ _].
  unfold get. simpl. destruct (m_hash_table c !! key) as [it|] eqn:Hk.
  - destruct (Hidx key it Hk) as [Hin (v & Hv)].
    unfold bind, list_splice_front, node_read. rewrite decide_True by done.
    rewrite Hv. simpl.
    eexists _, _, _. split; [done|]. simpl. split_and!; try done.
    + split; simpl.
      * by apply NoDup_splice.
      * intros k it' Hk'. destruct (Hidx k it' Hk') as [Hin' Hv'].
        split; [by apply elem_of_splice | done].
      * intros it' Hin'. apply elem_of_splice in Hin'; [|done]. by apply Hlst.
    + intros Hlt. apply wrap_small. lia.
    + intros Hlt. apply wrap_small. lia.
  - eexists _, _, _. split; [done|]. simpl. split_and!; try done.
    intros Hlt. apply wrap_small. lia.
Qed.

(** [get] never fails and keeps the invariant, the table and the
    bounds. *)
Lemma get_run key value c s :
  consistent c s ->
  exists found value' c',
    get key value c s = Done ((found, value', c'), s) /\
    consistent c' s /\
    m_hash_table c' = m_hash_table c /\
    m_max_size c' = m_max_size c /\
    m_max_memory_size c' = m_max_memory_size c /\
    m_get_cnt (m_stats c') = wrap (m_get_cnt (m_stats c) + 1) /\
    m_hit_cnt (m_stats c') =
      (if found then wrap (m_hit_cnt (m_stats c) + 1) else m_hit_cnt (m_stats c)).
Proof.
  intros Hc. pose proof Hc as [Hnd Hidx Hlst].
  unfold get. simpl. destruct (m_hash_table c !! key) as [it|] eqn:Hk.
  - destruct (Hidx key it Hk) as [Hin (v & Hv)].
    unfold bind, list_splice_front, node_read. rewrite decide_True by done.
    rewrite Hv. simpl.
    eexists _, _, _. split; [done|]. simpl. split_and!; try done.
    split; simpl.
    + by apply NoDup_splice.
    + intros k it' Hk'. destruct (Hidx k it' Hk') as [Hin' Hv'].
      split; [by apply elem_of_splice | done].
    + intros it' Hin'. apply elem_of_splice in Hin'; [|done]. by apply Hlst.
  - eexists _, _, _. split; [done|]. simpl. by split_and!.
Qed.

Lemma consistent_stats c s st : consistent c s -> consistent (with_stats st c) s.
Proof. intros [Hnd Hidx Hlst]. by split. Qed.

(** One call of any kind never fails; it keeps the invariant, the
    bounds, and the table within [max_count]. *)
Lemma step_run o c s :
  consistent c s -> 0 <= m_max_size c ->
  Z.of_nat (size (m_hash_table c)) <= m_max_size c ->
  exists r c' s',
    step sizeof_value o c s = Done ((r, c'), s') /\
    consistent c' s' /\
    m_max_size c' = m_max_size c /\
    m_max_memory_size c' = m_max_memory_size c /\
    Z.of_nat (size (m_hash_table c')) <= m_max_size c.
Proof.
  intros Hc Hnonneg Hsize. destruct o as [key value | key value | key |]; simpl.
  - destruct (push_run key value c s Hc Hnonneg Hsize)
      as (c' & s' & Hrun & Hc' & Hmax & Hmem & _ & Hsize').
    exists [], c', s'. by rewrite (bind_done _ _ _ _ _ Hrun).
  - destruct (get_run key value c s Hc)
      as (found & value' & c' & Hrun & Hc' & Ht & Hmax & Hmem & _).
    exists [found], c', s. rewrite (bind_done _ _ _ _ _ Hrun).
    split_and!; try done. by rewrite Ht.
  - by exists [], c, s.
  - exists [], (reset_stats c), s. split_and!; try done.
    by apply consistent_stats.
Qed.

Lemma run_ops_run os :
  forall c s,
    consistent c s -> 0 <= m_max_size c ->
    Z.of_nat (size (m_hash_table c)) <= m_max_size c ->
    exists rs c' s',
      run_ops sizeof_value os c s = Done ((rs, c'), s') /\
      consistent c' s' /\
      m_max_size c' = m_max_size c /\
      m_max_memory_size c' = m_max_memory_size c /\
      Z.of_nat (size (m_hash_table c')) <= m_max_size c.
Proof.
  induction os as [|o os IH]; intros c s Hc Hnonneg Hsize.
  - by exists [], c, s.
  - destruct (step_run o c s Hc Hnonneg Hsize)
      as (r & c1 & s1 & Hrun1 & Hc1 & Hmax1 & Hmem1 & Hsize1).
    destruct (IH c1 s1 Hc1) as (rs & c2 & s2 & Hrun2 & Hc2 & Hmax2 & Hmem2 & Hsize2);
      [lia | lia |].
    exists (r ++ rs), c2, s2. simpl.
    rewrite (bind_done _ _ _ _ _ Hrun1). rewrite (bind_done _ _ _ _ _ Hrun2).
    split_and!; try done; congruence || lia.
Qed.

Lemma construct_consistent (Size MemorySize : Z) s :
  consistent (construct_with_memory (Key:=Key) Size MemorySize) s /\
  construct Size = construct_with_memory (Key:=Key) Size 0.
Proof.
  split; [|done]. split; simpl.
  - apply NoDup_nil_2.
  - intros k it Hk. by rewrite lookup_empty in Hk.
  - intros it Hin. by apply elem_of_nil in Hin.
Qed.

(** The list has one node for each entry of the table. *)
Lemma list_length_is_table_size c s :
  consistent c s -> length (m_list c) = size (m_hash_table c).
Proof.
  intros [Hnd Hidx Hlst].
  rewrite <- length_map_to_list, <- (length_fmap snd).
  apply Permutation_length, NoDup_Permutation; [done | |].
  - apply NoDup_fmap_2_strong; [|apply NoDup_map_to_list].
    intros [k1 it1] [k2 it2] H1 H2 Heq. simpl in Heq. subst it2.
    apply elem_of_map_to_list in H1, H2.
    destruct (Hidx k1 it1 H1) as [_ (v1 & Hv1)].
    destruct (Hidx k2 it1 H2) as [_ (v2 & Hv2)]. congruence.
  - intros it. rewrite list_elem_of_fmap. split.
    + intros Hin. destruct (Hlst it Hin) as (k & v & _ & Hk).
      exists (k, it). split; [done|]. by apply elem_of_map_to_list.
    + intros ([k it'] & -> & Hin). apply elem_of_map_to_list in Hin.
      by destruct (Hidx k it' Hin).
Qed.

(** C10. A cache constructed with [max_count = N], whatever its memory
    bound, holds at most [N] entries after every sequence of [push],
    [get], [exists] and [reset_stats]; no call of the sequence fails. *)
Theorem count_never_exceeds_max_count (N MemorySize : Z) (os : list op) s :
  0 <= N ->
  exists rs c' s',
    run_ops sizeof_value os (construct_with_memory N MemorySize) s = Done ((rs, c'), s') /\
    _get_cache_size c' <= N /\
    (length (m_list c') <= Z.to_nat N)%nat /\
    m_max_size c' = N /\
    consistent c' s' /\
    construct N = construct_with_memory (Key:=Key) N 0.
Proof.
  intros HN.
  destruct (construct_consistent N MemorySize s) as [Hc _].
  destruct (run_ops_run os (construct_with_memory N MemorySize) s Hc)
    as (rs & c' & s' & Hrun & Hc' & Hmax & _ & Hsize).
  - done.
  - simpl. rewrite map_size_empty. lia.
  - exists rs, c', s'. split_and!; try done.
    rewrite (list_length_is_table_size c' s' Hc'). simpl in Hsize. lia.
Qed.

(** [push] leaves the counters alone. *)
Lemma push_keeps_stats key value c s :
  consistent c s ->
  exists c' s',
    push sizeof_value key value c s = Done (c', s') /\
    consistent c' s' /\ m_stats c' = m_stats c.
Proof.
  intros Hc.
  destruct (insert_or_update_run key value c s Hc)
    as (c1 & s1 & Hrun & Hc1 & Hne & _ & _ & Hst & _).
  unfold push. rewrite (bind_done _ _ _ _ _ Hrun). unfold evict.
  destruct (over_budget sizeof_value c1).
  - destruct (discard_run c1 s1 Hc1 Hne) as (rest & it & k & v & _ & _ & _ & Hd & Hc').
    eexists _, _. split; [exact Hd|]. by split.
  - by exists c1, s1.
Qed.

Lemma wrap_add_wrap (a b : Z) : wrap (wrap a + b) = wrap (a + b).
Proof. unfold wrap. apply Zplus_mod_idemp_l. Qed.

Lemma wrap_range (a : Z) : 0 <= wrap a < 2 ^ 64.
Proof. unfold wrap, size_t_modulus. apply Z.mod_pos_bound. lia. Qed.

(** Between two resets the counters count: [m_get_cnt] the calls of
    [get], [m_hit_cnt] those that returned [true]. *)
Lemma counters_count os :
  forall c s,
    consistent c s ->
    0 <= m_get_cnt (m_stats c) < 2 ^ 64 ->
    0 <= m_hit_cnt (m_stats c) < 2 ^ 64 ->
    forallb (fun o => negb (is_reset o)) os = true ->
    exists rs c' s',
      run_ops sizeof_value os c s = Done ((rs, c'), s') /\
      consistent c' s' /\
      m_get_cnt (m_stats c') =
        wrap (m_get_cnt (m_stats c) + Z.of_nat (length rs)) /\
      m_hit_cnt (m_stats c') =
        wrap (m_hit_cnt (m_stats c) + Z.of_nat (length (filter (fun b => b = true) rs))).
Proof.
  induction os as [|o os IH]; intros c s Hc Hget Hhit Hos.
  - exists [], c, s. simpl. rewrite !Z.add_0_r, !wrap_small by done. done.
  - simpl in Hos. apply andb_prop in Hos as [Ho Hos].
    assert (Hstep : exists r c1 s1,
               step sizeof_value o c s = Done ((r, c1), s1) /\ consistent c1 s1 /\
               m_get_cnt (m_stats c1) = wrap (m_get_cnt (m_stats c) + Z.of_nat (length r)) /\
               m_hit_cnt (m_stats c1) =
                 wrap (m_hit_cnt (m_stats c)
                       + Z.of_nat (length (filter (fun b => b = true) r)))).
    { destruct o as [key value | key value | key |]; simpl in *; [| | |done].
      - destruct (push_keeps_stats key value c s Hc) as (c1 & s1 & Hrun & Hc1 & Hst).
        exists [], c1, s1. rewrite (bind_done _ _ _ _ _ Hrun). simpl.
        rewrite Hst, !Z.add_0_r, !wrap_small by done. done.
      - destruct (get_run key value c s Hc)
          as (found & value' & c1 & Hrun & Hc1 & _ & _ & _ & Hg & Hh).
        exists [found], c1, s. rewrite (bind_done _ _ _ _ _ Hrun). simpl.
        split_and!; try done. rewrite Hh. destruct found.
        + by rewrite filter_cons_True.
        + rewrite filter_cons_False by done. simpl.
          by rewrite Z.add_0_r, wrap_small.
      - exists [], c, s. simpl. rewrite !Z.add_0_r, !wrap_small by done. done. }
    destruct Hstep as (r & c1 & s1 & Hrun1 & Hc1 & Hg1 & Hh1).
    destruct (IH c1 s1 Hc1) as (rs & c2 & s2 & Hrun2 & Hc2 & Hg2 & Hh2);
      [rewrite Hg1; apply wrap_range | rewrite Hh1; apply wrap_range | done |].
    exists (r ++ rs), c2, s2. simpl.
    rewrite (bind_done _ _ _ _ _ Hrun1). rewrite (bind_done _ _ _ _ _ Hrun2).
    split_and!; try done.
    + rewrite Hg2, Hg1, wrap_add_wrap, length_app. f_equal. lia.
    + rewrite Hh2, Hh1, wrap_add_wrap, filter_app, length_app. f_equal. lia.
Qed.

(** [reset_stats] touches the two counters and nothing else. *)
Lemma reset_stats_spec c :
  m_get_cnt (m_stats (reset_stats c)) = 0 /\
  m_hit_cnt (m_stats (reset_stats c)) = 0 /\
  m_list (reset_stats c) = m_list c /\
  m_hash_table (reset_stats c) = m_hash_table c /\
  m_max_size (reset_stats c) = m_max_size c /\
  m_max_memory_size (reset_stats c) = m_max_memory_size c.
Proof. done. Qed.

(** C9. With [m_get_cnt > 0], [get_hit_rate] returns [m_hit_cnt]
    divided by [m_get_cnt] as the source computes it: both counters
    converted to [double], then the IEEE 754 binary64 division. Three
    hits out of six calls give one half, [2^52 * 2^-53]. For counters
    below [2^53] the result is zero when there is no hit, and it is
    [hit / get] itself whenever that ratio is a binary64 number
    [m * 2^e]. [reset_stats] sets both counters to zero and keeps the
    list, the table and the two bounds. After it the counters count the
    calls of [get] and those that hit, so the rate is the one of the
    calls since the reset. *)
Theorem hit_rate_is_hits_over_gets c :
  in_range c -> 0 < m_get_cnt (m_stats c) ->
  let hit := m_hit_cnt (m_stats c) in
  let get := m_get_cnt (m_stats c) in
  get_hit_rate c = double_div (to_double hit) (to_double get) /\
  (hit = 3 -> get = 6 -> get_hit_rate c = S754_finite false (2 ^ 52) (-53)) /\
  (hit < 2 ^ 53 -> get < 2 ^ 53 ->
   (hit = 0 -> get_hit_rate c = S754_zero false) /\
   (forall (m : positive) (e : Z),
       Z.pos (digits2_pos m) = 53 -> e <= 0 ->
       hit * 2 ^ (- e) = Z.pos m * get ->
       get_hit_rate c = S754_finite false m e)) /\
  (m_get_cnt (m_stats (reset_stats c)) = 0 /\
   m_hit_cnt (m_stats (reset_stats c)) = 0 /\
   m_list (reset_stats c) = m_list c /\
   m_hash_table (reset_stats c) = m_hash_table c /\
   m_max_size (reset_stats c) = m_max_size c /\
   m_max_memory_size (reset_stats c) = m_max_memory_size c) /\
  (forall os s,
      consistent c s -> forallb (fun o => negb (is_reset o)) os = true ->
      exists rs c' s',
        run_ops sizeof_value os (reset_stats c) s = Done ((rs, c'), s') /\
        m_get_cnt (m_stats c') = wrap (Z.of_nat (length rs)) /\
        m_hit_cnt (m_stats c') =
          wrap (Z.of_nat (length (filter (fun b => b = true) rs))) /\
        get_hit_rate c' =
          double_div
            (to_double (wrap (Z.of_nat (length (filter (fun b => b = true) rs)))))
            (to_double (wrap (Z.of_nat (length rs))))).
Proof.
  intros [Hget Hhit _ _] Hpos hit get.
  split; [|split; [|split; [|split]]].
  - done.
  - intros Hh Hg. unfold get_hit_rate. fold hit get. rewrite Hh, Hg. reflexivity.
  - intros Hh Hg. unfold get_hit_rate. fold hit get.
    destruct get as [|pg|pg] eqn:Eg; [lia | | lia]. split.
    + intros ->. by apply zero_hits.
    + intros m e Hm He Heq. destruct hit as [|ph|ph] eqn:Eh; [lia | | lia].
      by apply counter_quotient_exact.
  - apply reset_stats_spec.
  - intros os s Hc Hos.
    destruct (counters_count os (reset_stats c) s) as (rs & c' & s' & Hrun & _ & Hg & Hh);
      [by apply consistent_stats | simpl; lia | simpl; lia | done |].
    exists rs, c', s'. simpl in Hg, Hh. split_and!; try done.
    unfold get_hit_rate. by rewrite Hg, Hh.
Qed.

End cache.

(** ** The claims at a cache of three [int] values

    [LRU_cache<int, int>(3)] in a store with no other node;
    [sizeof(int)] is 4. *)

(** The scenario of the unit test: [max_count] 3; [push] of keys 0, 1, 2;
    [get] of key 0; [push] of key 3 discards key 1. *)
Example cache_of_three :
  match run_ops 4 [Push 0%nat 10%nat; Push 1%nat 11%nat; Push 2%nat 12%nat;
                   Get 0%nat 0%nat; Push 3%nat 13%nat]
          (construct 3) (∅ : gmap nat (nat * nat)) with
  | Done ((rs, c), s) =>
      rs = [true] /\
      (exists_ 0%nat c, exists_ 1%nat c, exists_ 2%nat c, exists_ 3%nat c)
        = (true, false, true, true) /\
      entries c s = [Some (3%nat, 13%nat); Some (0%nat, 10%nat); Some (2%nat, 12%nat)]
  | _ => False
  end.
Proof. vm_compute. by split_and!. Qed.

(** The full cache: [LRU_cache<int, int>(3)] after [push] of keys 0, 1
    and 2. Key 0 is the least recently used. *)

(** A [push] of a fourth key discards the last element, that of key 0. *)
Lemma push_evicts_once_from_a_full_cache :
  let c : @LRU_cache nat _ _ :=
    Cache [2; 1; 0]%nat (<[2 := 2]> (<[1 := 1]> {[0 := 0]}))%nat 3 0 (MkStats 0 0) in
  let s : gmap nat (nat * nat) :=
    (<[2 := (2, 12)]> (<[1 := (1, 11)]> {[0 := (0, 10)]}))%nat in
  run_ops 4 [Push 0%nat 10%nat; Push 1%nat 11%nat; Push 2%nat 12%nat] (construct 3) ∅
  = Done (([], c), s) /\
  consistent c s /\
  exists c1 s1 c' s',
    insert_or_update 3%nat 13%nat c s = Done (c1, s1) /\
    push 4 3%nat 13%nat c s = Done (c', s') /\
    evict 4 c1 s1 = Done (c', s') /\
    m_list c1 = [3; 2; 1; 0]%nat /\
    exists rest it k v,
      m_list c1 = rest ++ [it] /\ s1 !! it = Some (k, v) /\
      m_hash_table c1 !! k = Some it /\
      m_list c' = rest /\
      m_hash_table c' = delete k (m_hash_table c1) /\
      s' = delete it s1 /\
      S (length (m_list c')) = length (m_list c1) /\
      S (size (m_hash_table c')) = size (m_hash_table c1).
Proof.
  intros c s.
  assert (Hreach : run_ops 4 [Push 0%nat 10%nat; Push 1%nat 11%nat; Push 2%nat 12%nat]
                     (construct 3) ∅ = Done (([], c), s))
    by (vm_compute; reflexivity).
  assert (Hc : consistent c s).
  { destruct (run_ops_run 4 [Push 0%nat 10%nat; Push 1%nat 11%nat; Push 2%nat 12%nat]
                (construct 3) (∅ : gmap nat (nat * nat)))
      as (rs & c0 & s0 & Hrun & Hc0 & _);
      [apply construct_consistent | simpl; lia | by vm_compute |].
    rewrite Hreach in Hrun. by injection Hrun as _ <- <-. }
  split; [exact Hreach|]. split; [exact Hc|].
  destruct (push_evicts_once 4 3%nat 13%nat c s Hc)
    as (c1 & s1 & c' & s' & Hfirst & Hpush & Hevict & Hcases).
  exists c1, s1, c', s'.
  split; [exact Hfirst|]. split; [exact Hpush|]. split; [exact Hevict|].
  vm_compute in Hfirst. injection Hfirst as <- <-.
  split; [reflexivity|]. exact Hcases.
Defined.

(** A [get] of key 0 is a hit: its node moves from the back of the list
    to the front. *)
Lemma get_counts_and_promotes_the_last_of_three :
  let c : @LRU_cache nat _ _ :=
    Cache [2; 1; 0]%nat (<[2 := 2]> (<[1 := 1]> {[0 := 0]}))%nat 3 0 (MkStats 0 0) in
  let s : gmap nat (nat * nat) :=
    (<[2 := (2, 12)]> (<[1 := (1, 11)]> {[0 := (0, 10)]}))%nat in
  consistent c s /\ in_range c /\
  exists found value' c',
    get 0%nat 7%nat c s = Done ((found, value', c'), s) /\
    consistent c' s /\
    m_get_cnt (m_stats c') = wrap (m_get_cnt (m_stats c) + 1) /\
    (m_get_cnt (m_stats c) + 1 < 2 ^ 64 ->
     m_get_cnt (m_stats c') = m_get_cnt (m_stats c) + 1) /\
    m_hash_table c' = m_hash_table c /\
    m_max_size c' = m_max_size c /\
    m_max_memory_size c' = m_max_memory_size c /\
    found = true /\
    s !! 0%nat = Some (0%nat, value') /\
    m_hit_cnt (m_stats c') = wrap (m_hit_cnt (m_stats c) + 1) /\
    (m_hit_cnt (m_stats c) + 1 < 2 ^ 64 ->
     m_hit_cnt (m_stats c') = m_hit_cnt (m_stats c) + 1) /\
    m_list c' = 0%nat :: filter (fun y => y <> 0%nat) (m_list c).
Proof.
  intros c s.
  assert (Hc : consistent c s).
  { destruct (run_ops_run 4 [Push 0%nat 10%nat; Push 1%nat 11%nat; Push 2%nat 12%nat]
                (construct 3) (∅ : gmap nat (nat * nat)))
      as (rs & c0 & s0 & Hrun & Hc0 & _);
      [apply construct_consistent | simpl; lia | by vm_compute |].
    assert (Hreach : run_ops 4 [Push 0%nat 10%nat; Push 1%nat 11%nat; Push 2%nat 12%nat]
                       (construct 3) ∅ = Done (([], c), s))
      by (vm_compute; reflexivity).
    rewrite Hreach in Hrun. by injection Hrun as _ <- <-. }
  assert (Hr : in_range c) by (split; simpl; lia).
  split; [exact Hc|]. split; [exact Hr|].
  exact (get_counts_and_promotes 0%nat 7%nat c s Hc Hr).
Defined.

Lemma hit_rate_of_three_hits_in_six :
  let c : @LRU_cache nat _ _ := Cache [] ∅ 3 0 (MkStats 6 3) in
  in_range c /\ 0 < m_get_cnt (m_stats c) /\
  get_hit_rate c = S754_finite false (2 ^ 52) (-53).
Proof.
  intros c.
  assert (Hr : in_range c) by (split; simpl; lia).
  assert (Hp : 0 < m_get_cnt (m_stats c)) by (simpl; lia).
  split; [exact Hr|]. split; [exact Hp|].
  apply (proj1 (proj2 (hit_rate_is_hits_over_gets (value_ptr_type:=nat) 4 c Hr Hp))); reflexivity.
Defined.

Lemma count_never_exceeds_three :
  0 <= 3 /\
  exists rs c' s',
    run_ops 4 [Push 0%nat 10%nat; Push 1%nat 11%nat; Push 2%nat 12%nat;
               Get 0%nat 0%nat; Push 3%nat 13%nat; Exists 1%nat]
      (construct_with_memory 3 0) (∅ : gmap nat (nat * nat)) = Done ((rs, c'), s') /\
    _get_cache_size c' <= 3 /\
    (length (m_list c') <= Z.to_nat 3)%nat /\
    m_max_size c' = 3 /\
    consistent c' s' /\
    construct 3 = construct_with_memory (Key:=nat) 3 0.
Proof.
  split; [lia|].
  apply (count_never_exceeds_max_count 4 3 0). lia.
Defined.


End LRU_theory.

(** * Further properties of the circular queue *)

Module CQ_more.
Import CQ CQ_theory.

Section queue.
Context {T : Type}.
Implicit Types (q : circular_queue) (h : gmap nat (block T)) (a : list T) (v : T).

Lemma wf_lookup q h b :
  wf q h -> h !! m_buffer q = Some b ->
  shape q /\ Z.of_nat (length (elems b)) = m_capacity q /\ (0 < use_count b)%nat.
Proof.
  intros [Hs (b0 & Hb0 & Ha & Hu)] Hb. assert (b0 = b) as -> by congruence. done.
Qed.

Lemma stored_is_length q h b :
  wf q h -> h !! m_buffer q = Some b ->
  stored q = Z.of_nat (length (contents q (elems b))).
Proof.
  intros Hwf Hb. destruct (wf_lookup q h b Hwf Hb) as (Hs & Ha & _).
  by rewrite (contents_length q (elems b) Hs Ha).
Qed.

Lemma empty_iff_no_contents q h b :
  wf q h -> h !! m_buffer q = Some b ->
  (empty q = true <-> contents q (elems b) = []).
Proof.
  intros Hwf Hb. pose proof (stored_is_length q h b Hwf Hb) as Hl.
  destruct (wf_lookup q h b Hwf Hb) as (Hs & _). unfold empty. split.
  - intros He. rewrite (stored_empty q He) in Hl. apply nil_length_inv. lia.
  - intros Hc. rewrite Hc in Hl. simpl in Hl. by apply stored_zero_empty.
Qed.

(** X1. [size] returns a number between 0 and the capacity; it is 0
    exactly when [empty] says so. Neither call changes the store. *)
Theorem size_within_capacity q h :
  wf q h ->
  exists n,
    size q h = Done (n, h) /\
    0 <= n <= capacity q /\
    (empty q = true <-> n = 0).
Proof.
  intros Hwf. pose proof Hwf as [Hs _]. exists (stored q). split_and!.
  - by apply size_run.
  - by apply stored_range.
  - by apply stored_range.
  - unfold empty. split.
    + apply stored_empty.
    + intros Hz. by apply stored_zero_empty.
Qed.

(** A sequence of mutations, against its model. *)
Lemma mutate_all_run ms :
  forall q h b,
    wf q h -> h !! m_buffer q = Some b ->
    match model_run (m_capacity q) ms (contents q (elems b)) with
    | Some c =>
        exists q' h' b',
          mutate_all ms q h = Done (q', h') /\
          wf q' h' /\ h' !! m_buffer q' = Some b' /\
          m_capacity q' = m_capacity q /\
          contents q' (elems b') = c /\
          spares q q' h h'
    | None => mutate_all ms q h = AssertFail
    end.
Proof.
  induction ms as [|m ms IH]; intros q h b Hwf Hb; simpl.
  - exists q, h, b. split_and!; try done.
  - pose proof (mutate_run m q h b Hwf Hb) as Hm.
    destruct (model_step (m_capacity q) m (contents q (elems b))) as [c1|].
    + destruct Hm as (q1 & h1 & b1 & Hrun1 & Hwf1 & Hb1 & Hcap1 & Hc1 & Hsp1).
      rewrite (bind_done _ _ _ _ _ Hrun1).
      specialize (IH q1 h1 b1 Hwf1 Hb1). rewrite Hcap1, Hc1 in IH.
      destruct (model_run (m_capacity q) ms c1) as [c|]; [|done].
      destruct IH as (q2 & h2 & b2 & Hrun2 & Hwf2 & Hb2 & Hcap2 & Hc2 & Hsp2).
      exists q2, h2, b2. split_and!; try done; try congruence.
      by eapply spares_trans.
    + unfold bind. by rewrite Hm.
Qed.

(** X2. A queue constructed with capacity [BufSize] is a bounded FIFO,
    the one of [model_run]: [push_back] appends the value and, when
    [BufSize] elements are held already, drops the oldest; [pop] takes
    the oldest. After any sequence of [push_back] and [pop] the queue
    holds what this bounded FIFO holds, in the same order, [size] is
    the number of these elements and [empty] tells whether there is
    none; the buffers that were in the store are untouched. The run
    aborts exactly when the bounded FIFO is asked to pop while empty. *)
Theorem queue_is_a_bounded_fifo (d : T) (BufSize : Z) h (ms : list mutation) :
  0 < BufSize < 2 ^ 63 ->
  match model_run BufSize ms [] with
  | Some c =>
      exists q h',
        (do q0 <- construct d BufSize ;; mutate_all ms q0) h = Done (q, h') /\
        wf q h' /\
        observe q h' = Some (BufSize, c) /\
        size q h' = Done (Z.of_nat (length c), h') /\
        (empty q = true <-> c = []) /\
        forall l, is_Some (h !! l) -> h' !! l = h !! l
  | None =>
      (do q0 <- construct d BufSize ;; mutate_all ms q0) h = AssertFail
  end.
Proof.
  intros HB.
  destruct (construct_run d BufSize h HB) as (q0 & h0 & Hrun0 & Hwf0 & He0 & Hcap0 & Hfr0).
  pose proof Hwf0 as [Hs0 (b0 & Hb0 & Ha0 & _)].
  assert (Hc0 : contents q0 (elems b0) = []).
  { by apply (empty_iff_no_contents q0 h0 b0). }
  pose proof (mutate_all_run ms q0 h0 b0 Hwf0 Hb0) as Hrun.
  rewrite Hcap0, Hc0 in Hrun. rewrite (bind_done _ _ _ _ _ Hrun0).
  destruct (model_run BufSize ms []) as [c|]; [|done].
  destruct Hrun as (q & h' & b & Hrun & Hwf & Hb & Hcap & Hc & Hsp).
  exists q, h'. split_and!; try done.
  - rewrite (observe_lookup q h' b Hb). by rewrite Hcap, Hc.
  - rewrite (size_run q h' Hwf). by rewrite (stored_is_length q h' b Hwf Hb), Hc.
  - rewrite <- Hc. by apply (empty_iff_no_contents q h' b).
  - intros l Hl. destruct (Hfr0 l Hl) as [Hne Heq].
    destruct (Hsp l Hne) as [_ Heq']; [by rewrite Heq|]. by rewrite Heq', Heq.
Qed.
(** [operator[]] against the contents. *)
Lemma index_is_lookup q h b (n : Z) v :
  wf q h -> h !! m_buffer q = Some b -> 0 <= n ->
  (index q n h = Done (v, h) <-> contents q (elems b) !! Z.to_nat n = Some v).
Proof.
  intros Hwf Hb Hn. pose proof (stored_is_length q h b Hwf Hb) as Hl.
  destruct (Z.lt_ge_cases n (stored q)) as [Hlt | Hge].
  - destruct (index_run q h b n Hwf Hb ltac:(lia)) as (w & Hw & _ & Hc).
    rewrite Hw, Hc. split; intros E; congruence.
  - rewrite (index_beyond q h n Hwf Hge). split; [done|].
    intros Hc. apply lookup_lt_Some in Hc. lia.
Qed.

(** X3. After [push_back] of [v], [back] returns [v]. [front] returns
    [v] if the queue was empty, what it returned before if there was
    room, and the former second element if the queue was full. *)
Theorem back_returns_the_value_pushed v q h b :
  wf q h -> h !! m_buffer q = Some b ->
  exists q' h' w,
    push_back v q h = Done (q', h') /\
    back q' h' = Done (v, h') /\
    front q' h' = Done (w, h') /\
    (stored q = 0 -> w = v) /\
    (0 < stored q < m_capacity q -> front q h = Done (w, h)) /\
    (stored q = m_capacity q -> (contents q (elems b) ++ [v]) !! 1%nat = Some w).
Proof.
  intros Hwf Hb.
  destruct (wf_lookup q h b Hwf Hb) as (Hs & Ha & _).
  pose proof (stored_is_length q h b Hwf Hb) as Hl.
  pose proof (stored_range q Hs) as Hr.
  pose proof (shape_capacity q Hs) as Hcp.
  destruct (push_back_run v q h b Hwf Hb)
    as (q' & h' & b' & Hrun & Hwf' & Hb' & Hcap & Hst & _ & Hc & _).
  assert (He' : m_isEmpty q' = false).
  { destruct (m_isEmpty q') eqn:E; [|done].
    rewrite (stored_empty q' E) in Hst. destruct Hs. lia. }
  pose proof (stored_is_length q' h' b' Hwf' Hb') as Hl'.
  destruct (index_run q' h' b' 0 Hwf' Hb') as (w & Hw & _ & Hcw).
  { destruct Hs. lia. }
  destruct (index_run q' h' b' (stored q' - 1) Hwf' Hb') as (u & Hu & _ & Hcu).
  { destruct Hs. lia. }
  assert (u = v) as ->.
  { rewrite Hc, lookup_drop in Hcu.
    replace (Z.to_nat (stored q + 1 - m_capacity q) + Z.to_nat (stored q' - 1))%nat
      with (length (contents q (elems b)) + 0)%nat in Hcu by lia.
    rewrite lookup_app_r in Hcu by lia.
    replace (length (contents q (elems b)) + 0 - length (contents q (elems b)))%nat
      with 0%nat in Hcu by lia.
    simpl in Hcu. congruence. }
  exists q', h', w. rewrite (back_is_index q' h' Hwf' He'), (front_is_index q' h' Hwf' He').
  split_and!; try done.
  - intros Hz. rewrite Hc, lookup_drop in Hcw.
    assert (Hnil : contents q (elems b) = []) by (apply nil_length_inv; lia).
    rewrite Hnil in Hcw. replace (Z.to_nat (stored q + 1 - m_capacity q)) with 0%nat in Hcw by lia.
    simpl in Hcw. congruence.
  - intros Hroom.
    assert (He : m_isEmpty q = false).
    { destruct (m_isEmpty q) eqn:E; [|done]. rewrite (stored_empty q E) in Hroom. lia. }
    rewrite (front_is_index q h Hwf He). apply (index_is_lookup q h b 0 w Hwf Hb); [lia|].
    rewrite Hc, lookup_drop in Hcw.
    replace (Z.to_nat (stored q + 1 - m_capacity q)) with 0%nat in Hcw by lia.
    simpl in Hcw. rewrite lookup_app_l in Hcw by lia. done.
  - intros Hfull. rewrite Hc, lookup_drop in Hcw.
    replace (Z.to_nat (stored q + 1 - m_capacity q)) with 1%nat in Hcw by lia.
    done.
Qed.

(** X4. [push_back] and the indices. With room left every index keeps
    its element and the new value gets the next index. In a full queue
    every element moves one index down, the oldest goes, and the new
    value gets the last index. *)
Theorem push_back_and_the_indices v q h b :
  wf q h -> h !! m_buffer q = Some b ->
  exists q' h' n',
    push_back v q h = Done (q', h') /\
    size q' h' = Done (n', h') /\
    n' = Z.min (stored q + 1) (m_capacity q) /\
    index q' (n' - 1) h' = Done (v, h') /\
    forall n w, 0 <= n < n' - 1 ->
      (index q' n h' = Done (w, h') <->
       index q (n + (stored q + 1 - n')) h = Done (w, h)).
Proof.
  intros Hwf Hb.
  destruct (wf_lookup q h b Hwf Hb) as (Hs & Ha & _).
  pose proof (stored_is_length q h b Hwf Hb) as Hl.
  pose proof (stored_range q Hs) as Hr.
  pose proof (shape_capacity q Hs) as Hcp.
  destruct (push_back_run v q h b Hwf Hb)
    as (q' & h' & b' & Hrun & Hwf' & Hb' & Hcap & Hst & _ & Hc & _).
  exists q', h', (stored q'). split_and!; try done.
  - by apply size_run.
  - apply (index_is_lookup q' h' b' _ v Hwf' Hb'); [destruct Hs; lia|].
    rewrite Hc, lookup_drop.
    replace (Z.to_nat (stored q + 1 - m_capacity q) + Z.to_nat (stored q' - 1))%nat
      with (length (contents q (elems b)) + 0)%nat by (destruct Hs; lia).
    rewrite lookup_app_r by lia.
    replace (length (contents q (elems b)) + 0 - length (contents q (elems b)))%nat
      with 0%nat by lia.
    done.
  - intros n w Hn.
    rewrite (index_is_lookup q' h' b' n w Hwf' Hb') by lia.
    rewrite (index_is_lookup q h b _ w Hwf Hb) by lia.
    rewrite Hc, lookup_drop, lookup_app_l by lia.
    replace (Z.to_nat (stored q + 1 - m_capacity q) + Z.to_nat n)%nat
      with (Z.to_nat (n + (stored q + 1 - stored q'))) by lia.
    done.
Qed.

(** X5. [pop] returns the element of index 0, and every other element
    moves one index down; the index of the former newest is then out of
    range. *)
Theorem pop_shifts_the_indices q h b :
  wf q h -> h !! m_buffer q = Some b -> m_isEmpty q = false ->
  exists v q' h',
    pop q h = Done ((v, q'), h') /\
    index q 0 h = Done (v, h) /\
    size q' h' = Done (stored q - 1, h') /\
    index q' (stored q - 1) h' = AssertFail /\
    forall n w, 0 <= n ->
      (index q' n h' = Done (w, h') <-> index q (n + 1) h = Done (w, h)).
Proof.
  intros Hwf Hb He.
  destruct (pop_run q h b Hwf Hb He)
    as (v & q' & h' & b' & Hrun & Hwf' & Hb' & Hcap & Hst & Hc & _).
  exists v, q', h'. split_and!; try done.
  - apply (index_is_lookup q h b 0 v Hwf Hb); [lia|]. by rewrite Hc.
  - rewrite (size_run q' h' Hwf'). by rewrite Hst.
  - apply index_beyond; [done | lia].
  - intros n w Hn.
    rewrite (index_is_lookup q' h' b' n w Hwf' Hb') by lia.
    rewrite (index_is_lookup q h b _ w Hwf Hb) by lia.
    rewrite Hc. replace (Z.to_nat (n + 1)) with (S (Z.to_nat n)) by lia. done.
Qed.

(** ** Owners of a buffer *)

Lemma detach_unique q h b :
  h !! m_buffer q = Some b -> use_count b = 1%nat ->
  detach q h = Done (m_buffer q, h).
Proof.
  intros Hb Hu. unfold detach, bind, sp_unique. rewrite Hb, Hu. done.
Qed.

Lemma detach_shared q h b :
  h !! m_buffer q = Some b -> (1 < use_count b)%nat ->
  exists l h1,
    detach q h = Done (l, h1) /\
    h !! l = None /\ l <> m_buffer q /\
    h1 !! l = Some (Block (elems b) 1) /\
    h1 !! m_buffer q = Some (Block (elems b) (Nat.pred (use_count b))) /\
    forall l', l' <> l -> l' <> m_buffer q -> h1 !! l' = h !! l'.
Proof.
  intros Hb Hu. unfold detach, bind, sp_unique. rewrite Hb.
  destruct (Nat.eqb_spec (use_count b) 1) as [|_]; [lia|].
  unfold sp_deref. rewrite Hb. unfold sp_new, sp_release. simpl.
  assert (Hfresh : h !! fresh (dom h) = None) by (apply not_elem_of_dom, is_fresh).
  assert (Hne : fresh (dom h) <> m_buffer q) by congruence.
  rewrite lookup_insert_ne by done. rewrite Hb.
  destruct (Nat.leb_spec (use_count b) 1); [lia|].
  eexists _, _. split; [done|]. split_and!; try done.
  - rewrite lookup_insert_ne by done. apply lookup_insert_eq.
  - apply lookup_insert_eq.
  - intros l' H1 H2. by rewrite !lookup_insert_ne.
Qed.

(** X6. Copy on write. When the object is the only owner of its buffer,
    [push_back] and [pop] work in place: the object keeps its buffer.
    When the buffer has other owners, the object moves to a new buffer
    with one owner, and the shared buffer keeps its array and loses one
    owner; [pop] does so although it writes nothing. *)
Theorem mutators_copy_a_shared_buffer v q h b :
  wf q h -> h !! m_buffer q = Some b ->
  (exists q' h' b',
      push_back v q h = Done (q', h') /\
      h' !! m_buffer q' = Some b' /\ use_count b' = 1%nat /\
      (use_count b = 1%nat -> m_buffer q' = m_buffer q) /\
      ((1 < use_count b)%nat ->
       h !! m_buffer q' = None /\
       h' !! m_buffer q = Some (Block (elems b) (Nat.pred (use_count b))))) /\
  (m_isEmpty q = false ->
   exists w q' h',
      pop q h = Done ((w, q'), h') /\
      h' !! m_buffer q' = Some (Block (elems b) 1) /\
      (use_count b = 1%nat -> m_buffer q' = m_buffer q /\ h' = h) /\
      ((1 < use_count b)%nat ->
       h !! m_buffer q' = None /\
       h' !! m_buffer q = Some (Block (elems b) (Nat.pred (use_count b))))).
Proof.
  intros Hwf Hb. destruct (wf_lookup q h b Hwf Hb) as (Hs & Ha & Hu).
  assert (Hd : exists l h1,
             detach q h = Done (l, h1) /\ h1 !! l = Some (Block (elems b) 1) /\
             (use_count b = 1%nat -> l = m_buffer q /\ h1 = h) /\
             ((1 < use_count b)%nat ->
              h !! l = None /\ l <> m_buffer q /\
              h1 !! m_buffer q = Some (Block (elems b) (Nat.pred (use_count b))))).
  { destruct (decide (use_count b = 1%nat)) as [Hone | Hmany].
    - exists (m_buffer q), h. split_and!; try done; try lia.
      + by apply (detach_unique q h b).
      + rewrite Hb. destruct b; simpl in *. by subst.
    - destruct (detach_shared q h b Hb ltac:(lia)) as (l & h1 & Hrun & Hn & Hne & Hl & Hq & _).
      exists l, h1. by split_and!. }
  destruct Hd as (l & h1 & Hrun & Hl & Hone & Hmany). split.
  - unfold push_back. rewrite (bind_done _ _ _ _ _ Hrun).
    match goal with |- context [ret ?x] => remember x as q' eqn:Eq' end.
    destruct (push_back_indices l q q' Hs Eq') as (Hs' & _ & _ & _).
    assert (Hbuf : m_buffer q' = l) by (by subst q').
    assert (Hcap : m_capacity q' = m_capacity q) by (by subst q').
    assert (Htl' : (if negb (m_isEmpty q) then _index_add q (m_tail q) 1 else m_tail q)
                   = m_tail q') by (by subst q').
    rewrite Htl'.
    erewrite bind_done; [| apply store_run with (b := Block (elems b) 1); [done|]].
    2: { simpl. destruct Hs' as [_ _ Ht' _]. lia. }
    simpl. eexists q', _, _. split; [done|]. rewrite Hbuf.
    split; [apply lookup_insert_eq|]. split_and!; try done.
    + intros H1. by destruct (Hone H1).
    + intros H1. destruct (Hmany H1) as (Hn & Hne & Hq). split; [done|].
      by rewrite lookup_insert_ne.
  - intros He. unfold pop. rewrite (bind_done _ _ _ _ _ Hrun). rewrite He. simpl.
    unfold bind at 1. simpl.
    destruct (lookup_lt_is_Some_2 (elems b) (Z.to_nat (m_head q))) as [w Hw].
    { destruct Hs. lia. }
    erewrite bind_done; [| eapply at_run; [exact Hl | destruct Hs; lia | exact Hw]].
    unfold ret. eexists w, _, h1. split; [done|].
    assert (Hbuf : forall (x : bool) (y z : Z), m_buffer (if x then Queue l (m_capacity q) y y true
                                           else Queue l (m_capacity q) y z false) = l).
    { by intros [] y z. }
    rewrite Hbuf. split_and!; try done.
    intros H1. destruct (Hmany H1) as (Hn & Hne & Hq). done.
Qed.

(** ** The store after a copy *)

(** X7. The copy constructor adds one block to the store, at an address
    that was free, with the array of the source and one owner; the
    indices are those of the source. Every block the store had, that of
    the source included, is as it was: the owner the constructor added
    to read the source is dropped again. *)
Theorem copy_construct_adds_one_block from h b :
  wf from h -> h !! m_buffer from = Some b ->
  exists l,
    h !! l = None /\
    copy_construct from h =
      Done (Queue l (m_capacity from) (m_head from) (m_tail from) (m_isEmpty from),
            <[l := Block (elems b) 1]> h).
Proof.
  intros Hwf Hb. destruct (wf_lookup from h b Hwf Hb) as (Hs & Ha & Hu).
  unfold copy_construct.
  rewrite (bind_done _ _ _ _ _ (get_buffer_run from h b Hb)).
  unfold bind at 1, sp_deref. rewrite lookup_insert_eq. simpl.
  unfold bind at 1, sp_new. simpl.
  set (h1 := <[m_buffer from := Block (elems b) (S (use_count b))]> h).
  set (l := fresh (dom h1)).
  assert (Hl : h1 !! l = None) by (apply not_elem_of_dom, is_fresh).
  assert (Hne : m_buffer from <> l).
  { intros E. rewrite <- E in Hl. unfold h1 in Hl. by rewrite lookup_insert_eq in Hl. }
  exists l. split.
  { unfold h1 in Hl. by rewrite lookup_insert_ne in Hl. }
  unfold bind, sp_release. rewrite lookup_insert_ne by done.
  unfold h1. rewrite lookup_insert_eq. simpl.
  destruct (use_count b) as [|n] eqn:En; [lia|]. simpl. unfold ret. do 2 f_equal.
  rewrite (insert_insert_ne _ l) by done. rewrite insert_insert_eq.
  rewrite (insert_insert_ne _ (m_buffer from) l) by done.
  rewrite (insert_id h (m_buffer from)); [done|].
  rewrite Hb. destruct b; simpl in *. by subst.
Qed.

(** X8. [operator=] on any two objects, the same object on both sides
    included: the object moves to a new block with the array and the
    indices of the source, the block it had loses one owner and is
    freed when that was the last one, and every other block of the
    store is as it was. *)
Theorem assign_moves_to_a_new_block this from h b bt :
  wf this h -> wf from h ->
  h !! m_buffer this = Some bt -> h !! m_buffer from = Some b ->
  exists l h0,
    assign this from h =
      Done (Queue l (m_capacity from) (m_head from) (m_tail from) (m_isEmpty from), h0) /\
    h !! l = None /\
    h0 !! l = Some (Block (elems b) 1) /\
    h0 !! m_buffer this =
      (if (use_count bt =? 1)%nat then None
       else Some (Block (elems bt) (Nat.pred (use_count bt)))) /\
    forall l', l' <> l -> l' <> m_buffer this -> h0 !! l' = h !! l'.
Proof.
  intros Hwft Hwf Hbt Hb.
  destruct (wf_lookup from h b Hwf Hb) as (Hs & Ha & Hu).
  destruct (wf_lookup this h bt Hwft Hbt) as (_ & _ & Hut).
  unfold assign.
  rewrite (bind_done _ _ _ _ _ (get_buffer_run from h b Hb)).
  unfold bind at 1, sp_deref. rewrite lookup_insert_eq. simpl.
  unfold bind at 1, sp_new. simpl.
  set (h1 := <[m_buffer from := Block (elems b) (S (use_count b))]> h).
  set (l := fresh (dom h1)).
  assert (Hl : h1 !! l = None) by (apply not_elem_of_dom, is_fresh).
  assert (Hne : m_buffer from <> l).
  { intros E. rewrite <- E in Hl. unfold h1 in Hl. by rewrite lookup_insert_eq in Hl. }
  assert (Hfree : h !! l = None).
  { unfold h1 in Hl. by rewrite lookup_insert_ne in Hl. }
  assert (Hne' : m_buffer this <> l) by congruence.
  exists l.
  destruct (decide (m_buffer this = m_buffer from)) as [Hsame | Hdiff].
  - assert (bt = b) as -> by congruence.
    unfold bind at 1, sp_release at 1. rewrite lookup_insert_ne by done.
    unfold h1. rewrite Hsame, lookup_insert_eq. simpl.
    destruct (use_count b) as [|n] eqn:En; [lia|]. simpl.
    unfold bind, sp_release. rewrite lookup_insert_eq. simpl.
    destruct n as [|n]; simpl; unfold ret; eexists; (split; [done|]); split_and!; try done.
    + rewrite lookup_delete_ne by done. rewrite lookup_insert_ne by done.
      apply lookup_insert_eq.
    + apply lookup_delete_eq.
    + intros l' H1 H2. rewrite lookup_delete_ne by done.
      by rewrite !lookup_insert_ne.
    + rewrite lookup_insert_ne by done. rewrite lookup_insert_ne by done.
      apply lookup_insert_eq.
    + apply lookup_insert_eq.
    + intros l' H1 H2. by rewrite !lookup_insert_ne.
  - unfold bind at 1, sp_release at 1. rewrite lookup_insert_ne by done.
    unfold h1. rewrite lookup_insert_ne by done. rewrite Hbt.
    assert (Hb0 : <[m_buffer from := b]> h = h) by (by apply insert_id).
    destruct (use_count bt) as [|[|n]] eqn:En; [lia| |]; simpl.
    + unfold bind, sp_release. rewrite lookup_delete_ne by done.
      rewrite lookup_insert_ne by done. rewrite lookup_insert_eq. simpl.
      destruct (use_count b) as [|m] eqn:Em; [lia|]. simpl. unfold ret.
      eexists; (split; [done|]); split_and!; try done.
      * rewrite lookup_insert_ne by done. rewrite lookup_delete_ne by done.
        apply lookup_insert_eq.
      * rewrite lookup_insert_ne by done. apply lookup_delete_eq.
      * intros l' H1 H2. destruct (decide (l' = m_buffer from)) as [-> | H3].
        -- rewrite lookup_insert_eq, Hb. destruct b; simpl in *. by subst.
        -- rewrite lookup_insert_ne by done. rewrite lookup_delete_ne by done.
           by rewrite !lookup_insert_ne.
    + unfold bind, sp_release. rewrite lookup_insert_ne by done.
      rewrite lookup_insert_ne by done. rewrite lookup_insert_eq. simpl.
      destruct (use_count b) as [|m] eqn:Em; [lia|]. simpl. unfold ret.
      eexists; (split; [done|]); split_and!; try done.
      * rewrite lookup_insert_ne by done. rewrite lookup_insert_ne by done.
        apply lookup_insert_eq.
      * rewrite lookup_insert_ne by done. apply lookup_insert_eq.
      * intros l' H1 H2. destruct (decide (l' = m_buffer from)) as [-> | H3].
        -- rewrite lookup_insert_eq, Hb. destruct b; simpl in *. by subst.
        -- by rewrite !lookup_insert_ne.
Qed.

(** ** No undefined behaviour *)

(** X18. No call on a well-formed queue runs into undefined behaviour:
    the unchecked array accesses of the readers and of the mutators
    stay within the array, and no call uses a buffer that is gone. Each
    call returns or stops at its [assert], and what [push_back] and
    [pop] leave is well formed again. *)
Theorem calls_stay_within_the_array v (n : Z) q h :
  wf q h -> 0 <= n ->
  front q h <> Undefined /\ back q h <> Undefined /\ size q h <> Undefined /\
  index q n h <> Undefined /\
  push_back v q h <> Undefined /\ pop q h <> Undefined /\
  (forall q' h', push_back v q h = Done (q', h') -> wf q' h') /\
  (forall w q' h', pop q h = Done ((w, q'), h') -> wf q' h').
Proof.
  intros Hwf Hn. pose proof Hwf as [Hs (b & Hb & _)].
  assert (Hidx : forall m, 0 <= m -> index q m h <> Undefined).
  { intros m Hm. destruct (Z.lt_ge_cases m (stored q)) as [Hlt | Hge].
    - destruct (index_run q h b m Hwf Hb ltac:(lia)) as (w & Hrun & _). by rewrite Hrun.
    - by rewrite (index_beyond q h m Hwf Hge). }
  destruct (push_back_run v q h b Hwf Hb) as (q1 & h1 & b1 & Hpush & Hwf1 & _).
  assert (Hpop : pop q h <> Undefined /\
                 forall w q' h', pop q h = Done ((w, q'), h') -> wf q' h').
  { destruct (m_isEmpty q) eqn:He.
    - rewrite (pop_empty q h Hwf He). by split.
    - destruct (pop_run q h b Hwf Hb He) as (w & q2 & h2 & b2 & Hrun & Hwf2 & _).
      rewrite Hrun. split; [done|]. by intros ? ? ? [= _ <- <-]. }
  destruct Hpop as [Hpop1 Hpop2].
  split_and!; try done.
  - destruct (m_isEmpty q) eqn:He.
    + by rewrite (front_empty q h Hwf He).
    + rewrite (front_is_index q h Hwf He). by apply Hidx.
  - destruct (m_isEmpty q) eqn:He.
    + by rewrite (back_empty q h Hwf He).
    + rewrite (back_is_index q h Hwf He). apply Hidx.
      pose proof (stored_nonempty q Hs He). lia.
  - by rewrite (size_run q h Hwf).
  - by apply Hidx.
  - by rewrite Hpush.
  - rewrite Hpush. by intros ? ? [= <- <-].
Qed.

End queue.

(** ** The properties at a queue of capacity three

    The full queue is the one of the unit test after [push_back] of 1
    to 4: the array holds 4, 2, 3 and the head is slot 1. *)

Lemma size_within_capacity_of_three :
  let q := Queue 0 3 1 0 false in
  let h : gmap nat (block Z) := {[0%nat := Block [4; 2; 3] 1]} in
  wf q h /\
  exists n, size q h = Done (n, h) /\ 0 <= n <= capacity q /\ (empty q = true <-> n = 0).
Proof.
  intros q h.
  assert (Hwf : wf q h).
  { split.
    - split; simpl; [lia | lia | lia | discriminate].
    - exists (Block [4; 2; 3] 1). split; [reflexivity|]. simpl. split; lia. }
  split; [exact Hwf|].
  apply (size_within_capacity q h Hwf).
Defined.

Lemma queue_is_a_bounded_fifo_of_three :
  let ms : list (mutation (T:=Z)) := [PushBack 1; PushBack 2; Pop; PushBack 3; PushBack 4; PushBack 5] in
  let h : gmap nat (block Z) := ∅ in
  0 < 3 < 2 ^ 63 /\
  match model_run 3 ms [] with
  | Some c => exists q h',
      (do q0 <- construct 0 3 ;; mutate_all ms q0) h = Done (q, h') /\
      wf q h' /\ observe q h' = Some (3, c) /\
      size q h' = Done (Z.of_nat (length c), h') /\
      (empty q = true <-> c = []) /\
      forall l, is_Some (h !! l) -> h' !! l = h !! l
  | None => (do q0 <- construct 0 3 ;; mutate_all ms q0) h = AssertFail
  end.
Proof.
  intros ms h.
  assert (Hsize : 0 < 3 < 2 ^ 63) by lia.
  split; [exact Hsize|].
  apply (queue_is_a_bounded_fifo 0 3 h ms Hsize).
Defined.

Lemma back_returns_the_value_pushed_into_three :
  let q := Queue 0 3 1 0 false in
  let b : block Z := Block [4; 2; 3] 1 in
  let h : gmap nat (block Z) := {[0%nat := b]} in
  wf q h /\ h !! m_buffer q = Some b /\
  exists q' h' w, push_back 5 q h = Done (q', h') /\ back q' h' = Done (5, h') /\
    front q' h' = Done (w, h') /\ (stored q = 0 -> w = 5) /\
    (0 < stored q < m_capacity q -> front q h = Done (w, h)) /\
    (stored q = m_capacity q -> (contents q (elems b) ++ [5]) !! 1%nat = Some w).
Proof.
  intros q b h.
  assert (Hwf : wf q h).
  { split.
    - split; simpl; [lia | lia | lia | discriminate].
    - exists b. split; [reflexivity|]. simpl. split; lia. }
  assert (Hb : h !! m_buffer q = Some b) by reflexivity.
  split; [exact Hwf|]. split; [exact Hb|].
  apply (back_returns_the_value_pushed 5 q h b Hwf Hb).
Defined.

Lemma push_back_and_the_indices_of_three :
  let q := Queue 0 3 1 0 false in
  let b : block Z := Block [4; 2; 3] 1 in
  let h : gmap nat (block Z) := {[0%nat := b]} in
  wf q h /\ h !! m_buffer q = Some b /\
  exists q' h' n', push_back 5 q h = Done (q', h') /\ size q' h' = Done (n', h') /\
    n' = Z.min (stored q + 1) (m_capacity q) /\ index q' (n' - 1) h' = Done (5, h') /\
    forall n w, 0 <= n < n' - 1 ->
      (index q' n h' = Done (w, h') <-> index q (n + (stored q + 1 - n')) h = Done (w, h)).
Proof.
  intros q b h.
  assert (Hwf : wf q h).
  { split.
    - split; simpl; [lia | lia | lia | discriminate].
    - exists b. split; [reflexivity|]. simpl. split; lia. }
  assert (Hb : h !! m_buffer q = Some b) by reflexivity.
  split; [exact Hwf|]. split; [exact Hb|].
  apply (push_back_and_the_indices 5 q h b Hwf Hb).
Defined.

Lemma pop_shifts_the_indices_of_three :
  let q := Queue 0 3 1 0 false in
  let b : block Z := Block [4; 2; 3] 1 in
  let h : gmap nat (block Z) := {[0%nat := b]} in
  wf q h /\ h !! m_buffer q = Some b /\ m_isEmpty q = false /\
  exists v q' h', pop q h = Done ((v, q'), h') /\ index q 0 h = Done (v, h) /\
    size q' h' = Done (stored q - 1, h') /\ index q' (stored q - 1) h' = AssertFail /\
    forall n w, 0 <= n -> (index q' n h' = Done (w, h') <-> index q (n + 1) h = Done (w, h)).
Proof.
  intros q b h.
  assert (Hwf : wf q h).
  { split.
    - split; simpl; [lia | lia | lia | discriminate].
    - exists b. split; [reflexivity|]. simpl. split; lia. }
  assert (Hb : h !! m_buffer q = Some b) by reflexivity.
  assert (He : m_isEmpty q = false) by reflexivity.
  split; [exact Hwf|]. split; [exact Hb|]. split; [exact He|].
  apply (pop_shifts_the_indices q h b Hwf Hb He).
Defined.

(** The buffer has a second owner here, as while a reader holds it. *)
Lemma mutators_copy_a_buffer_a_reader_holds :
  let q := Queue 0 3 1 0 false in
  let b : block Z := Block [4; 2; 3] 2 in
  let h : gmap nat (block Z) := {[0%nat := b]} in
  wf q h /\ h !! m_buffer q = Some b /\
  (exists q' h' b',
      push_back 5 q h = Done (q', h') /\
      h' !! m_buffer q' = Some b' /\ use_count b' = 1%nat /\
      (use_count b = 1%nat -> m_buffer q' = m_buffer q) /\
      ((1 < use_count b)%nat ->
       h !! m_buffer q' = None /\
       h' !! m_buffer q = Some (Block (elems b) (Nat.pred (use_count b))))) /\
  (m_isEmpty q = false ->
   exists w q' h',
      pop q h = Done ((w, q'), h') /\
      h' !! m_buffer q' = Some (Block (elems b) 1) /\
      (use_count b = 1%nat -> m_buffer q' = m_buffer q /\ h' = h) /\
      ((1 < use_count b)%nat ->
       h !! m_buffer q' = None /\
       h' !! m_buffer q = Some (Block (elems b) (Nat.pred (use_count b))))).
Proof.
  intros q b h.
  assert (Hwf : wf q h).
  { split.
    - split; simpl; [lia | lia | lia | discriminate].
    - exists b. split; [reflexivity|]. simpl. split; lia. }
  assert (Hb : h !! m_buffer q = Some b) by reflexivity.
  split; [exact Hwf|]. split; [exact Hb|].
  apply (mutators_copy_a_shared_buffer 5 q h b Hwf Hb).
Defined.

Lemma copy_construct_adds_one_block_to_three :
  let from := Queue 0 3 1 0 false in
  let b : block Z := Block [4; 2; 3] 1 in
  let h : gmap nat (block Z) := {[0%nat := b]} in
  wf from h /\ h !! m_buffer from = Some b /\
  exists l,
    h !! l = None /\
    copy_construct from h =
      Done (Queue l (m_capacity from) (m_head from) (m_tail from) (m_isEmpty from),
            <[l := Block (elems b) 1]> h).
Proof.
  intros from b h.
  assert (Hwf : wf from h).
  { split.
    - split; simpl; [lia | lia | lia | discriminate].
    - exists b. split; [reflexivity|]. simpl. split; lia. }
  assert (Hb : h !! m_buffer from = Some b) by reflexivity.
  split; [exact Hwf|]. split; [exact Hb|].
  apply (copy_construct_adds_one_block from h b Hwf Hb).
Defined.

(** The assignment of the full queue to itself. *)
Lemma assign_to_itself_moves_to_a_new_block :
  let q := Queue 0 3 1 0 false in
  let b : block Z := Block [4; 2; 3] 1 in
  let h : gmap nat (block Z) := {[0%nat := b]} in
  wf q h /\ h !! m_buffer q = Some b /\
  exists l h0,
    assign q q h =
      Done (Queue l (m_capacity q) (m_head q) (m_tail q) (m_isEmpty q), h0) /\
    h !! l = None /\
    h0 !! l = Some (Block (elems b) 1) /\
    h0 !! m_buffer q =
      (if (use_count b =? 1)%nat then None
       else Some (Block (elems b) (Nat.pred (use_count b)))) /\
    forall l', l' <> l -> l' <> m_buffer q -> h0 !! l' = h !! l'.
Proof.
  intros q b h.
  assert (Hwf : wf q h).
  { split.
    - split; simpl; [lia | lia | lia | discriminate].
    - exists b. split; [reflexivity|]. simpl. split; lia. }
  assert (Hb : h !! m_buffer q = Some b) by reflexivity.
  split; [exact Hwf|]. split; [exact Hb|].
  apply (assign_moves_to_a_new_block q q h b b Hwf Hwf Hb Hb).
Defined.

Lemma calls_stay_within_the_array_of_three :
  let q := Queue 0 3 1 0 false in
  let h : gmap nat (block Z) := {[0%nat := Block [4; 2; 3] 1]} in
  wf q h /\ 0 <= 7 /\
  front q h <> Undefined /\ back q h <> Undefined /\ size q h <> Undefined /\
  index q 7 h <> Undefined /\
  push_back 5 q h <> Undefined /\ pop q h <> Undefined /\
  (forall q' h', push_back 5 q h = Done (q', h') -> wf q' h') /\
  (forall w q' h', pop q h = Done ((w, q'), h') -> wf q' h').
Proof.
  intros q h.
  assert (Hwf : wf q h).
  { split.
    - split; simpl; [lia | lia | lia | discriminate].
    - exists (Block [4; 2; 3] 1). split; [reflexivity|]. simpl. split; lia. }
  assert (Hn : 0 <= 7) by lia.
  split; [exact Hwf|]. split; [exact Hn|].
  apply (calls_stay_within_the_array 5 7 q h Hwf Hn).
Defined.

End CQ_more.

(** * More on the LRU cache *)

Module LRU_more.
Import LRU LRU_theory.

Section cache.
Context {Key : Type} `{Countable Key} {value_ptr_type : Type}.
Variable sizeof_value : Z.
Implicit Types (c : @LRU_cache Key _ _) (s : gmap nat (Key * value_ptr_type)).
Implicit Types (key k : Key) (value v : value_ptr_type) (it : nat).
Implicit Types (kvs : list (Key * value_ptr_type)).

(** ** The list of a consistent cache *)

Lemma entries_lookup c s kvs (i : nat) it :
  consistent c s -> entries c s = Some <$> kvs -> m_list c !! i = Some it ->
  exists k v, kvs !! i = Some (k, v) /\ s !! it = Some (k, v) /\
              m_hash_table c !! k = Some it.
Proof.
  intros Hc He Hi.
  assert (Hx : entries c s !! i = Some (s !! it)).
  { unfold entries. by rewrite list_lookup_fmap, Hi. }
  rewrite He, list_lookup_fmap in Hx.
  destruct (kvs !! i) as [[k v]|] eqn:Ek; simpl in Hx; [|done].
  injection Hx as Hx. exists k, v. split_and!; try done.
  destruct (consistent_list c s Hc it) as (k' & v' & Hs & Ht).
  { by eapply list_elem_of_lookup_2. }
  congruence.
Qed.

Lemma entries_length c s kvs :
  entries c s = Some <$> kvs -> length kvs = length (m_list c).
Proof.
  intros He. apply (f_equal length) in He. unfold entries in He.
  rewrite !length_fmap in He. done.
Qed.

Lemma entries_elem c s kvs k v :
  consistent c s -> entries c s = Some <$> kvs ->
  (k, v) ∈ kvs <-> exists it, it ∈ m_list c /\ s !! it = Some (k, v).
Proof.
  intros Hc He. split.
  - intros Hin. apply list_elem_of_lookup in Hin as [i Hi].
    destruct (lookup_lt_is_Some_2 (m_list c) i) as [it Hit].
    { rewrite <- (entries_length c s kvs He). by eapply lookup_lt_Some. }
    destruct (entries_lookup c s kvs i it Hc He Hit) as (k' & v' & Hk & Hs & _).
    exists it. split; [by eapply list_elem_of_lookup_2|]. congruence.
  - intros (it & Hin & Hs). apply list_elem_of_lookup in Hin as [i Hi].
    destruct (entries_lookup c s kvs i it Hc He Hi) as (k' & v' & Hk & Hs' & _).
    apply (list_elem_of_lookup_2 _ i). congruence.
Qed.

Lemma keys_nodup c s kvs :
  consistent c s -> entries c s = Some <$> kvs -> NoDup kvs.*1.
Proof.
  intros Hc He. apply NoDup_alt. intros i j k Hi Hj.
  rewrite list_lookup_fmap in Hi. rewrite list_lookup_fmap in Hj.
  destruct (kvs !! i) as [[k1 v1]|] eqn:Ei; simpl in Hi; [|done].
  destruct (kvs !! j) as [[k2 v2]|] eqn:Ej; simpl in Hj; [|done].
  injection Hi as ->. injection Hj as ->.
  destruct (lookup_lt_is_Some_2 (m_list c) i) as [it1 Hit1].
  { rewrite <- (entries_length c s kvs He). by eapply lookup_lt_Some. }
  destruct (lookup_lt_is_Some_2 (m_list c) j) as [it2 Hit2].
  { rewrite <- (entries_length c s kvs He). by eapply lookup_lt_Some. }
  destruct (entries_lookup c s kvs i it1 Hc He Hit1) as (k1' & v1' & Hk1 & _ & Ht1).
  destruct (entries_lookup c s kvs j it2 Hc He Hit2) as (k2' & v2' & Hk2 & _ & Ht2).
  assert (it1 = it2) as -> by congruence.
  eapply NoDup_lookup; [apply (consistent_nodup c s Hc) | done | done].
Qed.

(** The table holds the keys of the list, and the node of a key holds
    the value the list has for it. *)
Lemma table_is_list c s kvs key :
  consistent c s -> entries c s = Some <$> kvs ->
  match m_hash_table c !! key with
  | Some it => exists v, s !! it = Some (key, v) /\ it ∈ m_list c /\
                 (list_to_map kvs : gmap Key value_ptr_type) !! key = Some v
  | None => (list_to_map kvs : gmap Key value_ptr_type) !! key = None
  end.
Proof.
  intros Hc He. destruct (m_hash_table c !! key) as [it|] eqn:Et.
  - destruct (consistent_index c s Hc key it Et) as (Hin & v & Hs).
    exists v. split_and!; try done.
    apply elem_of_list_to_map_1; [by eapply keys_nodup|].
    apply (entries_elem c s kvs key v Hc He). by exists it.
  - apply not_elem_of_list_to_map_1. intros Hin.
    apply list_elem_of_fmap in Hin as ([k v] & -> & Hin). simpl in Et.
    apply (entries_elem c s kvs k v Hc He) in Hin as (it & Hin & Hs).
    destruct (consistent_list c s Hc it Hin) as (k' & v' & Hs' & Ht). congruence.
Qed.

Lemma exists_is_list c s kvs key :
  consistent c s -> entries c s = Some <$> kvs ->
  exists_ key c = bool_decide (key ∈ kvs.*1).
Proof.
  intros Hc He. pose proof (table_is_list c s kvs key Hc He) as Ht.
  unfold exists_. destruct (m_hash_table c !! key) as [it|].
  - destruct Ht as (v & _ & _ & Hl). symmetry. apply bool_decide_eq_true.
    apply elem_of_list_to_map_2 in Hl. apply list_elem_of_fmap. by exists (key, v).
  - symmetry. apply bool_decide_eq_false. by apply not_elem_of_list_to_map_2 in Ht.
Qed.

Lemma fmap_filter_agree s (l : list nat) kvs it key :
  (fun x => s !! x) <$> l = Some <$> kvs ->
  (forall x k v, x ∈ l -> s !! x = Some (k, v) -> (x = it <-> k = key)) ->
  (fun x => s !! x) <$> filter (fun y => y <> it) l =
    Some <$> filter (fun p => fst p <> key) kvs.
Proof.
  revert kvs. induction l as [|x l IH]; intros kvs He Hag.
  - symmetry in He. apply fmap_nil_inv in He. by subst.
  - destruct kvs as [|[k v] kvs]; [done|]. simpl in He. injection He as Hx He.
    rewrite !filter_cons. simpl.
    assert (Hl : forall x0 k0 v0, x0 ∈ l -> s !! x0 = Some (k0, v0) -> x0 = it <-> k0 = key).
    { intros x0 k0 v0 Hin. apply Hag. by right. }
    specialize (IH kvs He Hl).
    pose proof (Hag x k v ltac:(left) Hx) as Hiff.
    destruct (decide (x <> it)), (decide (k <> key)).
    + rewrite !fmap_cons. by rewrite Hx, IH.
    + tauto.
    + tauto.
    + done.
Qed.

Lemma entries_splice c s kvs key it value :
  consistent c s -> entries c s = Some <$> kvs -> m_hash_table c !! key = Some it ->
  (fun x => <[it := (key, value)]> s !! x) <$> filter (fun y => y <> it) (m_list c) =
    Some <$> filter (fun p => fst p <> key) kvs.
Proof.
  intros Hc He Ht.
  rewrite <- (fmap_filter_agree s (m_list c) kvs it key He).
  - apply Forall_fmap_ext_1, Forall_forall. intros x Hx.
    apply list_elem_of_filter in Hx as [Hne _]. by rewrite lookup_insert_ne.
  - intros x k v Hin Hs. destruct (consistent_list c s Hc x Hin) as (k' & v' & Hs' & Ht').
    assert (k' = k) as -> by congruence.
    destruct (consistent_index c s Hc key it Ht) as (_ & v0 & Hs0).
    split; [intros ->; congruence | intros ->; congruence].
Qed.

Lemma entries_filter c s kvs key it :
  consistent c s -> entries c s = Some <$> kvs -> m_hash_table c !! key = Some it ->
  (fun x => s !! x) <$> filter (fun y => y <> it) (m_list c) =
    Some <$> filter (fun p => fst p <> key) kvs.
Proof.
  intros Hc He Ht. apply fmap_filter_agree; [done|].
  intros x k v Hin Hs. destruct (consistent_list c s Hc x Hin) as (k' & v' & Hs' & Ht').
  assert (k' = k) as -> by congruence.
  destruct (consistent_index c s Hc key it Ht) as (_ & v0 & Hs0).
  split; [intros ->; congruence | intros ->; congruence].
Qed.

Lemma filter_absent_key kvs key :
  key ∉ kvs.*1 -> filter (fun p => fst p <> key) kvs = kvs.
Proof.
  induction kvs as [|[k v] kvs IH]; [done|]. intros Hn.
  rewrite fmap_cons, not_elem_of_cons in Hn. destruct Hn as [Hk Hn].
  simpl in Hk. rewrite filter_cons_True by (simpl; congruence). by rewrite IH.
Qed.

(** ** The calls on the list *)

(** The second half of [push] takes the last element off the list when
    the bounds ask for it. *)
Lemma evict_refines c s kvs :
  consistent c s -> entries c s = Some <$> kvs -> m_list c <> [] ->
  exists c' s',
    evict sizeof_value c s = Done (c', s') /\
    consistent c' s' /\
    entries c' s' =
      Some <$> (if lru_over sizeof_value (m_max_size c) (m_max_memory_size c)
                     (Z.of_nat (length kvs))
                then removelast kvs else kvs) /\
    m_max_size c' = m_max_size c /\
    m_max_memory_size c' = m_max_memory_size c /\
    m_stats c' = m_stats c /\
    forall x, x ∉ m_list c -> (x ∉ m_list c') /\ s' !! x = s !! x.
Proof.
  intros Hc He Hne.
  assert (Hover : over_budget sizeof_value c =
                  lru_over sizeof_value (m_max_size c) (m_max_memory_size c)
                    (Z.of_nat (length kvs))).
  { unfold over_budget, lru_over, _get_memory_size, _get_cache_size.
    by rewrite <- (list_length_is_table_size c s Hc), <- (entries_length c s kvs He). }
  unfold evict. rewrite Hover.
  destruct (lru_over _ _ _ _).
  - destruct (discard_run c s Hc Hne) as (rest & it & k & v & Hl & Hv & Hk & Hd & Hc').
    eexists _, _. split; [exact Hd|]. split_and!; try done.
    + unfold entries. simpl.
      pose proof (consistent_nodup c s Hc) as Hnd. rewrite Hl in Hnd.
      apply NoDup_app in Hnd as (_ & Hdis & _).
      assert (Hrest : (fun x => delete it s !! x) <$> rest = (fun x => s !! x) <$> rest).
      { apply Forall_fmap_ext_1, Forall_forall. intros x Hx.
        rewrite lookup_delete_ne; [done|]. intros Heq. apply (Hdis x Hx). rewrite <- Heq. by left. }
      rewrite Hrest, removelast_firstn_len, fmap_take.
      rewrite <- He. unfold entries. rewrite Hl, fmap_app.
      rewrite (entries_length c s kvs He), Hl, length_app. simpl.
      replace (Nat.pred (length rest + 1)) with (length ((fun x => s !! x) <$> rest))
        by (rewrite length_fmap; lia).
      by rewrite take_app_length.
    + simpl. intros x Hx. rewrite Hl in Hx. rewrite not_elem_of_app in Hx.
      destruct Hx as [Hx1 Hx2]. split; [done|].
      rewrite lookup_delete_ne; [done|]. intros Heq. apply Hx2. rewrite <- Heq. by left.
  - exists c, s. by split_and!.
Qed.

(** [push] on the list *)
Lemma push_refines key value c s kvs :
  consistent c s -> entries c s = Some <$> kvs ->
  exists c' s',
    push sizeof_value key value c s = Done (c', s') /\
    consistent c' s' /\
    entries c' s' =
      Some <$> lru_push sizeof_value (m_max_size c) (m_max_memory_size c) key value kvs /\
    m_max_size c' = m_max_size c /\
    m_max_memory_size c' = m_max_memory_size c /\
    m_stats c' = m_stats c /\
    forall x, is_Some (s !! x) -> x ∉ m_list c -> (x ∉ m_list c') /\ s' !! x = s !! x.
Proof.
  intros Hc He.
  assert (Hfirst : exists c1 s1,
             insert_or_update key value c s = Done (c1, s1) /\
             consistent c1 s1 /\ m_list c1 <> [] /\
             entries c1 s1 = Some <$> lru_touch key value kvs /\
             m_max_size c1 = m_max_size c /\
             m_max_memory_size c1 = m_max_memory_size c /\
             m_stats c1 = m_stats c /\
             forall x, is_Some (s !! x) -> x ∉ m_list c ->
                       (x ∉ m_list c1) /\ s1 !! x = s !! x).
  { pose proof (table_is_list c s kvs key Hc He) as Ht.
    destruct (m_hash_table c !! key) as [it|] eqn:Et.
    - destruct (insert_or_update_known key value c s it Hc Et) as [Hrun Hc1].
      eexists _, _. split; [exact Hrun|]. split_and!; try done.
      + unfold entries, lru_touch. simpl. rewrite lookup_insert_eq. rewrite ?fmap_cons.
        f_equal. by apply entries_splice.
      + intros x Hx Hnin. simpl.
        destruct Ht as (_ & _ & Hin & _).
        assert (x <> it) by (intros ->; done).
        split; [|by rewrite lookup_insert_ne].
        rewrite not_elem_of_cons. split; [done|].
        intros Hf. apply list_elem_of_filter in Hf as [_ Hf]. done.
    - destruct (insert_or_update_new key value c s Hc Et) as (it & Hit & Hrun & Hc1).
      eexists _, _. split; [exact Hrun|]. split_and!; try done.
      + unfold entries, lru_touch. simpl. rewrite lookup_insert_eq. rewrite ?fmap_cons.
        f_equal. rewrite filter_absent_key by (by apply not_elem_of_list_to_map_2 in Ht).
        etrans; [|exact He]. unfold entries.
        apply Forall_fmap_ext_1, Forall_forall. intros x Hx.
        rewrite lookup_insert_ne; [done|]. intros Heq.
        apply (fresh_not_in_list c s Hc). by rewrite <- Hit, Heq.
      + intros x Hx Hnin. simpl.
        assert (x <> it).
        { intros Heq. apply (is_fresh (dom s)). rewrite <- Hit, <- Heq. by apply elem_of_dom. }
        split; [|by rewrite lookup_insert_ne].
        rewrite not_elem_of_cons. done. }
  destruct Hfirst as (c1 & s1 & Hrun & Hc1 & Hne & He1 & Hmax & Hmem & Hst & Hfr).
  destruct (evict_refines c1 s1 _ Hc1 He1 Hne)
    as (c' & s' & Hev & Hc' & He' & Hmax' & Hmem' & Hst' & Hfr').
  exists c', s'. unfold push. rewrite (bind_done _ _ _ _ _ Hrun).
  split; [exact Hev|]. split_and!; try congruence.
  - rewrite He'. unfold lru_push. by rewrite Hmax, Hmem.
  - intros x Hx Hnin. destruct (Hfr x Hx Hnin) as [H1 H2].
    destruct (Hfr' x H1) as [H3 H4]. split; [done | congruence].
Qed.

(** [get] on the list *)
Lemma get_refines key value c s kvs :
  consistent c s -> entries c s = Some <$> kvs ->
  exists c',
    get key value c s =
      Done ((fst (fst (lru_get key value kvs)), snd (fst (lru_get key value kvs)), c'), s) /\
    consistent c' s /\
    entries c' s = Some <$> snd (lru_get key value kvs) /\
    m_max_size c' = m_max_size c /\
    m_max_memory_size c' = m_max_memory_size c /\
    m_hash_table c' = m_hash_table c /\
    forall x, x ∉ m_list c -> x ∉ m_list c'.
Proof.
  intros Hc He.
  destruct (get_run key value c s Hc)
    as (found & value' & c' & Hrun & Hc' & Htab & Hmax & Hmem & _).
  pose proof (table_is_list c s kvs key Hc He) as Ht.
  unfold get in Hrun. simpl in Hrun. unfold lru_get.
  destruct (m_hash_table c !! key) as [it|] eqn:Et.
  - destruct Ht as (v & Hs & Hin & Hl). rewrite Hl. simpl.
    unfold bind, list_splice_front in Hrun. simpl in Hrun.
    destruct (decide (it ∈ m_list c)) as [_|]; [|done].
    unfold node_read in Hrun. rewrite Hs in Hrun. simpl in Hrun. unfold ret in Hrun.
    injection Hrun as <- <- <-.
    eexists. unfold get. simpl. rewrite Et.
    unfold bind, list_splice_front. simpl.
    destruct (decide (it ∈ m_list c)) as [_|]; [|done].
    unfold node_read. rewrite Hs. simpl. unfold ret.
    split; [done|]. split_and!; try done.
    + unfold entries, lru_touch. simpl. rewrite Hs, ?fmap_cons. f_equal.
      by apply (entries_filter c s kvs key it).
    + simpl. intros x Hx. rewrite not_elem_of_cons. split; [by intros ->|].
      intros Hf. apply list_elem_of_filter in Hf as [_ Hf]. done.
  - rewrite Ht. simpl. unfold ret in Hrun. injection Hrun as <- <- <-.
    eexists. unfold get. simpl. rewrite Et. unfold ret.
    split; [done|]. by split_and!.
Qed.

(** A sequence of calls on the list *)
Lemma run_ops_refines os :
  forall c s kvs,
    consistent c s -> entries c s = Some <$> kvs ->
    exists c' s',
      run_ops sizeof_value os c s =
        Done ((fst (lru_run sizeof_value (m_max_size c) (m_max_memory_size c) os kvs), c'), s') /\
      consistent c' s' /\
      entries c' s' =
        Some <$> snd (lru_run sizeof_value (m_max_size c) (m_max_memory_size c) os kvs) /\
      m_max_size c' = m_max_size c /\
      m_max_memory_size c' = m_max_memory_size c /\
      forall x, is_Some (s !! x) -> x ∉ m_list c -> (x ∉ m_list c') /\ s' !! x = s !! x.
Proof.
  induction os as [|o os IH]; intros c s kvs Hc He.
  - exists c, s. by split_and!.
  - assert (Hstep : exists c1 s1,
               step sizeof_value o c s =
                 Done ((fst (lru_step sizeof_value (m_max_size c) (m_max_memory_size c) o kvs),
                        c1), s1) /\
               consistent c1 s1 /\
               entries c1 s1 =
                 Some <$> snd (lru_step sizeof_value (m_max_size c) (m_max_memory_size c) o kvs) /\
               m_max_size c1 = m_max_size c /\
               m_max_memory_size c1 = m_max_memory_size c /\
               forall x, is_Some (s !! x) -> x ∉ m_list c ->
                         (x ∉ m_list c1) /\ s1 !! x = s !! x).
    { destruct o as [key value | key value | key |]; simpl.
      - destruct (push_refines key value c s kvs Hc He)
          as (c1 & s1 & Hrun & Hc1 & He1 & Hmax & Hmem & _ & Hfr).
        exists c1, s1. rewrite (bind_done _ _ _ _ _ Hrun). by split_and!.
      - destruct (get_refines key value c s kvs Hc He)
          as (c1 & Hrun & Hc1 & He1 & Hmax & Hmem & _ & Hfr).
        exists c1, s. rewrite (bind_done _ _ _ _ _ Hrun). split_and!; try done.
        intros x _ Hx. split; [by apply Hfr | done].
      - exists c, s. by split_and!.
      - exists (reset_stats c), s. split_and!; try done.
        by apply consistent_stats. }
    destruct Hstep as (c1 & s1 & Hrun & Hc1 & He1 & Hmax & Hmem & Hfr).
    destruct (IH c1 s1 _ Hc1 He1) as (c' & s' & Hrun' & Hc' & He' & Hmax' & Hmem' & Hfr').
    rewrite Hmax, Hmem in Hrun', He'.
    exists c', s'. simpl. rewrite (bind_done _ _ _ _ _ Hrun). simpl.
    rewrite (bind_done _ _ _ _ _ Hrun'). simpl.
    split_and!; try done; try congruence.
    intros x Hx Hnin. destruct (Hfr x Hx Hnin) as [H1 H2].
    destruct (Hfr' x) as [H3 H4]; [by rewrite H2 | done |]. split; [done | congruence].
Qed.

(** X9. A cache is its recency list. After any sequence of [push],
    [get], [exists] and [reset_stats] on a cache built by either
    constructor, the elements in list order are those of the list the
    same calls give: a [push] or a hit puts the element in front, and a
    [push] that exceeds a bound drops the last element. The flags of
    the [get]s are those of the list, [exists] holds for the keys of
    the list and no others, and the nodes the store had before are as
    they were. *)
Theorem cache_is_its_recency_list (N M : Z) (os : list op) s :
  exists c' s',
    run_ops sizeof_value os (construct_with_memory N M) s =
      Done ((fst (lru_run sizeof_value N M os []), c'), s') /\
    consistent c' s' /\
    entries c' s' = Some <$> snd (lru_run sizeof_value N M os []) /\
    (forall k, exists_ k c' =
               bool_decide (k ∈ (snd (lru_run sizeof_value N M os [])).*1)) /\
    (forall x, is_Some (s !! x) -> s' !! x = s !! x) /\
    construct N = construct_with_memory (Key:=Key) N 0.
Proof.
  destruct (construct_consistent (Key:=Key) (value_ptr_type:=value_ptr_type) N M s)
    as [Hc Hsame].
  destruct (run_ops_refines os (construct_with_memory N M) s [] Hc eq_refl)
    as (c' & s' & Hrun & Hc' & He' & _ & _ & Hfr).
  exists c', s'. split_and!; try done.
  - intros k. by apply (exists_is_list c' s').
  - intros x Hx. apply (Hfr x Hx). simpl. apply not_elem_of_nil.
Qed.

(** ** One call after the other *)

Lemma entries_exist c s :
  consistent c s -> exists kvs, entries c s = Some <$> kvs.
Proof.
  intros Hc. unfold entries.
  assert (Hall : forall it, it ∈ m_list c -> is_Some (s !! it)).
  { intros it Hin. destruct (consistent_list c s Hc it Hin) as (k & v & Hs & _). by eexists. }
  induction (m_list c) as [|it l IH].
  - by exists [].
  - destruct IH as [kvs Hk]. { intros x Hx. apply Hall. by right. }
    destruct (Hall it ltac:(left)) as [p Hp].
    exists (p :: kvs). rewrite !fmap_cons. by rewrite Hp, Hk.
Qed.

(** X10. What [push] stores, [get] returns. On a cache that may hold
    one element at least, after [push] of a key [exists] holds for it,
    its element is the first of the list, and a [get] of the key gives
    [true] and the value pushed and leaves the list as it is. *)
Theorem get_returns_the_value_pushed key value value0 c s :
  consistent c s ->
  1 <= m_max_size c ->
  m_max_memory_size c = 0 \/ wrap sizeof_value <= m_max_memory_size c ->
  exists c1 s1 c2,
    push sizeof_value key value c s = Done (c1, s1) /\
    exists_ key c1 = true /\
    head (entries c1 s1) = Some (Some (key, value)) /\
    get key value0 c1 s1 = Done ((true, value, c2), s1) /\
    entries c2 s1 = entries c1 s1.
Proof.
  intros Hc Hsize Hmem. destruct (entries_exist c s Hc) as [kvs He].
  destruct (push_refines key value c s kvs Hc He)
    as (c1 & s1 & Hrun & Hc1 & He1 & _).
  assert (Hfront : exists rest,
             lru_push sizeof_value (m_max_size c) (m_max_memory_size c) key value kvs
             = (key, value) :: rest).
  { unfold lru_push, lru_touch, lru_over.
    destruct (filter _ kvs) as [|p l].
    - simpl length. change (Z.of_nat 1) with 1. rewrite Z.mul_1_l.
      destruct (Z.gtb_spec 1 (m_max_size c)); [lia|]. simpl.
      destruct Hmem as [-> | Hle]; simpl; [by eexists|].
      destruct (Z.gtb_spec (wrap sizeof_value) (m_max_memory_size c)); [lia|].
      rewrite andb_false_r. by eexists.
    - destruct (_ || _); by eexists. }
  destruct Hfront as [rest Hfront]. rewrite Hfront in He1.
  destruct (get_refines key value0 c1 s1 _ Hc1 He1) as (c2 & Hget & _ & He2 & _).
  assert (Hl : (list_to_map ((key, value) :: rest) : gmap Key value_ptr_type) !! key
               = Some value) by apply lookup_insert_eq.
  unfold lru_get in Hget, He2. rewrite Hl in Hget, He2. simpl in Hget, He2.
  exists c1, s1, c2. split_and!; try done.
  - rewrite (exists_is_list c1 s1 _ key Hc1 He1). apply bool_decide_eq_true. by left.
  - by rewrite He1.
  - rewrite He1, He2. unfold lru_touch. rewrite filter_cons_False by (simpl; tauto).
    rewrite filter_absent_key; [done|].
    pose proof (keys_nodup c1 s1 _ Hc1 He1) as Hnd. by inversion Hnd.
Qed.

Lemma run_ops_size_zero (M : Z) os :
  forall (g : Z) s,
    exists rs g',
      run_ops sizeof_value os (Cache [] ∅ 0 M (MkStats g 0)) s
      = Done ((rs, Cache [] ∅ 0 M (MkStats g' 0)), s) /\
      Forall (fun found => found = false) rs.
Proof.
  induction os as [|o os IH]; intros g s.
  - by exists [], g.
  - assert (Hstep : exists r g',
               step sizeof_value o (Cache [] ∅ 0 M (MkStats g 0)) s
               = Done ((r, Cache [] ∅ 0 M (MkStats g' 0)), s) /\
               Forall (fun found => found = false) r).
    { destruct o as [key value | key value | key |]; simpl.
      - exists [], g. split; [|done].
        unfold push, insert_or_update, bind, list_push_front, bind, node_new. simpl.
        rewrite lookup_empty. simpl.
        unfold evict, over_budget, _get_cache_size. simpl.
        rewrite insert_empty, map_size_singleton. simpl.
        unfold _discard_one_elem, bind, list_last, node_read. simpl.
        rewrite lookup_insert_eq. simpl. unfold list_erase.
        destruct (decide (fresh (dom s) ∈ [fresh (dom s)])) as [_ | Hn];
          [| exfalso; apply Hn; by left].
        rewrite filter_cons_False by tauto. rewrite filter_nil.
        unfold ret, with_hash_table, with_list. simpl.
        rewrite delete_singleton_eq.
        rewrite delete_insert_id by (apply not_elem_of_dom, is_fresh). done.
      - exists [false], (wrap (g + 1)). split; [|by repeat constructor].
        unfold get, bind. simpl. by rewrite lookup_empty.
      - exists [], g. by split.
      - exists [], 0. by split. }
    destruct Hstep as (r & g1 & Hrun & Hr).
    destruct (IH g1 s) as (rs & g' & Hrun' & Hrs).
    exists (r ++ rs), g'. simpl. rewrite (bind_done _ _ _ _ _ Hrun). simpl.
    rewrite (bind_done _ _ _ _ _ Hrun'). simpl.
    split; [done|]. by apply Forall_app.
Qed.

(** X11. A cache built for no element holds none. With [Size] 0 every
    [push] discards the element it has just stored, the node included:
    after any sequence of calls the list and the table are empty, the
    store is as it was, every [get] has missed and no hit is counted. *)
Theorem cache_of_size_zero_holds_nothing (M : Z) (os : list op) s :
  exists rs c',
    run_ops sizeof_value os (construct_with_memory 0 M) s = Done ((rs, c'), s) /\
    m_list c' = [] /\ m_hash_table c' = ∅ /\
    Forall (fun found => found = false) rs /\
    m_hit_cnt (m_stats c') = 0.
Proof.
  destruct (run_ops_size_zero M os 0 s) as (rs & g' & Hrun & Hrs).
  exists rs, (Cache [] ∅ 0 M (MkStats g' 0)). by split_and!.
Qed.

(** What one call does to the number of elements and to the counters. *)
Lemma step_cases o c s :
  consistent c s ->
  exists r c' s',
    step sizeof_value o c s = Done ((r, c'), s') /\
    consistent c' s' /\
    m_max_size c' = m_max_size c /\
    m_max_memory_size c' = m_max_memory_size c /\
    ((size (m_hash_table c') <= size (m_hash_table c))%nat \/
     (size (m_hash_table c') <= S (size (m_hash_table c)))%nat /\
     over_budget sizeof_value c' = false) /\
    (m_stats c' = m_stats c \/ m_stats c' = MkStats 0 0 \/
     m_get_cnt (m_stats c') = wrap (m_get_cnt (m_stats c) + 1) /\
     (m_hit_cnt (m_stats c') = m_hit_cnt (m_stats c) \/
      m_hit_cnt (m_stats c') = wrap (m_hit_cnt (m_stats c) + 1))).
Proof.
  intros Hc. destruct o as [key value | key value | key |]; simpl.
  - destruct (insert_or_update_run key value c s Hc)
      as (c1 & s1 & Hrun & Hc1 & Hne & Hmax & Hmem & Hst & _ & Hgrow).
    unfold push, bind. rewrite Hrun. unfold evict.
    destruct (over_budget sizeof_value c1) eqn:Hover.
    + destruct (discard_run c1 s1 Hc1 Hne) as (rest & it & k & v & Hl & Hv & Hk & Hd & Hc').
      rewrite Hd. eexists _, _, _. split; [done|].
      split_and!; try done; [|by left]. left. simpl.
      rewrite map_size_delete, Hk. lia.
    + unfold ret. eexists _, _, _. split; [done|].
      split_and!; try done; [|by left]. right. done.
  - destruct (get_run key value c s Hc)
      as (found & value' & c' & Hrun & Hc' & Htab & Hmax & Hmem & Hget & Hhit).
    rewrite (bind_done _ _ _ _ _ Hrun). eexists _, _, _. split; [done|].
    split_and!; try done.
    + left. by rewrite Htab.
    + right. right. split; [done|]. destruct found; [by right | by left].
  - eexists _, _, _. split; [done|]. split_and!; try done; by left.
  - eexists _, _, _. split; [done|]. split_and!; try done.
    + by apply consistent_stats.
    + by left.
    + right. by left.
Qed.

Lemma run_ops_within_memory (N M : Z) os :
  0 <= N -> 0 <= sizeof_value -> 0 < M -> (N + 1) * sizeof_value < 2 ^ 64 ->
  forall c s,
    consistent c s -> m_max_size c = N -> m_max_memory_size c = M ->
    Z.of_nat (size (m_hash_table c)) <= N ->
    Z.of_nat (size (m_hash_table c)) * sizeof_value <= M ->
    exists rs c' s',
      run_ops sizeof_value os c s = Done ((rs, c'), s') /\
      Z.of_nat (size (m_hash_table c')) <= N /\
      Z.of_nat (size (m_hash_table c')) * sizeof_value <= M.
Proof.
  intros HN Hsz HM Hfit.
  induction os as [|o os IH]; intros c s Hc Hmax Hmem Hn Hb.
  - by exists [], c, s.
  - destruct (step_cases o c s Hc) as (r & c1 & s1 & Hrun & Hc1 & Hmax1 & Hmem1 & Hsize & _).
    assert (Hinv : Z.of_nat (size (m_hash_table c1)) <= N /\
                   Z.of_nat (size (m_hash_table c1)) * sizeof_value <= M).
    { destruct Hsize as [Hle | [Hle Hover]].
      - split; [lia|]. etrans; [|exact Hb]. apply Z.mul_le_mono_nonneg_r; lia.
      - unfold over_budget, _get_memory_size, _get_cache_size in Hover.
        rewrite Hmax1, Hmem1, Hmax, Hmem in Hover.
        apply orb_false_iff in Hover as [H1 H2].
        destruct (Z.gtb_spec (Z.of_nat (size (m_hash_table c1))) N) as [|Hle1]; [done|].
        destruct (Z.eqb_spec M 0) as [|_]; [lia|]. simpl in H2.
        destruct (Z.gtb_spec (wrap (Z.of_nat (size (m_hash_table c1)) * sizeof_value)) M)
          as [|Hle2]; [done|].
        split; [done|]. rewrite wrap_small in Hle2; [done|].
        split; [apply Z.mul_nonneg_nonneg; lia|].
        eapply Z.le_lt_trans; [|exact Hfit]. apply Z.mul_le_mono_nonneg_r; lia. }
    destruct Hinv as [Hn1 Hb1].
    destruct (IH c1 s1 Hc1 ltac:(congruence) ltac:(congruence) Hn1 Hb1)
      as (rs & c' & s' & Hrun' & Hn' & Hb').
    exists (r ++ rs), c', s'. simpl. rewrite (bind_done _ _ _ _ _ Hrun). simpl.
    rewrite (bind_done _ _ _ _ _ Hrun'). simpl. done.
Qed.

(** X12. The memory bound holds. A cache built with a [MemorySize]
    other than 0, for a count whose byte size does not wrap, never
    estimates more memory than [MemorySize] after a call: the estimate
    is the count times [sizeof(value_type)], and the count stays
    within [Size] as well. *)
Theorem memory_estimate_within_the_bound (N M : Z) (os : list op) s :
  0 <= N -> 0 <= sizeof_value -> 0 < M -> (N + 1) * sizeof_value < 2 ^ 64 ->
  exists rs c' s',
    run_ops sizeof_value os (construct_with_memory N M) s = Done ((rs, c'), s') /\
    _get_memory_size sizeof_value c' = _get_cache_size c' * sizeof_value /\
    _get_memory_size sizeof_value c' <= M /\
    _get_cache_size c' <= N.
Proof.
  intros HN Hsz HM Hfit.
  destruct (construct_consistent (Key:=Key) (value_ptr_type:=value_ptr_type) N M s)
    as [Hc _].
  destruct (run_ops_within_memory N M os HN Hsz HM Hfit (construct_with_memory N M) s Hc)
    as (rs & c' & s' & Hrun & Hn & Hb); try done.
  { assert (size (m_hash_table (construct_with_memory (Key:=Key) N M)) = 0%nat) as -> by done.
    lia. }
  exists rs, c', s'. split; [done|].
  assert (Hw : _get_memory_size sizeof_value c' = _get_cache_size c' * sizeof_value).
  { unfold _get_memory_size, _get_cache_size. apply wrap_small.
    split; [apply Z.mul_nonneg_nonneg; lia|].
    eapply Z.le_lt_trans; [|exact Hfit]. apply Z.mul_le_mono_nonneg_r; lia. }
  split; [done|]. rewrite Hw. done.
Qed.

Lemma run_ops_counters os :
  forall c s (g : Z),
    consistent c s ->
    0 <= m_hit_cnt (m_stats c) <= m_get_cnt (m_stats c) ->
    m_get_cnt (m_stats c) <= g ->
    g + Z.of_nat (length os) < 2 ^ 64 ->
    exists rs c' s',
      run_ops sizeof_value os c s = Done ((rs, c'), s') /\
      0 <= m_hit_cnt (m_stats c') <= m_get_cnt (m_stats c') /\
      m_get_cnt (m_stats c') <= g + Z.of_nat (length os).
Proof.
  induction os as [|o os IH]; intros c s g Hc Hh Hg Hlen.
  - exists [], c, s. split; [done|]. simpl. lia.
  - destruct (step_cases o c s Hc) as (r & c1 & s1 & Hrun & Hc1 & _ & _ & _ & Hst).
    simpl length in *.
    assert (Hinv : 0 <= m_hit_cnt (m_stats c1) <= m_get_cnt (m_stats c1) /\
                   m_get_cnt (m_stats c1) <= g + 1).
    { destruct Hst as [-> | [-> | [Hget Hhit]]]; [lia | simpl; lia |].
      rewrite wrap_small in Hget by lia.
      destruct Hhit as [Hhit | Hhit]; [lia|].
      rewrite wrap_small in Hhit by lia. lia. }
    destruct Hinv as [Hh1 Hg1].
    destruct (IH c1 s1 (g + 1) Hc1 Hh1 Hg1 ltac:(lia)) as (rs & c' & s' & Hrun' & Hh' & Hg').
    exists (r ++ rs), c', s'. simpl. rewrite (bind_done _ _ _ _ _ Hrun). simpl.
    rewrite (bind_done _ _ _ _ _ Hrun'). simpl. split; [done|]. lia.
Qed.

(** X13. The hits never exceed the calls of [get]. After fewer than
    2^64 calls on a new cache, with [reset_stats] among them or not,
    [m_hit_cnt] is at most [m_get_cnt], and [m_get_cnt] at most the
    number of calls: neither counter has wrapped. *)
Theorem hits_never_exceed_gets (N M : Z) (os : list op) s :
  Z.of_nat (length os) < 2 ^ 64 ->
  exists rs c' s',
    run_ops sizeof_value os (construct_with_memory N M) s = Done ((rs, c'), s') /\
    0 <= m_hit_cnt (m_stats c') <= m_get_cnt (m_stats c') /\
    m_get_cnt (m_stats c') <= Z.of_nat (length os).
Proof.
  intros Hlen.
  destruct (construct_consistent (Key:=Key) (value_ptr_type:=value_ptr_type) N M s)
    as [Hc _].
  apply (run_ops_counters os (construct_with_memory N M) s 0 Hc); simpl; lia.
Qed.

(** X14. [push] of a key the cache holds, on a cache within its
    bounds: the node of the key gets the value and moves to the front.
    No node is made or freed, the table is as it was, and so every key
    the cache held is still there. *)
Theorem push_of_a_known_key key value c s it :
  consistent c s ->
  m_hash_table c !! key = Some it ->
  over_budget sizeof_value c = false ->
  exists c',
    push sizeof_value key value c s = Done (c', <[it := (key, value)]> s) /\
    consistent c' (<[it := (key, value)]> s) /\
    m_list c' = it :: filter (fun y => y <> it) (m_list c) /\
    m_hash_table c' = m_hash_table c /\
    dom (<[it := (key, value)]> s) = dom s /\
    forall k, exists_ k c' = exists_ k c.
Proof.
  intros Hc Ht Hfit.
  destruct (insert_or_update_known key value c s it Hc Ht) as [Hrun Hc1].
  eexists. unfold push. rewrite (bind_done _ _ _ _ _ Hrun).
  unfold evict.
  assert (Hsame : over_budget sizeof_value
                    (with_list (it :: filter (fun y => y <> it) (m_list c)) c)
                  = over_budget sizeof_value c) by done.
  rewrite Hsame, Hfit. split; [done|]. split_and!; try done.
  destruct (consistent_index c s Hc key it Ht) as (_ & v & Hs).
  apply dom_insert_lookup_L. by eexists.
Qed.

(** X15. The hit rate before the first [get]. On a new cache, and on
    any cache after [reset_stats], [get_hit_rate] divides zero by zero:
    the result is a NaN. *)
Theorem hit_rate_before_the_first_get (N M : Z) c :
  get_hit_rate (construct N : @LRU_cache Key _ _) = S754_nan /\
  get_hit_rate (construct_with_memory N M : @LRU_cache Key _ _) = S754_nan /\
  get_hit_rate (reset_stats c) = S754_nan.
Proof. split_and!; apply zero_of_zero. Qed.

(** X16. When every [get] was a hit, the hit rate is exactly 1: equal
    counters below 2^53 are converted without rounding, and their
    quotient is the double 2^52 * 2^-52. *)
Theorem hit_rate_of_hits_only c :
  0 < m_get_cnt (m_stats c) < 2 ^ 53 ->
  m_hit_cnt (m_stats c) = m_get_cnt (m_stats c) ->
  get_hit_rate c = S754_finite false (2 ^ 52) (-52).
Proof.
  intros Hg Hh. unfold get_hit_rate. rewrite Hh.
  destruct (m_get_cnt (m_stats c)) as [|g|g]; [lia| |lia].
  apply counter_quotient_exact; try lia; try done.
Qed.

(** ** The invariant of the table and the list *)

Lemma run_ops_consistent os :
  forall c s,
    consistent c s ->
    exists rs c' s',
      run_ops sizeof_value os c s = Done ((rs, c'), s') /\ consistent c' s'.
Proof.
  induction os as [|o os IH]; intros c s Hc.
  - by exists [], c, s.
  - destruct (step_cases o c s Hc) as (r & c1 & s1 & Hrun & Hc1 & _).
    destruct (IH c1 s1 Hc1) as (rs & c' & s' & Hrun' & Hc').
    exists (r ++ rs), c', s'. simpl. rewrite (bind_done _ _ _ _ _ Hrun). simpl.
    rewrite (bind_done _ _ _ _ _ Hrun'). simpl. done.
Qed.

(** C6. In every state that a sequence of [push], [get], [exists] and
    [reset_stats] reaches from either constructor, the table and the
    list agree. The list holds elements [kvs] with distinct keys; the
    keys of the table are the keys of the list and no others; and the
    entry of a key in the table points to a node of the list, the one
    that holds the element of this key. No call of the sequence fails.
    The class has no other way to make a cache: its copy constructor
    has no instantiation that compiles. *)
Theorem index_and_list_stay_consistent (N M : Z) (os : list op) s :
  exists rs c' s' kvs,
    run_ops sizeof_value os (construct_with_memory N M) s = Done ((rs, c'), s') /\
    consistent c' s' /\
    entries c' s' = Some <$> kvs /\
    NoDup kvs.*1 /\
    (forall k, is_Some (m_hash_table c' !! k) <-> k ∈ kvs.*1) /\
    (forall k it,
        m_hash_table c' !! k = Some it ->
        it ∈ m_list c' /\ exists v, s' !! it = Some (k, v) /\ (k, v) ∈ kvs) /\
    construct N = construct_with_memory (Key:=Key) N 0.
Proof.
  destruct (construct_consistent (Key:=Key) (value_ptr_type:=value_ptr_type) N M s)
    as [Hc Hsame].
  destruct (run_ops_consistent os (construct_with_memory N M) s Hc)
    as (rs & c' & s' & Hrun & Hc').
  destruct (entries_exist c' s' Hc') as [kvs He].
  exists rs, c', s', kvs. split_and!; try done.
  - by apply (keys_nodup c' s').
  - intros k. pose proof (exists_is_list c' s' kvs k Hc' He) as Hex.
    unfold exists_ in Hex. destruct (m_hash_table c' !! k) as [it|].
    + symmetry in Hex. apply bool_decide_eq_true in Hex. split; [done | by eexists].
    + symmetry in Hex. apply bool_decide_eq_false in Hex.
      split; [by intros [? ?] | done].
  - intros k it Hk. destruct (consistent_index c' s' Hc' k it Hk) as (Hin & v & Hs).
    split; [done|]. exists v. split; [done|].
    apply (entries_elem c' s' kvs k v Hc' He). by exists it.
Qed.

End cache.

(** ** The properties at a cache of three [int] values

    As in the unit test, [max_count] is 3 and [sizeof(int)] is 4. *)

Lemma get_returns_the_value_pushed_into_empty :
  let c : @LRU_cache nat _ _ := construct 3 in
  let s : gmap nat (nat * nat) := ∅ in
  consistent c s /\ 1 <= m_max_size c /\
  (m_max_memory_size c = 0 \/ wrap 4 <= m_max_memory_size c) /\
  exists c1 s1 c2,
    push 4 1%nat 10%nat c s = Done (c1, s1) /\
    exists_ 1%nat c1 = true /\
    head (entries c1 s1) = Some (Some (1%nat, 10%nat)) /\
    get 1%nat 0%nat c1 s1 = Done ((true, 10%nat, c2), s1) /\
    entries c2 s1 = entries c1 s1.
Proof.
  intros c s.
  assert (Hc : consistent c s).
  { split; simpl.
    - apply NoDup_nil_2.
    - intros k it Hk. discriminate.
    - intros it Hin. inversion Hin. }
  assert (Hsize : 1 <= m_max_size c) by (simpl; lia).
  assert (Hmem : m_max_memory_size c = 0 \/ wrap 4 <= m_max_memory_size c)
    by (left; reflexivity).
  split; [exact Hc|]. split; [exact Hsize|]. split; [exact Hmem|].
  apply (get_returns_the_value_pushed 4 1%nat 10%nat 0%nat c s Hc Hsize Hmem).
Defined.

(** Eight bytes are two [int] values: the third [push] discards one. *)
Lemma memory_estimate_within_eight_bytes :
  let os : list (@op nat nat) := [Push 0%nat 10%nat; Push 1%nat 11%nat; Push 2%nat 12%nat] in
  let s : gmap nat (nat * nat) := ∅ in
  0 <= 3 /\ 0 <= 4 /\ 0 < 8 /\ (3 + 1) * 4 < 2 ^ 64 /\
  exists rs c' s',
    run_ops 4 os (construct_with_memory 3 8) s = Done ((rs, c'), s') /\
    _get_memory_size 4 c' = _get_cache_size c' * 4 /\
    _get_memory_size 4 c' <= 8 /\
    _get_cache_size c' <= 3.
Proof.
  intros os s.
  assert (HN : 0 <= 3) by lia.
  assert (Hsz : 0 <= 4) by lia.
  assert (HM : 0 < 8) by lia.
  assert (Hfit : (3 + 1) * 4 < 2 ^ 64) by lia.
  split; [exact HN|]. split; [exact Hsz|]. split; [exact HM|]. split; [exact Hfit|].
  apply (memory_estimate_within_the_bound 4 3 8 os s HN Hsz HM Hfit).
Defined.

Lemma hits_never_exceed_gets_of_three :
  let os : list (@op nat nat) :=
    [Push 0%nat 10%nat; Get 0%nat 0%nat; Get 1%nat 0%nat; ResetStats; Get 0%nat 0%nat] in
  let s : gmap nat (nat * nat) := ∅ in
  Z.of_nat (length os) < 2 ^ 64 /\
  exists rs c' s',
    run_ops 4 os (construct_with_memory 3 0) s = Done ((rs, c'), s') /\
    0 <= m_hit_cnt (m_stats c') <= m_get_cnt (m_stats c') /\
    m_get_cnt (m_stats c') <= Z.of_nat (length os).
Proof.
  intros os s.
  assert (Hlen : Z.of_nat (length os) < 2 ^ 64) by (simpl; lia).
  split; [exact Hlen|].
  apply (hits_never_exceed_gets 4 3 0 os s Hlen).
Defined.

(** The cache after [push(1, 10)]: one node, at address 0. *)
Lemma push_of_a_known_key_of_one :
  let c : @LRU_cache nat _ _ := Cache [0%nat] {[1%nat := 0%nat]} 3 0 (MkStats 0 0) in
  let s : gmap nat (nat * nat) := {[0%nat := (1%nat, 10%nat)]} in
  consistent c s /\ m_hash_table c !! 1%nat = Some 0%nat /\ over_budget 4 c = false /\
  exists c',
    push 4 1%nat 11%nat c s = Done (c', <[0%nat := (1%nat, 11%nat)]> s) /\
    consistent c' (<[0%nat := (1%nat, 11%nat)]> s) /\
    m_list c' = 0%nat :: filter (fun y => y <> 0%nat) (m_list c) /\
    m_hash_table c' = m_hash_table c /\
    dom (<[0%nat := (1%nat, 11%nat)]> s) = dom s /\
    forall k, exists_ k c' = exists_ k c.
Proof.
  intros c s.
  assert (Hc : consistent c s).
  { split; simpl.
    - apply NoDup_singleton.
    - intros k it Hk. apply lookup_singleton_Some in Hk as [<- <-].
      split; [by left | by exists 10%nat].
    - intros it Hin. apply list_elem_of_singleton in Hin as ->.
      by exists 1%nat, 10%nat. }
  assert (Ht : m_hash_table c !! 1%nat = Some 0%nat) by reflexivity.
  assert (Hfit : over_budget 4 c = false) by reflexivity.
  split; [exact Hc|]. split; [exact Ht|]. split; [exact Hfit|].
  apply (push_of_a_known_key 4 1%nat 11%nat c s 0%nat Hc Ht Hfit).
Defined.

Lemma hit_rate_of_five_hits_in_five :
  let c : @LRU_cache nat _ _ := Cache [] ∅ 3 0 (MkStats 5 5) in
  0 < m_get_cnt (m_stats c) < 2 ^ 53 /\
  m_hit_cnt (m_stats c) = m_get_cnt (m_stats c) /\
  get_hit_rate c = S754_finite false (2 ^ 52) (-52).
Proof.
  intros c.
  assert (Hg : 0 < m_get_cnt (m_stats c) < 2 ^ 53) by (simpl; lia).
  assert (Hh : m_hit_cnt (m_stats c) = m_get_cnt (m_stats c)) by reflexivity.
  split; [exact Hg|]. split; [exact Hh|].
  apply (hit_rate_of_hits_only c Hg Hh).
Defined.

End LRU_more.
